(** * SnowPulse streaming pollers: a shallow embedding of
    [streaming/stream_to_snowflake.py]

    The three pollers ([HistoricalAggPoller], [AggregatePoller],
    [NewsPoller]) are embedded as computations in a small state and
    exception monad.  Everything the pollers cannot decide themselves (the
    answer of the REST API, the shutdown event, the outcome of an append on
    the Snowpipe channel, the clock, the iteration order of a Python [set])
    is supplied by an [oracle]; every call the pollers make to the outside
    is recorded in the [world].  Each poller is embedded on its own, with
    its own channel.  [api_get] is embedded a second time from the inside
    (module [Throttle]), and [main] with the constructors and [close] as
    the main thread runs them (module [Main]); the interleaving of the
    threads is not part of the embedding.  The definitions come first, the
    theorems about the offset windows, the per-ticker cycle, the shutdown,
    the historical load, the news deduplication, the throttle and [main]
    follow. *)

From Stdlib Require Import PrimFloat.
From stdpp Require Import gmap strings list pretty sorting.

Local Open Scope string_scope.

Set Warnings "-register-all,-abstract-large-number".

(** ** Python values *)

(** What [resp.json()] returns.  Numbers are the integers: the pollers never
    compute with a number of the payload, and a number with a fraction or an
    exponent (a Python [float]) has no counterpart here. *)
Inductive json : Type :=
  | JNull
  | JBool (b : bool)
  | JInt (z : Z)
  | JStr (s : string)
  | JArr (items : list json)
  | JObj (fields : list (string * json)).

(** The subclasses of [Exception] the pollers can meet.  What is not an
    [Exception] ([KeyboardInterrupt], [SystemExit]) is not raised inside a
    poller: SIGINT and SIGTERM go to [signal_handler], which sets the
    shutdown event and returns. *)
Inductive exn : Type :=
  | RequestException   (* requests.get failed, or raise_for_status did *)
  | JSONDecodeError    (* resp.json() failed *)
  | AttributeError
  | TypeError
  | IngestError.       (* channel.append_rows failed *)

(** [d.get(k)] on a dict: the first binding of [k]. *)
Fixpoint dict_get (d : list (string * json)) (k : string) : option json :=
  match d with
  | [] => None
  | (k', v) :: d' => if decide (k' = k) then Some v else dict_get d' k
  end.

(** [d[k] = v] on a dict: an existing key keeps its place, a new key goes
    last. *)
Fixpoint dict_set (d : list (string * json)) (k : string) (v : json)
  : list (string * json) :=
  match d with
  | [] => [(k, v)]
  | (k', v') :: d' =>
      if decide (k' = k) then (k, v) :: d' else (k', v') :: dict_set d' k v
  end.

(** [bool(v)]. *)
Definition py_truthy (v : json) : bool :=
  match v with
  | JNull => false
  | JBool b => b
  | JInt z => negb (z =? 0)%Z
  | JStr s => negb (String.eqb s "")
  | JArr l => match l with [] => false | _ :: _ => true end
  | JObj d => match d with [] => false | _ :: _ => true end
  end.

(** The elements of a set: hashable values up to Python's [==]
    ([True == 1], [False == 0]). *)
Inductive pykey : Type :=
  | KNone
  | KInt (z : Z)
  | KStr (s : string).

#[global] Instance pykey_eq_dec : EqDecision pykey.
Proof. solve_decision. Defined.

#[global] Instance pykey_countable : Countable pykey.
Proof.
  refine (inj_countable'
    (λ k, match k with
          | KNone => inl ()
          | KInt z => inr (inl z)
          | KStr s => inr (inr s)
          end)
    (λ c, match c with
          | inl _ => KNone
          | inr (inl z) => KInt z
          | inr (inr s) => KStr s
          end) _).
  by intros [].
Defined.

(** [hash(v)] succeeds on everything but lists and dicts. *)
Definition py_key (v : json) : option pykey :=
  match v with
  | JNull => Some KNone
  | JBool b => Some (KInt (if b then 1 else 0))
  | JInt z => Some (KInt z)
  | JStr s => Some (KStr s)
  | JArr _ | JObj _ => None
  end.

(** [l[-n:]]. *)
Definition py_last_n {A} (n : nat) (l : list A) : list A :=
  drop (length l - n) l.

(** [str(n)] of a non-negative int. *)
Definition py_str (n : nat) : string := pretty n.

(** ** Envelopes and the outside world *)

Record metadata : Type := Metadata {
  ingested_at : string;
  source : string;
  ticker : option string   (* the news poller writes no "ticker" key *)
}.

Record envelope : Type := Envelope {
  RECORD_CONTENT : json;
  RECORD_METADATA : metadata
}.

(** One call of [api_get(url, params)]. *)
Record request : Type := Request {
  req_url : string;
  req_params : list (string * json)
}.

(** One call of [channel.append_rows]; [ac_ok] tells whether it returned. *)
Record append_call : Type := AppendCall {
  ac_rows : list envelope;
  start_offset_token : string;
  end_offset_token : string;
  ac_ok : bool
}.

Inductive fetch_outcome : Type :=
  | Returns (data : json)
  | Raises (e : exn).

Record oracle : Type := Oracle {
  api_result : nat → fetch_outcome;   (* what the n-th api_get call does *)
  shutdown_is_set : nat → bool;       (* the n-th shutdown_event.is_set() *)
  append_ok : nat → bool;             (* whether the n-th append_rows returns *)
  utc_now : nat → string;             (* the n-th datetime.now(...).isoformat() *)
  today : string;                     (* datetime.now().strftime("%Y-%m-%d") *)
  thirty_days_ago : string;           (* the same, 30 days earlier *)
  set_order : nat → gset pykey → list pykey
                                      (* list(s) of a set s, at the n-th trim *)
}.

Record world : Type := World {
  requests : list request;       (* the api_get calls made, oldest first *)
  checks : nat;                  (* number of is_set() calls made *)
  clock_reads : nat;             (* number of timestamps taken *)
  appended : list append_call;   (* the append_rows calls made, oldest first *)
  trims : nat                    (* ghost: how often seen_ids was trimmed *)
}.

Definition world0 : world := World [] 0 0 [] 0.

(** The state a cycle runs in: the poller object, the local variable [rows]
    of [fetch_and_ingest], and the world. *)
Record st (P : Type) : Type := St {
  self : P;
  rows : list envelope;
  env : world
}.
Arguments St {P} _ _ _.
Arguments self {P} _.
Arguments rows {P} _.
Arguments env {P} _.

Definition set_self {P} (p : P) (s : st P) : st P := St p (rows s) (env s).
Definition set_rows {P} (r : list envelope) (s : st P) : st P :=
  St (self s) r (env s).
Definition set_env {P} (w : world) (s : st P) : st P := St (self s) (rows s) w.

(** ** The monad: state that survives exceptions *)

Inductive result (A : Type) : Type :=
  | Ok (a : A)
  | Raise (e : exn).
Arguments Ok {A} _.
Arguments Raise {A} _.

Definition Py (S A : Type) : Type := S → result A * S.

Definition ret {S A} (a : A) : Py S A := λ s, (Ok a, s).

Definition raise {S A} (e : exn) : Py S A := λ s, (Raise e, s).

Definition bind {S A B} (m : Py S A) (k : A → Py S B) : Py S B :=
  λ s, match m s with
       | (Ok a, s') => k a s'
       | (Raise e, s') => (Raise e, s')
       end.

(** [try: body / except Exception as e: handler]. *)
Definition try_except {S A} (body : Py S A) (handler : exn → Py S A) : Py S A :=
  λ s, match body s with
       | (Ok a, s') => (Ok a, s')
       | (Raise e, s') => handler e s'
       end.

Definition gets {S A} (f : S → A) : Py S A := λ s, (Ok (f s), s).

Definition modify {S} (f : S → S) : Py S unit := λ s, (Ok tt, f s).

Declare Scope py_scope.
Delimit Scope py_scope with py.
Notation "x <- m ;; k" := (bind m (λ x, k))
  (at level 100, m at next level, right associativity) : py_scope.
Notation "m ;;; k" := (bind m (λ _, k))
  (at level 100, right associativity) : py_scope.

(** [log.info] and [log.error] touch no state the pollers read. *)
Definition log {S} : Py S unit := ret tt.

(** [for x in xs: body]. *)
Fixpoint for_each {S A} (xs : list A) (body : A → Py S unit) : Py S unit :=
  match xs with
  | [] => ret tt
  | x :: xs' => (body x ;;; for_each xs' body)%py
  end.

(** ** Configuration *)

Definition TICKERS : list string :=
  ["AAPL"; "MSFT"; "GOOGL"; "AMZN"; "TSLA"; "NVDA"; "META"].

Definition POLYGON_REST_URL : string := "https://api.polygon.io".

(** The bounds of the [seen_ids] trim: [len(seen_ids) > 5000] and
    [[-2500:]]. *)
Definition SEEN_CAP : nat := 5000.
Definition SEEN_KEEP : nat := 2500.

(** ** Calls to the outside *)

Definition w_request (r : request) (w : world) : world :=
  World (requests w ++ [r]) (checks w) (clock_reads w) (appended w) (trims w).
Definition w_check (w : world) : world :=
  World (requests w) (S (checks w)) (clock_reads w) (appended w) (trims w).
Definition w_tick (w : world) : world :=
  World (requests w) (checks w) (S (clock_reads w)) (appended w) (trims w).
Definition w_append (c : append_call) (w : world) : world :=
  World (requests w) (checks w) (clock_reads w) (appended w ++ [c]) (trims w).
Definition w_trim (w : world) : world :=
  World (requests w) (checks w) (clock_reads w) (appended w) (S (trims w)).

Section Effects.
Context (O : oracle) {P : Type}.

(** [shutdown_event.is_set()]. *)
Definition is_set : Py (st P) bool :=
  λ s, (Ok (shutdown_is_set O (checks (env s))), set_env (w_check (env s)) s).

(** [api_get(url, params)]: the request goes out and the oracle answers
    (the body, or the exception of [requests.get], [raise_for_status] or
    [resp.json]); the request is recorded as the caller passes it, and the
    throttling sleep under [api_lock] takes time and nothing else. *)
Definition api_get (url : string) (params : list (string * json))
  : Py (st P) json :=
  λ s, let s' := set_env (w_request (Request url params) (env s)) s in
       match api_result O (length (requests (env s))) with
       | Returns data => (Ok data, s')
       | Raises e => (Raise e, s')
       end.

(** [datetime.now(timezone.utc).isoformat()]. *)
Definition utc_now_iso : Py (st P) string :=
  λ s, (Ok (utc_now O (clock_reads (env s))), set_env (w_tick (env s)) s).

(** [self.channel.append_rows(rs, start_offset_token=a, end_offset_token=b)]. *)
Definition append_rows (rs : list envelope) (a b : string) : Py (st P) unit :=
  λ s, let ok := append_ok O (length (appended (env s))) in
       let s' := set_env (w_append (AppendCall rs a b ok) (env s)) s in
       if ok then (Ok tt, s') else (Raise IngestError, s').

(** [rows.append(e)]. *)
Definition rows_append (e : envelope) : Py (st P) unit :=
  modify (λ s, set_rows (rows s ++ [e]) s).

(** [data.get(k, dflt)]: only a dict has [get]. *)
Definition py_get (data : json) (k : string) (dflt : json) : Py (st P) json :=
  match data with
  | JObj d => ret (default dflt (dict_get d k))
  | _ => raise AttributeError
  end.

(** What [for x in v] iterates over: the items of a list, the keys of a
    dict, the characters of a string; anything else is not iterable. *)
Definition py_iter (v : json) : Py (st P) (list json) :=
  match v with
  | JArr l => ret l
  | JObj d => ret (map (λ kv, JStr (fst kv)) d)
  | JStr s => ret (map (λ c, JStr (String c "")) (String.list_ascii_of_string s))
  | _ => raise TypeError
  end.

(** [obj[k] = v] with a string [k]: only a dict accepts it. *)
Definition py_setitem (obj : json) (k : string) (v : json) : Py (st P) json :=
  match obj with
  | JObj d => ret (JObj (dict_set d k v))
  | _ => raise TypeError
  end.

(** [for ticker in ts: if shutdown_event.is_set(): break; body(ticker)]. *)
Fixpoint for_tickers (ts : list string) (body : string → Py (st P) unit)
  : Py (st P) unit :=
  match ts with
  | [] => ret tt
  | t :: ts' =>
      (stop <- is_set ;;
       if stop : bool then ret tt else (body t ;;; for_tickers ts' body))%py
  end.
End Effects.

(** ** What the three poller classes share *)

(** The attributes [offset] and [total_ingested], which every poller has. *)
Class PollerFields (P : Type) : Type := {
  offset : P → nat;
  total_ingested : P → nat;
  with_offset : nat → P → P;
  with_total_ingested : nat → P → P;
  offset_with_offset n p : offset (with_offset n p) = n;
  offset_with_total n p : offset (with_total_ingested n p) = offset p;
  total_with_total n p : total_ingested (with_total_ingested n p) = n;
  total_with_offset n p : total_ingested (with_offset n p) = total_ingested p
}.

Section Ingest.
Context (O : oracle) `{PollerFields P}.

(** The block [if rows: try: ... except Exception as e: log.error(...)],
    which the three classes repeat word for word but for the log text;
    [after] is what follows [self.total_ingested += len(rows)] inside the
    [try] (the historical poller sets [self.loaded] there). *)
Definition ingest_rows (after : Py (st P) unit) : Py (st P) unit :=
  (rs <- gets rows ;;
   match rs with
   | [] => ret tt
   | _ :: _ =>
       try_except
         (modify (λ s, set_self
                    (with_offset (offset (self s) + length rs) (self s)) s) ;;;
          off <- gets (λ s, offset (self s)) ;;
          append_rows O rs (py_str (off - length rs)) (py_str off) ;;;
          modify (λ s, set_self
                    (with_total_ingested
                       (total_ingested (self s) + length rs) (self s)) s) ;;;
          after)
         (λ _, log)
   end)%py.
End Ingest.

(** ** HistoricalAggPoller *)

Module HistoricalAggPoller.
Record t : Type := Build {
  total_ingested : nat;
  offset : nat;
  loaded : bool
}.

#[global] Instance fields : PollerFields t.
Proof.
  refine (Build_PollerFields t offset total_ingested
            (λ n p, Build (total_ingested p) n (loaded p))
            (λ n p, Build n (offset p) (loaded p)) _ _ _ _); reflexivity.
Defined.

(** [__init__]. *)
Definition init : st t := St (Build 0 0 false) [] world0.

Section Code.
Context (O : oracle).

(** The body of [for ticker in TICKERS] after the shutdown test. *)
Definition fetch_ticker (ticker : string) : Py (st t) unit :=
  try_except
    (data <- api_get O
               (POLYGON_REST_URL ++ "/v2/aggs/ticker/" ++ ticker
                  ++ "/range/1/day/" ++ thirty_days_ago O ++ "/" ++ today O)
               [("adjusted", JStr "true")] ;;
     results <- py_get data "results" (JArr []) ;;
     bars <- py_iter results ;;
     for_each bars (λ bar,
       bar' <- py_setitem bar "ticker" (JStr ticker) ;;
       now <- utc_now_iso O ;;
       rows_append
         (Envelope bar'
            (Metadata now "polygon_rest_daily_bars" (Some ticker)))))%py
    (λ _, log).

Definition fetch_and_ingest : Py (st t) unit :=
  (is_loaded <- gets (λ s, loaded (self s)) ;;
   if is_loaded : bool then ret tt
   else
     (modify (set_rows []) ;;;
      for_tickers O TICKERS fetch_ticker ;;;
      ingest_rows O
        (modify (λ s, set_self
                   (Build (total_ingested (self s)) (offset (self s)) true)
                   s) ;;;
         log)))%py.

(** [while not shutdown_event.is_set(): shutdown_event.wait(3600)],
    at most [fuel] rounds of it. *)
Fixpoint idle (fuel : nat) : Py (st t) unit :=
  match fuel with
  | 0 => ret tt
  | S fuel' =>
      (stop <- is_set O ;; if stop : bool then ret tt else idle fuel')%py
  end.

Definition run (fuel : nat) : Py (st t) unit :=
  (fetch_and_ingest ;;; idle fuel)%py.
End Code.
End HistoricalAggPoller.

(** ** AggregatePoller *)

Module AggregatePoller.
Record t : Type := Build {
  total_ingested : nat;
  offset : nat
}.

#[global] Instance fields : PollerFields t.
Proof.
  refine (Build_PollerFields t offset total_ingested
            (λ n p, Build (total_ingested p) n)
            (λ n p, Build n (offset p)) _ _ _ _); reflexivity.
Defined.

Definition init : st t := St (Build 0 0) [] world0.

Section Code.
Context (O : oracle).

Definition fetch_ticker (ticker : string) : Py (st t) unit :=
  try_except
    (data <- api_get O
               (POLYGON_REST_URL ++ "/v2/aggs/ticker/" ++ ticker ++ "/prev")
               [("adjusted", JStr "true")] ;;
     results <- py_get data "results" (JArr []) ;;
     items <- py_iter results ;;
     for_each items (λ result,
       result' <- py_setitem result "ticker" (JStr ticker) ;;
       now <- utc_now_iso O ;;
       rows_append
         (Envelope result'
            (Metadata now "polygon_rest_aggs" (Some ticker)))))%py
    (λ _, log).

Definition fetch_and_ingest : Py (st t) unit :=
  (modify (set_rows []) ;;;
   for_tickers O TICKERS fetch_ticker ;;;
   ingest_rows O log)%py.

(** [while not shutdown_event.is_set(): self.fetch_and_ingest();
    shutdown_event.wait(AGG_POLL_INTERVAL)], at most [fuel] rounds. *)
Fixpoint run (fuel : nat) : Py (st t) unit :=
  match fuel with
  | 0 => ret tt
  | S fuel' =>
      (stop <- is_set O ;;
       if stop : bool then ret tt else (fetch_and_ingest ;;; run fuel'))%py
  end.
End Code.
End AggregatePoller.

(** ** NewsPoller *)

Module NewsPoller.
Record t : Type := Build {
  total_ingested : nat;
  seen_ids : gset pykey;
  offset : nat
}.

#[global] Instance fields : PollerFields t.
Proof.
  refine (Build_PollerFields t offset total_ingested
            (λ n p, Build (total_ingested p) (seen_ids p) n)
            (λ n p, Build n (seen_ids p) (offset p)) _ _ _ _); reflexivity.
Defined.

Definition with_seen_ids (ids : gset pykey) (p : t) : t :=
  Build (total_ingested p) ids (offset p).

Definition init : st t := St (Build 0 ∅ 0) [] world0.

Section Code.
Context (O : oracle).

(** The body of [for article in data.get("results", [])]. *)
Definition see_article (article : json) : Py (st t) unit :=
  (article_id <- py_get article "id" JNull ;;
   if py_truthy article_id then
     match py_key article_id with
     | None => raise TypeError   (* unhashable: [in] cannot hash it *)
     | Some k =>
         seen <- gets (λ s, seen_ids (self s)) ;;
         if decide (k ∈ seen) then ret tt
         else
           (modify (λ s, set_self (with_seen_ids ({[k]} ∪ seen) (self s)) s) ;;;
            now <- utc_now_iso O ;;
            rows_append
              (Envelope article (Metadata now "polygon_rest_news" None)))
     end
   else ret tt)%py.

(** [if len(self.seen_ids) > 5000:
       self.seen_ids = set(list(self.seen_ids)[-2500:])]. *)
Definition trim_seen_ids : Py (st t) unit :=
  (seen <- gets (λ s, seen_ids (self s)) ;;
   if decide (SEEN_CAP < size seen)%nat then
     modify (λ s, set_env (w_trim (env s))
                    (set_self
                       (with_seen_ids
                          (list_to_set
                             (py_last_n SEEN_KEEP
                                (set_order O (trims (env s)) seen)))
                          (self s)) s))
   else ret tt)%py.

Definition fetch_and_ingest : Py (st t) unit :=
  (modify (set_rows []) ;;;
   try_except
     (data <- api_get O
                (POLYGON_REST_URL ++ "/v2/reference/news")
                [("ticker", JStr (String.concat "," TICKERS));
                 ("limit", JInt 50);
                 ("sort", JStr "published_utc");
                 ("order", JStr "desc")] ;;
      results <- py_get data "results" (JArr []) ;;
      articles <- py_iter results ;;
      for_each articles see_article ;;;
      trim_seen_ids)
     (λ _, log) ;;;
   ingest_rows O log)%py.

Fixpoint run (fuel : nat) : Py (st t) unit :=
  match fuel with
  | 0 => ret tt
  | S fuel' =>
      (stop <- is_set O ;;
       if stop : bool then ret tt else (fetch_and_ingest ;;; run fuel'))%py
  end.
End Code.
End NewsPoller.

(** ** Notions the theorems are stated with *)

(** [inv I m]: [m] keeps [I], whether it returns or raises. *)
Definition inv {S A} (I : S → Prop) (m : Py S A) : Prop :=
  ∀ s, I s → I (m s).2.

(** [total m]: [m] returns, it never raises. *)
Definition total {S A} (m : Py S A) : Prop :=
  ∀ s, ∃ a, (m s).1 = Ok a.

(** The sizes of the batches of a list of append calls, added up. *)
Definition batch_total (tr : list append_call) : nat :=
  sum_list_with (λ c, length (ac_rows c)) tr.

(** The append calls that returned. *)
Definition successful (tr : list append_call) : list append_call :=
  filter (λ c, ac_ok c = true) tr.

(** The offset windows of the calls of [tr] when the first starts at
    [base]: each call ends where the next one starts. *)
Fixpoint windows_from (base : nat) (tr : list append_call) : Prop :=
  match tr with
  | [] => True
  | c :: tr' =>
      start_offset_token c = py_str base ∧
      end_offset_token c = py_str (base + length (ac_rows c)) ∧
      windows_from (base + length (ac_rows c)) tr'
  end.

(** What a poller keeps between cycles: [offset] counts the rows of every
    append call made, [total_ingested] those of the calls that returned. *)
Definition offsets_track {P} `{PollerFields P} (s : st P) : Prop :=
  offset (self s) = batch_total (appended (env s)) ∧
  total_ingested (self s) = batch_total (successful (appended (env s))) ∧
  windows_from 0 (appended (env s)).


(** A response with one bar. *)
Definition one_bar : json := JObj [("results", JArr [JObj [("c", JInt 100)]])].

(** An oracle that answers every request with one bar, never sets the
    shutdown event, and lets the append calls listed in [fails] raise. *)
Definition steady_oracle (fails : list nat) : oracle :=
  Oracle (λ _, Returns one_bar)
         (λ _, false)
         (λ n, bool_decide (n ∉ fails))
         (λ n, "2026-01-31T00:00:" ++ pretty n)
         "2026-01-31" "2026-01-01"
         (λ _, elements).


(** ** The per-ticker cycle, in the words of the specification *)

(** What the two per-ticker pollers do for one ticker: they differ in the
    URL and in the source tag only. *)
Definition fetch_ticker_with {P} (O : oracle) (url : string → string)
    (src : string) (ticker : string) : Py (st P) unit :=
  try_except
    (data <- api_get O (url ticker) [("adjusted", JStr "true")] ;;
     results <- py_get data "results" (JArr []) ;;
     items <- py_iter results ;;
     for_each items (λ item,
       item' <- py_setitem item "ticker" (JStr ticker) ;;
       now <- utc_now_iso O ;;
       rows_append (Envelope item' (Metadata now src (Some ticker)))))%py
    (λ _, log).

Definition hist_url (O : oracle) (ticker : string) : string :=
  POLYGON_REST_URL ++ "/v2/aggs/ticker/" ++ ticker
    ++ "/range/1/day/" ++ thirty_days_ago O ++ "/" ++ today O.

Definition agg_url (ticker : string) : string :=
  POLYGON_REST_URL ++ "/v2/aggs/ticker/" ++ ticker ++ "/prev".

(** The records of a response that keeps to the contract of the upstream
    API: a JSON object whose "results", when present, is an array of
    objects. *)
Definition as_record (item : json) : option (list (string * json)) :=
  match item with
  | JObj r => Some r
  | _ => None
  end.

Definition records_of (data : json) : option (list (list (string * json))) :=
  match data with
  | JObj d =>
      match default (JArr []) (dict_get d "results") with
      | JArr items => mapM as_record items
      | _ => None
      end
  | _ => None
  end.

Definition well_formed_response (out : fetch_outcome) : bool :=
  match out with
  | Returns data => bool_decide (is_Some (records_of data))
  | Raises _ => true
  end.

(** The [k] answers from call number [call] on keep to the contract. *)
Fixpoint responses_well_formed (O : oracle) (call k : nat) : bool :=
  match k with
  | 0 => true
  | S k' =>
      well_formed_response (api_result O call)
      && responses_well_formed O (S call) k'
  end.

(** The tickers a cycle gets to fetch when its first shutdown test is test
    number [check]: those before the first test that finds the event set. *)
Fixpoint fetched (O : oracle) (check : nat) (ts : list string) : list string :=
  match ts with
  | [] => []
  | t :: ts' =>
      if shutdown_is_set O check then [] else t :: fetched O (S check) ts'
  end.

(** The envelopes of the records of one ticker: each record tagged with the
    ticker, stamped with the time it was wrapped. *)
Definition envelopes_of (O : oracle) (src ticker : string) (clock : nat)
    (recs : list (list (string * json))) : list envelope :=
  imap (λ i r, Envelope (JObj (dict_set r "ticker" (JStr ticker)))
                 (Metadata (utc_now O (clock + i)) src (Some ticker))) recs.

(** "Exactly the successful tickers' records, in the order fetched": ticker
    by ticker, the records of a fetch that returned, nothing for a fetch
    that raised.  [call] numbers the api_get calls, [clock] the timestamps. *)
Fixpoint successful_records (O : oracle) (src : string) (ts : list string)
    (call clock : nat) : list envelope :=
  match ts with
  | [] => []
  | t :: ts' =>
      match api_result O call with
      | Returns data =>
          let recs := default [] (records_of data) in
          envelopes_of O src t clock recs
            ++ successful_records O src ts' (S call) (clock + length recs)
      | Raises _ => successful_records O src ts' (S call) clock
      end
  end.

(** An oracle whose [bad]-th request fails with an HTTP error while every
    other one returns one bar, and whose appends all return. *)
Definition one_failure_oracle (bad : nat) : oracle :=
  Oracle (λ n, if decide (n = bad) then Raises RequestException
               else Returns one_bar)
         (λ _, false)
         (λ _, true)
         (λ n, "2026-01-31T00:00:" ++ pretty n)
         "2026-01-31" "2026-01-01"
         (λ _, elements).

(** An oracle like [steady_oracle []] whose shutdown event is found set
    from test number [at_check] on. *)
Definition shutdown_oracle (at_check : nat) : oracle :=
  Oracle (λ _, Returns one_bar)
         (λ n, bool_decide (at_check ≤ n)%nat)
         (λ _, true)
         (λ n, "2026-01-31T00:00:" ++ pretty n)
         "2026-01-31" "2026-01-01"
         (λ _, elements).

(** The cycle that leads from [s] to [s'] passed [batch], and nothing else,
    to [append_rows]: no call for an empty batch, otherwise one call with
    the window that starts at the offset the cycle found. *)
Definition cycle_passes {P} `{PollerFields P} (O : oracle) (s s' : st P)
    (batch : list envelope) : Prop :=
  match batch with
  | [] => appended (env s') = appended (env s)
  | _ :: _ =>
      appended (env s')
      = (appended (env s)
           ++ [AppendCall batch
                 (py_str (offset (self s)))
                 (py_str (offset (self s) + length batch))
                 (append_ok O (length (appended (env s))))])%list
  end.

(** The request of a per-ticker poller for one ticker. *)
Definition ticker_request (url : string → string) (t : string) : request :=
  Request (url t) [("adjusted", JStr "true")].

(** What may follow [self.total_ingested += len(rows)]: a change of the
    poller object that touches neither its [offset], nor [rows], nor the
    world. *)
Definition quiet {P} `{PollerFields P} (after : Py (st P) unit) : Prop :=
  ∀ s, env (after s).2 = env s ∧ rows (after s).2 = rows s
       ∧ offset (self (after s).2) = offset (self s).

(** What follows it in the historical poller: [self.loaded = True] and a
    log line. *)
Definition hist_after : Py (st HistoricalAggPoller.t) unit :=
  (modify (λ s, set_self
             (HistoricalAggPoller.Build
                (HistoricalAggPoller.total_ingested (self s))
                (HistoricalAggPoller.offset (self s)) true) s) ;;; log)%py.

(** ** The end-to-end scenario *)

(** A fetch that returned a response with exactly one result. *)
Definition single_result (out : fetch_outcome) : Prop :=
  ∃ d r, out = Returns (JObj d)
         ∧ dict_get d "results" = Some (JArr [JObj r]).

Definition failed (out : fetch_outcome) : Prop := ∃ e, out = Raises e.

(** An envelope tagged with the source [src] and with its ticker, in the
    metadata and in the content. *)
Definition tagged (src : string) (e : envelope) : Prop :=
  source (RECORD_METADATA e) = src ∧
  ∃ t d, ticker (RECORD_METADATA e) = Some t
         ∧ RECORD_CONTENT e = JObj d
         ∧ dict_get d "ticker" = Some (JStr t).

(** The ticker an envelope carries in its metadata. *)
Definition ticker_of (e : envelope) : option string :=
  ticker (RECORD_METADATA e).

(** ** The news poller's deduplication *)

(** [article.get("id")]. *)
Definition article_id (article : json) : json :=
  match article with
  | JObj d => default JNull (dict_get d "id")
  | _ => JNull
  end.

(** The element of [seen_ids] an article is known by ([KNone] when its id
    is absent or cannot be hashed). *)
Definition article_key (article : json) : pykey :=
  default KNone (py_key (article_id article)).

Definition batch_keys (rs : list envelope) : list pykey :=
  (λ e, article_key (RECORD_CONTENT e)) <$> rs.

(** The identifiers of all articles passed to [append_rows], call by call. *)
Definition delivered_keys (tr : list append_call) : list pykey :=
  tr ≫= (λ c, batch_keys (ac_rows c)).

(** [list(s)] lists the elements of [s], each once, in some order. *)
Definition set_order_sound (O : oracle) : Prop :=
  ∀ n s, set_order O n s ≡ₚ elements s.

(** What the news poller keeps, seen from a point of its life at which it
    had made [n0] append calls and [t0] trims and had seen the identifiers
    [B]: as long as no further trim happens, the identifiers passed to
    [append_rows] since then (with those of [rows], inside a cycle) are
    pairwise distinct, are all in [seen_ids], and none of them is in [B],
    while [seen_ids] still holds [B]. *)
Definition news_inv (n0 t0 : nat) (B : gset pykey) (in_cycle : bool)
    (s : st NewsPoller.t) : Prop :=
  (t0 ≤ trims (env s))%nat ∧
  (n0 ≤ length (appended (env s)))%nat ∧
  (trims (env s) = t0 →
   let ks := (delivered_keys (drop n0 (appended (env s)))
                ++ (if in_cycle then batch_keys (rows s) else []))%list in
   NoDup ks ∧
   (∀ k, k ∈ ks → k ∈ NewsPoller.seen_ids (self s) ∧ k ∉ B) ∧
   B ⊆ NewsPoller.seen_ids (self s)).

(** What holds of the news poller whatever the trims: the articles in
    [rows] and in the batches passed on have an id that is true, and no
    element of [seen_ids] is the key of a false value. *)
Definition truthy_inv (s : st NewsPoller.t) : Prop :=
  Forall (λ e, py_truthy (article_id (RECORD_CONTENT e)) = true) (rows s) ∧
  Forall (λ c, Forall (λ e, py_truthy (article_id (RECORD_CONTENT e)) = true)
                 (ac_rows c)) (appended (env s)) ∧
  (∀ v k, py_truthy v = false → py_key v = Some k →
          k ∉ NewsPoller.seen_ids (self s)).

(** ** Sample news *)

Definition article (id : json) : json :=
  JObj [("id", id); ("title", JStr "headline")].

Definition news_response (ids : list json) : json :=
  JObj [("results", JArr (article <$> ids))].

(** An oracle for the news poller: the first request returns the articles
    [first], every later one the articles [later]; the append calls listed
    in [fails] raise. *)
Definition news_oracle (first later : list json) (fails : list nat) : oracle :=
  Oracle (λ n, Returns (news_response (if decide (n = 0) then first else later)))
         (λ _, false)
         (λ n, bool_decide (n ∉ fails))
         (λ n, "2026-01-31T00:00:" ++ pretty n)
         "2026-01-31" "2026-01-01"
         (λ _, elements).

(** The scenario of the specification: a1 and a2 are seen in the first
    cycle, the second response is [a1, a2, a1, a3]. *)
Definition dedup_oracle : oracle :=
  news_oracle [JStr "a1"; JStr "a2"]
              [JStr "a1"; JStr "a2"; JStr "a1"; JStr "a3"] [].

(** Two articles whose append fails in the first cycle. *)
Definition lost_batch_oracle : oracle :=
  news_oracle [JStr "a1"; JStr "a2"] [JStr "a1"; JStr "a2"; JStr "a3"] [0].

Definition lost_batch_call : append_call :=
  Eval vm_compute in
    default (AppendCall [] "" "" true)
      (head (appended (env (NewsPoller.fetch_and_ingest lost_batch_oracle
                              NewsPoller.init).2))).

(** Articles without a usable id among two proper ones. *)
Definition falsy_oracle : oracle :=
  news_oracle [JStr "a1"; JStr ""; JNull; JInt 0; JBool false; JStr "a2"]
              [JStr ""; JStr "a3"] [].

(** ** The trim of [seen_ids], on integers *)

(** Integers by value, before everything else. *)
Definition key_leb (a b : pykey) : bool :=
  match a, b with
  | KInt x, KInt y => (x <=? y)%Z
  | KInt _, _ => true
  | _, KInt _ => false
  | _, _ => true
  end.

Definition key_le (a b : pykey) : Prop := key_leb a b = true.

#[global] Instance key_le_dec : RelDecision key_le.
Proof. intros a b. unfold key_le. apply _. Defined.

(** CPython iterates a set of small non-negative ints in ascending order
    (the hash of such an int is the int itself, and every int below the
    table size sits in the slot of its own number). *)
Definition ascending (s : gset pykey) : list pykey :=
  merge_sort key_le (elements s).

(** A hundred cycles with 50 new articles each (ids 1001 to 6000), then
    two cycles that both return the same 50 latest articles (ids 1 to
    50). *)
Definition churn_zs (n : nat) : list Z :=
  if decide (n < 100)%nat
  then seqZ (1001 + 50 * Z.of_nat n) 50
  else seqZ 1 50.

Definition churn_ids (n : nat) : list json := JInt <$> churn_zs n.

Definition churn_oracle : oracle :=
  Oracle (λ n, Returns (news_response (churn_ids n)))
         (λ _, false)
         (λ _, true)
         (λ n, "2026-01-31T00:00:" ++ pretty n)
         "2026-01-31" "2026-01-01"
         (λ _, ascending).

(** A response that breaks the contract of the API in its second item. *)
Definition broken_response : json :=
  JObj [("results",
         JArr [JObj [("c", JInt 1)]; JStr "oops"; JObj [("c", JInt 2)]])].

Definition broken_oracle : oracle :=
  Oracle (λ _, Returns broken_response)
         (λ _, false)
         (λ _, true)
         (λ n, "2026-01-31T00:00:" ++ pretty n)
         "2026-01-31" "2026-01-01"
         (λ _, elements).

(** The set of the integer identifiers [zs], and of those from [a] to
    [a + n - 1]. *)
Definition int_keys (zs : list Z) : gset pykey := list_to_set (KInt <$> zs).

Definition int_range (a n : Z) : gset pykey := int_keys (seqZ a n).

(** The envelopes of the articles with the integer identifiers [zs], all
    new to the poller. *)
Definition fresh_envelopes (O : oracle) (clock : nat) (zs : list Z)
    : list envelope :=
  imap (λ i z, Envelope (article (JInt z))
                 (Metadata (utc_now O (clock + i)) "polygon_rest_news" None))
       zs.

(** ** What a poller keeps over its whole life *)

(** The rows gathered so far and every batch passed to [append_rows]
    hold envelopes for which [Q] holds, and no batch is empty. *)
Definition batches_hold {P} (Q : envelope → Prop) (s : st P) : Prop :=
  Forall Q (rows s) ∧
  Forall (λ c, ac_rows c ≠ [] ∧ Forall Q (ac_rows c)) (appended (env s)).

(** The append calls that raised. *)
Definition unsuccessful (tr : list append_call) : list append_call :=
  filter (λ c, ac_ok c = false) tr.

(** How the two counters of a poller relate: [offset] runs ahead of
    [total_ingested] by the rows of the append calls that raised, so the
    two agree exactly when no call has raised. *)
Definition counters_account {P} `{PollerFields P} (s : st P) : Prop :=
  let tr := appended (env s) in
  total_ingested (self s) + batch_total (unsuccessful tr) = offset (self s) ∧
  (total_ingested (self s) = offset (self s) ↔ Forall (λ c, ac_ok c = true) tr).

(** An envelope of a per-ticker poller: tagged with the source and with
    one of the configured tickers. *)
Definition ticker_envelope (src : string) (e : envelope) : Prop :=
  tagged src e ∧ ∃ t, ticker_of e = Some t ∧ t ∈ TICKERS.

(** An envelope of the news poller: the source tag, no ticker, and as
    content a dict whose id can be hashed. *)
Definition news_envelope (e : envelope) : Prop :=
  source (RECORD_METADATA e) = "polygon_rest_news" ∧
  ticker (RECORD_METADATA e) = None ∧
  ∃ d k, RECORD_CONTENT e = JObj d ∧ py_key (article_id (JObj d)) = Some k.

(** The requests made so far are no more than the shutdown tests made,
    and no more than [c]. *)
Definition requests_bounded {P} (c : nat) (s : st P) : Prop :=
  (length (requests (env s)) ≤ checks (env s))%nat ∧
  (length (requests (env s)) ≤ c)%nat.

(** The one request of the news poller. *)
Definition news_request : request :=
  Request (POLYGON_REST_URL ++ "/v2/reference/news")
    [("ticker", JStr (String.concat "," TICKERS));
     ("limit", JInt 50);
     ("sort", JStr "published_utc");
     ("order", JStr "desc")].

(** The offset tokens of a list of append calls never repeat: no two
    calls start at the same token, no two end at the same token, and no
    call ends where it starts. *)
Definition tokens_never_repeat (tr : list append_call) : Prop :=
  NoDup (start_offset_token <$> tr) ∧
  NoDup (end_offset_token <$> tr) ∧
  Forall (λ c, start_offset_token c ≠ end_offset_token c) tr.

(** ** One cycle of the news poller, seen from outside *)

(** What the loop [for article in data.get("results", [])] runs over, when
    it is reached: the fetch returned a dict whose "results" (a list, by
    the contract of the API) can be iterated. *)
Definition iterated (out : fetch_outcome) : option (list json) :=
  match out with
  | Returns (JObj d) =>
      match default (JArr []) (dict_get d "results") with
      | JArr l => Some l
      | JObj d' => Some (map (λ kv, JStr (fst kv)) d')
      | JStr s =>
          Some (map (λ c, JStr (String c "")) (String.list_ascii_of_string s))
      | _ => None
      end
  | _ => None
  end.

Definition response_articles (out : fetch_outcome) : list json :=
  default [] (iterated out).

(** An article the loop gets past: a dict whose id is false or can be
    hashed. *)
Definition usable_article (a : json) : Prop :=
  match a with
  | JObj _ => py_truthy (article_id a) = true → is_Some (py_key (article_id a))
  | _ => False
  end.

(** An article the loop raises on: not a dict ([article.get] fails), or a
    dict whose id is true and cannot be hashed ([in] fails). *)
Definition unusable_article (a : json) : Prop :=
  match a with
  | JObj _ => py_truthy (article_id a) = true ∧ py_key (article_id a) = None
  | _ => True
  end.

(** The rows passed to [append_rows] on the way from [s] to [s']. *)
Definition delivered_since {P} (s s' : st P) : list envelope :=
  drop (length (appended (env s))) (appended (env s')) ≫= ac_rows.

(** The state in which the loop over the articles starts: [rows] is
    empty and the request is on record. *)
Definition news_loop_start (s : st NewsPoller.t) : st NewsPoller.t :=
  set_env (w_request news_request (env s)) (set_rows [] s).

(** What the loop over the articles [l] has done when it leaves the state
    [s0] with the outcome [r]: it has added the envelopes [new] to [rows],
    drawn in order from [l]; their identifiers are pairwise distinct, were
    not in [seen_ids] and are now; nothing else has changed.  When every
    article of [l] is usable, the loop returns and [new] holds every
    article of [l] whose id is true and was not in [seen_ids]. *)
Definition news_loop_adds (l : list json) (s0 : st NewsPoller.t)
    (r : result unit * st NewsPoller.t) (new : list envelope) : Prop :=
  rows r.2 = (rows s0 ++ new)%list ∧
  sublist (RECORD_CONTENT <$> new) l ∧
  requests (env r.2) = requests (env s0) ∧
  appended (env r.2) = appended (env s0) ∧
  trims (env r.2) = trims (env s0) ∧
  NewsPoller.offset (self r.2) = NewsPoller.offset (self s0) ∧
  NewsPoller.total_ingested (self r.2)
  = NewsPoller.total_ingested (self s0) ∧
  NewsPoller.seen_ids (self r.2)
  = list_to_set (batch_keys new) ∪ NewsPoller.seen_ids (self s0) ∧
  NoDup (batch_keys new) ∧
  (∀ k, k ∈ batch_keys new →
     (k ∉ NewsPoller.seen_ids (self s0)) ∧
     (∃ a, a ∈ l ∧ py_truthy (article_id a) = true
           ∧ py_key (article_id a) = Some k)) ∧
  (Forall usable_article l →
     r.1 = Ok tt ∧
     ∀ a k, a ∈ l → py_truthy (article_id a) = true →
            py_key (article_id a) = Some k →
            k ∉ NewsPoller.seen_ids (self s0) → k ∈ batch_keys new).

(** The state in which the [try] block of a cycle of the news poller
    ends: the loop and the trim have run, or an exception has cut the block
    short (a failed fetch, a response that is no dict, "results" that
    cannot be iterated, an article the loop raises on). *)
Definition news_after_loop (O : oracle) (s : st NewsPoller.t)
    : st NewsPoller.t :=
  let s0 := news_loop_start s in
  match iterated (api_result O (length (requests (env s)))) with
  | Some l =>
      let r := for_each l (NewsPoller.see_article O) s0 in
      match r.1 with
      | Ok _ => (NewsPoller.trim_seen_ids O r.2).2
      | Raise _ => r.2
      end
  | None => s0
  end.

(** Every response the oracle holds keeps the loop of the news poller
    going: what it runs over are usable articles. *)
Definition responses_usable (O : oracle) : Prop :=
  ∀ n, Forall usable_article (response_articles (api_result O n)).

(** A response of the news API whose second item is no article. *)
Definition broken_news_oracle : oracle :=
  Oracle (λ _, Returns (JObj [("results",
                               JArr [article (JStr "a1"); JStr "oops";
                                     article (JStr "a2")])]))
         (λ _, false)
         (λ _, true)
         (λ n, "2026-01-31T00:00:" ++ pretty n)
         "2026-01-31" "2026-01-01"
         (λ _, elements).

(** ** [api_get], from the inside *)

(** The pollers above see [api_get] as a request and an answer.  Here is
    the function itself, as one thread runs it (the lock [api_lock] makes
    the calls of the three threads take turns): the throttle on the global
    [last_api_call], the API key, the request, and the three places an
    exception can come from.  Times are Python floats, that is binary64
    numbers; [time.sleep] gets a positive argument ([elapsed < 12]) and is
    taken to return. *)
Module Throttle.

(** What [requests.get] and the response do in one call. *)
Inductive reply : Type :=
  | NoReply (e : exn)       (* requests.get raised: no connection, a timeout *)
  | Reply (status_ok : bool) (body : option json).
                            (* whether raise_for_status returns, and what
                               resp.json() returns, if it does *)

(** The clock and the network, call by call: a call reads the clock on
    entry and once more after the reply, if there is one. *)
Record net : Type := Net {
  time_before : nat → float;
  time_after : nat → float;
  http : nat → reply
}.

Record limiter : Type := Limiter {
  last_api_call : float;     (* the global of that name *)
  calls : nat;               (* how many calls of api_get have begun *)
  sleeps : list float;       (* the arguments of time.sleep, oldest first *)
  sent : list request        (* the calls of requests.get, oldest first *)
}.

(** [last_api_call = 0], and nothing has happened. *)
Definition limiter0 : limiter := Limiter 0 0 [] [].

Definition API_CALL_DELAY : float := 12.

Section Code.
Context (N : net) (POLYGON_API_KEY : option string).

(** [os.getenv] gives a string, or [None]. *)
Definition api_key : json :=
  match POLYGON_API_KEY with
  | Some k => JStr k
  | None => JNull
  end.

Definition sleep (d : float) : Py limiter unit :=
  modify (λ l, Limiter (last_api_call l) (calls l) (sleeps l ++ [d]) (sent l)).

Definition requests_get (n : nat) (url : string)
    (params : list (string * json)) : Py limiter (bool * option json) :=
  λ l, let l' := Limiter (last_api_call l) (calls l) (sleeps l)
                   (sent l ++ [Request url params]) in
       match http N n with
       | NoReply e => (Raise e, l')
       | Reply status_ok body => (Ok (status_ok, body), l')
       end.

Definition raise_for_status (resp : bool * option json) : Py limiter unit :=
  if fst resp then ret tt else raise RequestException.

Definition resp_json (resp : bool * option json) : Py limiter json :=
  match snd resp with
  | Some data => ret data
  | None => raise JSONDecodeError
  end.

Definition api_get (url : string) (params : list (string * json))
  : Py limiter json :=
  (n <- gets calls ;;
   modify (λ l, Limiter (last_api_call l) (S n) (sleeps l) (sent l)) ;;;
   last <- gets last_api_call ;;
   let elapsed := PrimFloat.sub (time_before N n) last in
   (if PrimFloat.ltb elapsed API_CALL_DELAY
    then sleep (PrimFloat.sub API_CALL_DELAY elapsed)
    else ret tt) ;;;
   let params' := dict_set params "apiKey" api_key in
   resp <- requests_get n url params' ;;
   modify (λ l, Limiter (time_after N n) (calls l) (sleeps l) (sent l)) ;;;
   raise_for_status resp ;;;
   resp_json resp)%py.

(** The states of the limiter that calls of [api_get] lead to, whether
    they return or raise. *)
Inductive reachable : limiter → Prop :=
  | reachable_start : reachable limiter0
  | reachable_call l url params :
      reachable l → reachable (api_get url params l).2.
End Code.

(** What a call answers, as the pollers see it. *)
Definition outcome_of (r : reply) : fetch_outcome :=
  match r with
  | NoReply e => Raises e
  | Reply false _ => Raises RequestException
  | Reply true None => Raises JSONDecodeError
  | Reply true (Some data) => Returns data
  end.

(** The latest call before call [n] that got a reply, if any. *)
Fixpoint latest_reply (N : net) (n : nat) : option nat :=
  match n with
  | 0 => None
  | S m =>
      match http N m with
      | Reply _ _ => Some m
      | NoReply _ => latest_reply N m
      end
  end.

(** The time the throttle of call [n] measures from: the clock reading
    after the latest reply, or 0. *)
Definition measured_from (N : net) (n : nat) : float :=
  match latest_reply N n with
  | Some m => time_after N m
  | None => 0
  end.

(** The sleep of call [n], if it sleeps. *)
Definition nap (N : net) (n : nat) : option float :=
  let elapsed := PrimFloat.sub (time_before N n) (measured_from N n) in
  if PrimFloat.ltb elapsed API_CALL_DELAY
  then Some (PrimFloat.sub API_CALL_DELAY elapsed)
  else None.

(** A network whose second request times out: replies come 1 s after the
    request, the calls begin at 100 s, 105 s, 130 s and 135 s. *)
Definition flaky_net : net :=
  Net (λ n, match n with 0 => 100 | 1 => 105 | 2 => 130 | _ => 135 end%float)
      (λ n, match n with 0 => 101 | 1 => 121 | 2 => 131 | _ => 136 end%float)
      (λ n, match n with
            | 1 => NoReply RequestException
            | _ => Reply true (Some one_bar)
            end).
End Throttle.

(** ** [main], the constructors and [close] *)

(** What the main thread does, seen from outside: its calls to the
    Snowpipe SDK, the threads it starts, and what it does with the
    shutdown event.  What the three threads do meanwhile is the subject of
    the pollers above; here a thread is started and that is all. *)
Module Main.

Inductive action : Type :=
  | NewClient (client_name db_name schema_name pipe_name : string)
  | OpenChannel (client_name channel_name : string)
  | StartThread (name : string)
  | IsSet
  | Wait (seconds : nat)
  | SetEvent
  | CloseChannel (channel_name : string)
  | CloseClient (client_name : string).

(** An action of the trace, and whether it returned. *)
Record step : Type := Step {
  act : action;
  returned : bool
}.

Record sdk : Type := Sdk {
  failure : nat → option exn;   (* the exception of the n-th action, if any *)
  event_is_set : nat → bool     (* the n-th shutdown_event.is_set() of main *)
}.

Record proc : Type := Proc {
  trace : list step;   (* oldest first *)
  tests : nat          (* number of is_set() calls made *)
}.

Definition proc0 : proc := Proc [] 0.

(** A poller object, as far as [main] and [close] use it. *)
Record poller : Type := Poller {
  client : string;
  channel : string
}.

(** How [main] ends: it refuses to start, it runs to its last line, or it
    is still waiting for the shutdown event when the fuel runs out. *)
Inductive ending : Type := Refused | Stopped | Waiting.

Section Code.
Context (K : sdk) (POLYGON_API_KEY : option string).

(** A call that may raise: to the SDK, or [Thread.start]. *)
Definition call (a : action) : Py proc unit :=
  λ p, match failure K (length (trace p)) with
       | Some e => (Raise e, Proc (trace p ++ [Step a false]) (tests p))
       | None => (Ok tt, Proc (trace p ++ [Step a true]) (tests p))
       end.

(** A call on the shutdown event, which returns. *)
Definition note (a : action) : Py proc unit :=
  modify (λ p, Proc (trace p ++ [Step a true]) (tests p)).

Definition is_set : Py proc bool :=
  λ p, (Ok (event_is_set K (tests p)),
        Proc (trace p ++ [Step IsSet true]) (S (tests p))).

Definition create_streaming_client (client_name table_name : string)
  : Py proc unit :=
  call (NewClient client_name "SNOWPULSE_DB" "RAW"
          (table_name ++ "-STREAMING")).

(** The part of [__init__] the three classes share: the client, the
    channel, the counters (which [main] does not read), a log line. *)
Definition new_poller (client_name table_name channel_name : string)
  : Py proc poller :=
  (create_streaming_client client_name table_name ;;;
   call (OpenChannel client_name channel_name) ;;;
   log ;;;
   ret (Poller client_name channel_name))%py.

(** [close], the same in the three classes but for the log text. *)
Definition close (p : poller) : Py proc unit :=
  (call (CloseChannel (channel p)) ;;;
   call (CloseClient (client p)) ;;;
   log)%py.

(** [while not shutdown_event.is_set(): shutdown_event.wait(1)], at most
    [fuel] rounds of it; the answer tells whether the event was found
    set. *)
Fixpoint wait_for_shutdown (fuel : nat) : Py proc bool :=
  match fuel with
  | 0 => ret false
  | S fuel' =>
      (stop <- is_set ;;
       if stop : bool then ret true
       else (note (Wait 1) ;;; wait_for_shutdown fuel'))%py
  end.

(** [not POLYGON_API_KEY]. *)
Definition key_missing : bool :=
  negb (py_truthy (match POLYGON_API_KEY with
                   | Some k => JStr k
                   | None => JNull
                   end)).

(** [main].  The body of its [try] is the wait loop, which raises nothing
    (SIGINT goes to [signal_handler], so there is no [KeyboardInterrupt]);
    the [finally] block is therefore what follows the loop. *)
Definition main (fuel : nat) : Py proc ending :=
  if key_missing then (log ;;; log ;;; ret Refused)%py
  else
    (hist_poller <- new_poller "trades_client" "RAW_TRADES" "trades_channel" ;;
     agg_poller <- new_poller "agg_client" "RAW_AGGREGATES" "agg_channel" ;;
     news_poller <- new_poller "news_client" "RAW_NEWS" "news_channel" ;;
     call (StartThread "historical") ;;;
     call (StartThread "aggregates") ;;;
     call (StartThread "news") ;;;
     log ;;;
     stop <- wait_for_shutdown fuel ;;
     if stop : bool then
       (log ;;;
        note SetEvent ;;;
        close hist_poller ;;;
        close agg_poller ;;;
        close news_poller ;;;
        log ;;;
        ret Stopped)
     else ret Waiting)%py.
End Code.

(** The calls of [main] before the wait loop, and those of its [finally]
    block after [shutdown_event.set()]. *)
Definition startup : list action :=
  [NewClient "trades_client" "SNOWPULSE_DB" "RAW" "RAW_TRADES-STREAMING";
   OpenChannel "trades_client" "trades_channel";
   NewClient "agg_client" "SNOWPULSE_DB" "RAW" "RAW_AGGREGATES-STREAMING";
   OpenChannel "agg_client" "agg_channel";
   NewClient "news_client" "SNOWPULSE_DB" "RAW" "RAW_NEWS-STREAMING";
   OpenChannel "news_client" "news_channel";
   StartThread "historical";
   StartThread "aggregates";
   StartThread "news"].

Definition teardown : list action :=
  [CloseChannel "trades_channel"; CloseClient "trades_client";
   CloseChannel "agg_channel"; CloseClient "agg_client";
   CloseChannel "news_channel"; CloseClient "news_client"].

(** The steps of calls that all returned, and of calls the last of which
    raised. *)
Definition returned_all (acts : list action) : list step :=
  (λ a, Step a true) <$> acts.

Definition raised_at (k : nat) (acts : list action) : list step :=
  match acts !! k with
  | Some a => (returned_all (take k acts) ++ [Step a false])%list
  | None => returned_all acts
  end.

(** The steps of the wait loop. *)
Definition waiting (st : step) : Prop :=
  returned st = true ∧ (act st = IsSet ∨ act st = Wait 1).

(** The clients and channels a trace has opened and those it has
    closed: the calls that returned. *)
Definition opens (st : step) : option string :=
  match st with
  | Step (NewClient c _ _ _) true => Some c
  | Step (OpenChannel _ ch) true => Some ch
  | _ => None
  end.

Definition closes (st : step) : option string :=
  match st with
  | Step (CloseChannel ch) true => Some ch
  | Step (CloseClient c) true => Some c
  | _ => None
  end.

Definition opened (tr : list step) : list string := omap opens tr.
Definition closed (tr : list step) : list string := omap closes tr.

(** The ways a run of [main] with an API key can go. *)
Inductive course (r : result ending) (tr : list step) : Prop :=
  | startup_raises k e :
      (k < length startup)%nat → r = Raise e →
      tr = raised_at k startup → course r tr
  | still_waiting waits :
      Forall waiting waits → r = Ok Waiting →
      tr = (returned_all startup ++ waits)%list → course r tr
  | teardown_raises waits k e :
      Forall waiting waits → (k < length teardown)%nat → r = Raise e →
      tr = (returned_all startup ++ waits
              ++ Step SetEvent true :: raised_at k teardown)%list →
      course r tr
  | runs_to_the_end waits :
      Forall waiting waits → r = Ok Stopped →
      tr = (returned_all startup ++ waits
              ++ Step SetEvent true :: returned_all teardown)%list →
      course r tr.

(** An SDK that never fails, and an event that is found set at the third
    test. *)
Definition calm_sdk : sdk := Sdk (λ _, None) (λ n, bool_decide (2 ≤ n)%nat).

(** An SDK whose thirteenth action fails: the main thread has made nine
    calls at startup, one shutdown test that found the event set, and set
    the event, so this is the second call of the teardown, the close of
    the trades client. *)
Definition failing_close_sdk : sdk :=
  Sdk (λ n, if decide (n = 12) then Some IngestError else None) (λ _, true).
End Main.

(** ** From the clock to the channel *)

(** The timestamps of a list of envelopes. *)
Definition stamps (rs : list envelope) : list string :=
  (λ e, ingested_at (RECORD_METADATA e)) <$> rs.

(** Every timestamp taken so far is the timestamp of one row, in the order
    taken: of the rows passed to [append_rows], call after call, followed,
    inside a cycle, by those gathered in [rows]. *)
Definition rows_conserved {P} (O : oracle) (in_cycle : bool) (s : st P)
  : Prop :=
  stamps ((appended (env s) ≫= ac_rows)
            ++ (if in_cycle then rows s else []))%list
  = utc_now O <$> seq 0 (clock_reads (env s)).

(** The requests of the aggregate poller and of the news poller. *)
Definition agg_request (r : request) : Prop :=
  ∃ t, t ∈ TICKERS ∧ r = ticker_request agg_url t.

(** ** The offset windows and the failed calls *)


(** ** A request that is refused *)



(** * Reasoning about computations *)

Local Close Scope string_scope.
Set Warnings "-clear-no-such-hyp".

Section MonadLemmas.
Context {S : Type}.
Implicit Types I : S → Prop.

Lemma bind_ok {A B} (m : Py S A) (k : A → Py S B) s a s' :
  m s = (Ok a, s') → bind m k s = k a s'.
Proof. unfold bind. by intros ->. Qed.

Lemma bind_raise {A B} (m : Py S A) (k : A → Py S B) s e s' :
  m s = (Raise e, s') → bind m k s = (Raise e, s').
Proof. unfold bind. by intros ->. Qed.

Lemma try_log (body : Py S unit) s :
  try_except body (λ _, log) s = (Ok tt, (body s).2).
Proof. unfold try_except, log, ret. by destruct (body s) as [[[]|e] s']. Qed.

Lemma total_unit (m : Py S unit) s : total m → m s = (Ok tt, (m s).2).
Proof.
  intros Hm. destruct (Hm s) as [[] Ha].
  destruct (m s) as [r s']; simpl in *. by subst.
Qed.

Lemma seq_total {B} (m : Py S unit) (k : Py S B) s :
  total m → bind m (λ _, k) s = k (m s).2.
Proof. intros Hm. unfold bind. by rewrite (total_unit m s Hm). Qed.

Lemma total_try_log (body : Py S unit) : total (try_except body (λ _, log)).
Proof. intros s. exists tt. by rewrite try_log. Qed.

Lemma total_bind {A B} (m : Py S A) (k : A → Py S B) :
  total m → (∀ a, total (k a)) → total (bind m k).
Proof.
  intros Hm Hk s. unfold bind. destruct (Hm s) as [a Ha].
  destruct (m s) as [r s']; simpl in *; subst. apply Hk.
Qed.

Lemma total_ret {A} (a : A) : total (ret a : Py S A).
Proof. intros s. by exists a. Qed.

Lemma total_gets {A} (f : S → A) : total (gets f).
Proof. intros s. by exists (f s). Qed.

Lemma total_modify (f : S → S) : total (modify f).
Proof. intros s. by exists tt. Qed.

Lemma inv_ret I {A} (a : A) : inv I (ret a).
Proof. by intros s. Qed.

Lemma inv_raise I {A} e : inv I (raise e : Py S A).
Proof. by intros s. Qed.

Lemma inv_gets I {A} (f : S → A) : inv I (gets f).
Proof. by intros s. Qed.

Lemma inv_modify I (f : S → S) : (∀ s, I s → I (f s)) → inv I (modify f).
Proof. intros Hf s. apply Hf. Qed.

Lemma inv_bind I {A B} (m : Py S A) (k : A → Py S B) :
  inv I m → (∀ a, inv I (k a)) → inv I (bind m k).
Proof.
  intros Hm Hk s Hs. unfold bind. specialize (Hm s Hs).
  destruct (m s) as [[a|e] s']; simpl in *; [by apply Hk | done].
Qed.

Lemma inv_try_except I {A} (body : Py S A) (handler : exn → Py S A) :
  inv I body → (∀ e, inv I (handler e)) → inv I (try_except body handler).
Proof.
  intros Hb Hh s Hs. unfold try_except. specialize (Hb s Hs).
  destruct (body s) as [[a|e] s']; simpl in *; [done | by apply Hh].
Qed.

Lemma inv_for_each I {A} (xs : list A) (body : A → Py S unit) :
  (∀ x, inv I (body x)) → inv I (for_each xs body).
Proof.
  intros Hb. induction xs as [|x xs IH]; simpl.
  - apply inv_ret.
  - apply inv_bind; [apply Hb | by intros _].
Qed.

Lemma inv_log I : inv I (log : Py S unit).
Proof. apply inv_ret. Qed.
End MonadLemmas.

Section EffectLemmas.
Context (O : oracle) {P : Type}.
Implicit Types I : st P → Prop.

Lemma inv_is_set I :
  (∀ s, I s → I (set_env (w_check (env s)) s)) → inv I (is_set O).
Proof. intros H s. apply H. Qed.

Lemma inv_api_get I url params :
  (∀ s r, I s → I (set_env (w_request r (env s)) s)) →
  inv I (api_get O url params).
Proof.
  intros H s Hs. unfold api_get.
  destruct (api_result O _); simpl; by apply H.
Qed.

Lemma inv_utc_now_iso I :
  (∀ s, I s → I (set_env (w_tick (env s)) s)) → inv I (utc_now_iso O).
Proof. intros H s. apply H. Qed.

Lemma inv_append_rows I rs a b :
  (∀ s c, I s → I (set_env (w_append c (env s)) s)) →
  inv I (append_rows O rs a b).
Proof.
  intros H s Hs. unfold append_rows.
  destruct (append_ok O _); simpl; by apply H.
Qed.

Lemma inv_rows_append I e :
  (∀ s, I s → I (set_rows (rows s ++ [e]) s)) → inv I (rows_append e).
Proof. intros H. by apply inv_modify. Qed.

Lemma inv_py_get I data k dflt : inv I (py_get (P:=P) data k dflt).
Proof. destruct data; first [apply inv_ret | apply inv_raise]. Qed.

Lemma inv_py_iter I v : inv I (py_iter (P:=P) v).
Proof. destruct v; first [apply inv_ret | apply inv_raise]. Qed.

Lemma inv_py_setitem I obj k v : inv I (py_setitem (P:=P) obj k v).
Proof. destruct obj; first [apply inv_ret | apply inv_raise]. Qed.

Lemma inv_for_tickers I ts body :
  inv I (is_set O) → (∀ t, inv I (body t)) → inv I (for_tickers O ts body).
Proof.
  intros Hc Hb. induction ts as [|t ts IH]; simpl.
  - apply inv_ret.
  - apply inv_bind; [done | intros [|]; [apply inv_ret |]].
    apply inv_bind; [apply Hb | by intros _].
Qed.

Lemma total_for_tickers ts (body : string → Py (st P) unit) :
  (∀ t, total (body t)) → total (for_tickers O ts body).
Proof.
  intros Hb. induction ts as [|t ts IH]; simpl.
  - apply total_ret.
  - apply total_bind; [intros s; by eexists | intros [|]; [apply total_ret |]].
    apply total_bind; [apply Hb | by intros _].
Qed.
End EffectLemmas.

(** One rule of the above per construct of the code, chosen by the shape of
    the computation; what is left is to show that the invariant survives
    each elementary change of the state. *)
Ltac inv_step :=
  lazymatch goal with
  | |- inv _ (ret _) => apply inv_ret
  | |- inv _ (raise _) => apply inv_raise
  | |- inv _ log => apply inv_log
  | |- inv _ (gets _) => apply inv_gets
  | |- inv _ (py_get _ _ _) => apply inv_py_get
  | |- inv _ (py_iter _) => apply inv_py_iter
  | |- inv _ (py_setitem _ _ _) => apply inv_py_setitem
  | |- inv _ (for_each _ _) => apply inv_for_each; intros ?
  | |- inv _ (for_tickers _ _ _) => apply inv_for_tickers; [| intros ?]
  | |- inv _ (try_except _ _) => apply inv_try_except; [| intros ?]
  | |- inv _ (bind _ _) => apply inv_bind; [| intros ?]
  | |- inv _ (is_set _) => apply inv_is_set
  | |- inv _ (api_get _ _ _) => apply inv_api_get
  | |- inv _ (utc_now_iso _) => apply inv_utc_now_iso
  | |- inv _ (rows_append _) => apply inv_rows_append
  | |- inv _ (append_rows _ _ _ _) => apply inv_append_rows
  | |- inv _ (modify _) => apply inv_modify
  | |- inv _ (if ?b then _ else _) => destruct b
  | |- inv _ (match ?x with _ => _ end) => destruct x
  end.

Ltac inv_steps := repeat inv_step.

(** * The offset window (C1) *)

Lemma batch_total_snoc tr c :
  batch_total (tr ++ [c]) = batch_total tr + length (ac_rows c).
Proof. unfold batch_total. rewrite sum_list_with_app. simpl. lia. Qed.

Lemma successful_snoc tr c :
  successful (tr ++ [c]) =
  if ac_ok c then successful tr ++ [c] else successful tr.
Proof.
  unfold successful. rewrite filter_app.
  destruct (ac_ok c) eqn:Hc.
  - by rewrite (filter_cons_True _ c []).
  - rewrite (filter_cons_False _ c []); [by rewrite app_nil_r | congruence].
Qed.

Lemma windows_from_snoc base tr c :
  windows_from base (tr ++ [c]) ↔
  windows_from base tr ∧
  start_offset_token c = py_str (base + batch_total tr) ∧
  end_offset_token c = py_str (base + batch_total tr + length (ac_rows c)).
Proof.
  revert base. induction tr as [|c0 tr IH]; intros base; simpl.
  - rewrite Nat.add_0_r. unfold batch_total; simpl. naive_solver.
  - rewrite IH. unfold batch_total; simpl.
    rewrite !Nat.add_assoc. naive_solver.
Qed.


Section OffsetInvariant.
Context (O : oracle) `{PollerFields P}.

Lemma ingest_rows_total (after : Py (st P) unit) : total (ingest_rows O after).
Proof.
  intros s. unfold ingest_rows, bind, gets. simpl.
  destruct (rows s); [by exists tt|]. rewrite try_log. by exists tt.
Qed.

(** [offset] is bumped before the append is tried and stays bumped when
    the append raises. *)
Lemma ingest_rows_offsets_track (after : Py (st P) unit) :
  inv offsets_track after → inv offsets_track (ingest_rows O after).
Proof.
  intros Hafter s (Hoff & Htot & Hw).
  unfold ingest_rows, bind, gets. simpl.
  destruct (rows s) as [|r rs] eqn:Hrows; [done|].
  rewrite try_log. unfold bind, modify, gets, append_rows. simpl.
  destruct (append_ok O _) eqn:Hok; simpl.
  - apply Hafter. unfold offsets_track; simpl.
    rewrite offset_with_total, offset_with_offset, total_with_total,
      total_with_offset, batch_total_snoc, successful_snoc. simpl.
    rewrite batch_total_snoc. simpl.
    split_and!; [lia | lia |].
    apply windows_from_snoc. simpl. split_and!; [done | f_equal; lia | f_equal; lia].
  - unfold offsets_track; simpl.
    rewrite offset_with_offset, total_with_offset, batch_total_snoc,
      successful_snoc. simpl.
    split_and!; [lia | lia |].
    apply windows_from_snoc. simpl. split_and!; [done | f_equal; lia | f_equal; lia].
Qed.

End OffsetInvariant.

(** What the fetch loops leave alone. *)
Ltac frame_steps :=
  inv_steps; try (intros; assumption);
  try (unfold offsets_track; simpl; intros; assumption).

Section OffsetsPerPoller.
Context (O : oracle).

Lemma hist_fetch_and_ingest_offsets_track :
  inv offsets_track (HistoricalAggPoller.fetch_and_ingest O).
Proof.
  unfold HistoricalAggPoller.fetch_and_ingest.
  apply inv_bind; [apply inv_gets | intros [|]; [apply inv_ret |]].
  apply inv_bind; [by apply inv_modify | intros _].
  apply inv_bind; [| intros _; apply ingest_rows_offsets_track].
  - unfold HistoricalAggPoller.fetch_ticker. frame_steps.
  - frame_steps.
Qed.

Lemma agg_fetch_and_ingest_offsets_track :
  inv offsets_track (AggregatePoller.fetch_and_ingest O).
Proof.
  unfold AggregatePoller.fetch_and_ingest.
  apply inv_bind; [by apply inv_modify | intros _].
  apply inv_bind; [| intros _; apply ingest_rows_offsets_track].
  - unfold AggregatePoller.fetch_ticker. frame_steps.
  - frame_steps.
Qed.

Lemma news_fetch_and_ingest_offsets_track :
  inv offsets_track (NewsPoller.fetch_and_ingest O).
Proof.
  unfold NewsPoller.fetch_and_ingest.
  apply inv_bind; [by apply inv_modify | intros _].
  apply inv_bind; [| intros _; apply ingest_rows_offsets_track].
  - unfold NewsPoller.see_article, NewsPoller.trim_seen_ids.
    frame_steps.
  - frame_steps.
Qed.
End OffsetsPerPoller.

Section Runs.
Context (O : oracle).

Lemma inv_agg_run I fuel :
  inv I (is_set O) → inv I (AggregatePoller.fetch_and_ingest O) →
  inv I (AggregatePoller.run O fuel).
Proof.
  intros Hc Hf. induction fuel as [|fuel IH]; simpl; [apply inv_ret|].
  apply inv_bind; [done | intros [|]; [apply inv_ret |]].
  apply inv_bind; [done | by intros _].
Qed.

Lemma inv_news_run I fuel :
  inv I (is_set O) → inv I (NewsPoller.fetch_and_ingest O) →
  inv I (NewsPoller.run O fuel).
Proof.
  intros Hc Hf. induction fuel as [|fuel IH]; simpl; [apply inv_ret|].
  apply inv_bind; [done | intros [|]; [apply inv_ret |]].
  apply inv_bind; [done | by intros _].
Qed.

Lemma inv_hist_run I fuel :
  inv I (is_set O) → inv I (HistoricalAggPoller.fetch_and_ingest O) →
  inv I (HistoricalAggPoller.run O fuel).
Proof.
  intros Hc Hf. unfold HistoricalAggPoller.run.
  apply inv_bind; [done | intros _].
  induction fuel as [|fuel IH]; simpl; [apply inv_ret|].
  apply inv_bind; [done | intros [|]; [apply inv_ret | done]].
Qed.
End Runs.






(** * One cycle of a per-ticker poller (C2, C6, C8) *)

Lemma hist_fetch_ticker_with O :
  HistoricalAggPoller.fetch_ticker O
  = fetch_ticker_with O (hist_url O) "polygon_rest_daily_bars".
Proof. reflexivity. Qed.

Lemma agg_fetch_ticker_with O :
  AggregatePoller.fetch_ticker O
  = fetch_ticker_with O agg_url "polygon_rest_aggs".
Proof. reflexivity. Qed.

Lemma mapM_as_record items recs :
  mapM as_record items = Some recs → items = JObj <$> recs.
Proof.
  rewrite mapM_Some. induction 1 as [|item r items recs Hr _ IH]; [done|].
  destruct item; simplify_eq/=. by f_equal.
Qed.

Lemma records_of_Some data recs :
  records_of data = Some recs →
  ∃ d, data = JObj d ∧
       default (JArr []) (dict_get d "results") = JArr (JObj <$> recs).
Proof.
  destruct data as [| | | | |d]; try done. simpl.
  destruct (default _ _) as [| | | |items|] eqn:Hres; try done.
  intros ->%mapM_as_record. by exists d.
Qed.

Lemma envelopes_of_cons O src t clock r recs :
  envelopes_of O src t clock (r :: recs)
  = Envelope (JObj (dict_set r "ticker" (JStr t)))
      (Metadata (utc_now O clock) src (Some t))
    :: envelopes_of O src t (S clock) recs.
Proof.
  unfold envelopes_of. rewrite imap_cons, Nat.add_0_r. f_equal.
  apply imap_ext. intros i r' _. simpl. do 3 f_equal. lia.
Qed.

Lemma length_envelopes_of O src t clock recs :
  length (envelopes_of O src t clock recs) = length recs.
Proof. unfold envelopes_of. by rewrite length_imap. Qed.

Section PerTicker.
Context (O : oracle) {P : Type} (url : string → string) (src : string).

(** Wrapping the records of one response. *)
Lemma wrap_records t recs (s : st P) :
  for_each (JObj <$> recs)
    (λ item,
       item' <- py_setitem item "ticker" (JStr t) ;;
       now <- utc_now_iso O ;;
       rows_append (Envelope item' (Metadata now src (Some t))))%py s
  = (Ok tt,
     St (self s)
        (rows s ++ envelopes_of O src t (clock_reads (env s)) recs)
        (World (requests (env s)) (checks (env s))
           (clock_reads (env s) + length recs)
           (appended (env s)) (trims (env s)))).
Proof.
  revert s. induction recs as [|r recs IH]; intros [p rs [rq ck cl ap tm]].
  - simpl. unfold ret. by rewrite app_nil_r, Nat.add_0_r.
  - rewrite envelopes_of_cons. cbn [fmap list_fmap for_each].
    unfold bind at 1. cbn. rewrite IH. cbn.
    rewrite <- app_assoc. do 3 f_equal. lia.
Qed.

(** A fetch that returns a well-formed response adds its records. *)
Lemma fetch_ticker_returns t data recs (s : st P) :
  api_result O (length (requests (env s))) = Returns data →
  records_of data = Some recs →
  fetch_ticker_with O url src t s
  = (Ok tt,
     St (self s)
        (rows s ++ envelopes_of O src t (clock_reads (env s)) recs)
        (World (requests (env s) ++ [Request (url t) [("adjusted"%string, JStr "true")]])
           (checks (env s))
           (clock_reads (env s) + length recs)
           (appended (env s)) (trims (env s)))).
Proof.
  intros Hres (d & -> & Hd)%records_of_Some.
  unfold fetch_ticker_with. rewrite try_log. f_equal.
  unfold bind at 1. unfold api_get. rewrite Hres.
  unfold bind at 1. cbn [py_get ret]. rewrite Hd.
  unfold bind at 1. cbn [py_iter ret].
  by rewrite wrap_records.
Qed.

(** A fetch that raises adds nothing. *)
Lemma fetch_ticker_raises t e (s : st P) :
  api_result O (length (requests (env s))) = Raises e →
  fetch_ticker_with O url src t s
  = (Ok tt,
     set_env (w_request (Request (url t) [("adjusted"%string, JStr "true")])
                (env s)) s).
Proof.
  intros Hres. unfold fetch_ticker_with. rewrite try_log. f_equal.
  unfold bind at 1. unfold api_get. by rewrite Hres.
Qed.

Lemma fetch_ticker_total t : total (fetch_ticker_with (P:=P) O url src t).
Proof. apply total_try_log. Qed.

Lemma for_tickers_cons t ts (body : string → Py (st P) unit) s :
  for_tickers O (t :: ts) body s
  = if shutdown_is_set O (checks (env s))
    then (Ok tt, set_env (w_check (env s)) s)
    else bind (body t) (λ _, for_tickers O ts body)
           (set_env (w_check (env s)) s).
Proof.
  simpl. unfold bind at 1, is_set. by destruct (shutdown_is_set O _).
Qed.

(** The loop over the tickers, up to the shutdown test that ends it. *)
Lemma for_tickers_spec ts (s : st P) :
  let got := fetched O (checks (env s)) ts in
  responses_well_formed O (length (requests (env s))) (length got) = true →
  let s' := (for_tickers O ts (fetch_ticker_with O url src) s).2 in
  self s' = self s ∧
  rows s' = rows s ++ successful_records O src got
                        (length (requests (env s))) (clock_reads (env s)) ∧
  length (requests (env s')) = length (requests (env s)) + length got ∧
  appended (env s') = appended (env s) ∧
  trims (env s') = trims (env s).
Proof.
  cbv zeta. revert s.
  induction ts as [|t ts IH]; intros [p rs [rq ck cl ap tm]].
  - simpl. intros _. rewrite app_nil_r.
    split_and!; [done | done | lia | done | done].
  - rewrite for_tickers_cons. cbn [fetched env checks].
    destruct (shutdown_is_set O ck) eqn:Hstop.
    + simpl. intros _. rewrite app_nil_r.
      split_and!; [done | done | lia | done | done].
    + cbn [length responses_well_formed successful_records env requests].
      intros [Hwf Hrest]%andb_prop.
      rewrite seq_total by apply fetch_ticker_total.
      destruct (api_result O (length rq)) as [data|e] eqn:Hres.
      * simpl in Hwf. apply bool_decide_eq_true in Hwf as [recs Hrecs].
        rewrite (fetch_ticker_returns t data recs) by done.
        rewrite Hrecs. simpl.
        match goal with |- context [for_tickers O ts _ ?s1] =>
          specialize (IH s1) end.
        simpl in IH. rewrite length_app, Nat.add_1_r in IH.
        destruct (IH Hrest) as (-> & -> & -> & -> & ->).
        rewrite <- ?app_assoc, ?length_app. simpl.
        split_and!; [done | done | lia | done | done].
      * rewrite (fetch_ticker_raises t e) by done. simpl.
        match goal with |- context [for_tickers O ts _ ?s1] =>
          specialize (IH s1) end.
        simpl in IH. rewrite length_app, Nat.add_1_r in IH.
        destruct (IH Hrest) as (-> & -> & -> & -> & ->).
        rewrite ?length_app. simpl.
        split_and!; [done | done | lia | done | done].
Qed.
End PerTicker.

Section IngestSpec.
Context (O : oracle) `{PollerFields P}.

Lemma quiet_log : quiet log.
Proof. by intros s. Qed.

Lemma ingest_rows_nil (after : Py (st P) unit) s :
  rows s = [] → ingest_rows O after s = (Ok tt, s).
Proof. intros Hrows. unfold ingest_rows, bind, gets. by rewrite Hrows. Qed.

(** A non-empty batch: the offset moves first, then the append is tried. *)
Lemma ingest_rows_cons (after : Py (st P) unit) s :
  rows s ≠ [] →
  let n := length (rows s) in
  let s1 := set_self (with_offset (offset (self s) + n) (self s)) s in
  let ok := append_ok O (length (appended (env s))) in
  let s2 := set_env
              (w_append
                 (AppendCall (rows s)
                    (py_str (offset (self s)))
                    (py_str (offset (self s) + n)) ok)
                 (env s)) s1 in
  ingest_rows O after s
  = (Ok tt,
     if ok
     then (after (set_self
                    (with_total_ingested (total_ingested (self s2) + n)
                       (self s2)) s2)).2
     else s2).
Proof.
  intros Hrows. cbv zeta. unfold ingest_rows, bind at 1, gets.
  destruct (rows s) as [|r rs] eqn:Hr; [done|].
  rewrite try_log. f_equal.
  unfold bind, modify, gets, append_rows. cbn.
  rewrite offset_with_offset.
  replace (offset (self s) + length (r :: rs) - length (r :: rs))
    with (offset (self s)) by lia.
  destruct (append_ok O _); cbn; [|done].
  by destruct (after _).
Qed.

Lemma ingest_rows_passes (after : Py (st P) unit) s :
  quiet after →
  cycle_passes O s (ingest_rows O after s).2 (rows s)
  ∧ rows (ingest_rows O after s).2 = rows s
  ∧ requests (env (ingest_rows O after s).2) = requests (env s).
Proof.
  intros Hq. unfold cycle_passes.
  destruct (rows s) as [|r rs] eqn:Hrows.
  - by rewrite ingest_rows_nil.
  - rewrite ingest_rows_cons by (by rewrite Hrows). rewrite Hrows. cbn [snd].
    destruct (append_ok O _) eqn:Hok; [|done].
    match goal with |- context [after ?s1] =>
      destruct (Hq s1) as (-> & -> & _) end.
    done.
Qed.
End IngestSpec.

Section PerTickerCycle.
Context (O : oracle).


Lemma hist_fetch_and_ingest_total :
  total (HistoricalAggPoller.fetch_and_ingest O).
Proof.
  unfold HistoricalAggPoller.fetch_and_ingest.
  apply total_bind; [apply total_gets | intros [|]; [apply total_ret |]].
  apply total_bind; [apply total_modify | intros _].
  apply total_bind; [| intros _; apply ingest_rows_total].
  apply total_for_tickers. intros t. apply total_try_log.
Qed.

Lemma agg_cycle_unfold s :
  (AggregatePoller.fetch_and_ingest O s).2
  = (ingest_rows O log
       (for_tickers O TICKERS (AggregatePoller.fetch_ticker O)
          (set_rows [] s)).2).2.
Proof.
  unfold AggregatePoller.fetch_and_ingest.
  rewrite seq_total by apply total_modify.
  rewrite seq_total; [done|].
  apply total_for_tickers. intros t. apply total_try_log.
Qed.

Lemma hist_cycle_unfold s :
  HistoricalAggPoller.loaded (self s) = false →
  (HistoricalAggPoller.fetch_and_ingest O s).2
  = (ingest_rows O hist_after
       (for_tickers O TICKERS (HistoricalAggPoller.fetch_ticker O)
          (set_rows [] s)).2).2.
Proof.
  intros Hl. unfold HistoricalAggPoller.fetch_and_ingest.
  unfold bind at 1, gets. rewrite Hl.
  rewrite seq_total by apply total_modify.
  rewrite seq_total; [done|].
  apply total_for_tickers. intros t. apply total_try_log.
Qed.

Lemma quiet_hist_after : quiet hist_after.
Proof. by intros s. Qed.
End PerTickerCycle.

Lemma cycle_passes_eq {P} `{PollerFields P} O (s m s' : st P) batch :
  self m = self s → appended (env m) = appended (env s) → rows m = batch →
  cycle_passes O m s' (rows m) → cycle_passes O s s' batch.
Proof. intros Hs Ha <-. unfold cycle_passes. by rewrite Hs, Ha. Qed.


Lemma agg_cycle_batch O s :
  let got := fetched O (checks (env s)) TICKERS in
  responses_well_formed O (length (requests (env s))) (length got) = true →
  cycle_passes O s (AggregatePoller.fetch_and_ingest O s).2
    (successful_records O "polygon_rest_aggs" got
       (length (requests (env s))) (clock_reads (env s))).
Proof.
  intros got Hwf. rewrite agg_cycle_unfold, agg_fetch_ticker_with.
  destruct (for_tickers_spec O agg_url "polygon_rest_aggs" TICKERS
              (set_rows [] s) Hwf) as (Hself & Hrows & _ & Happ & _).
  eapply cycle_passes_eq; [exact Hself | exact Happ | exact Hrows |].
  apply ingest_rows_passes, quiet_log.
Qed.




(** Outside the contract: when an item of "results" is not an object, the
    [TypeError] of [item["ticker"] = ticker] ends the ticker there; the
    records before the offending item stay in the batch, those after it
    are never wrapped. *)
Example broken_item_keeps_earlier_records :
  RECORD_CONTENT
    <$> rows (AggregatePoller.fetch_and_ingest broken_oracle
                AggregatePoller.init).2
  = (λ t, JObj [("c"%string, JInt 1); ("ticker"%string, JStr t)]) <$> TICKERS.
Proof. reflexivity. Qed.


(** * The end-to-end scenario (C6) *)

Lemma dict_get_set d k v : dict_get (dict_set d k v) k = Some v.
Proof.
  induction d as [|[k' v'] d IH]; simpl.
  - by rewrite decide_True.
  - destruct (decide (k' = k)) as [->|Hne]; simpl.
    + by rewrite decide_True.
    + by rewrite decide_False.
Qed.

Lemma fetched_all O c ts :
  (∀ i, c ≤ i < c + length ts → shutdown_is_set O i = false) →
  fetched O c ts = ts.
Proof.
  revert c. induction ts as [|t ts IH]; intros c Hno; simpl; [done|].
  rewrite Hno by (simpl; lia). f_equal. apply IH.
  intros i Hi. apply Hno. simpl. lia.
Qed.

Lemma responses_well_formed_all O call k :
  (∀ i, call ≤ i < call + k → well_formed_response (api_result O i) = true) →
  responses_well_formed O call k = true.
Proof.
  revert call. induction k as [|k IH]; intros call Hwf; simpl; [done|].
  rewrite Hwf by lia. simpl. apply IH. intros i Hi. apply Hwf. lia.
Qed.

Lemma single_result_well_formed out :
  single_result out → well_formed_response out = true.
Proof.
  intros (d & r & -> & Hd). simpl. by rewrite Hd.
Qed.

Lemma failed_well_formed out : failed out → well_formed_response out = true.
Proof. by intros [e ->]. Qed.

Lemma successful_records_single O src t ts call clock d r :
  api_result O call = Returns (JObj d) →
  dict_get d "results" = Some (JArr [JObj r]) →
  successful_records O src (t :: ts) call clock
  = Envelope (JObj (dict_set r "ticker" (JStr t)))
      (Metadata (utc_now O clock) src (Some t))
    :: successful_records O src ts (S call) (S clock).
Proof.
  intros Hres Hd. cbn [successful_records]. rewrite Hres.
  cbn [records_of]. rewrite Hd. cbn.
  by rewrite Nat.add_0_r, Nat.add_1_r.
Qed.

Lemma successful_records_failed O src t ts call clock e :
  api_result O call = Raises e →
  successful_records O src (t :: ts) call clock
  = successful_records O src ts (S call) clock.
Proof. intros Hres. cbn [successful_records]. by rewrite Hres. Qed.

(** The batch when [bad] is the one fetch that fails and every other fetch
    yields one result. *)
Lemma one_failure_batch O src ts call clock bad :
  (∀ i, call ≤ i < call + length ts → i ≠ bad → single_result (api_result O i)) →
  (call ≤ bad < call + length ts → failed (api_result O bad)) →
  let batch := successful_records O src ts call clock in
  ticker_of <$> batch
  = Some <$> (if decide (call ≤ bad < call + length ts)
              then delete (bad - call) ts else ts)
  ∧ Forall (tagged src) batch.
Proof.
  cbv zeta. revert call clock.
  induction ts as [|t ts IH]; intros call clock Hok Hbad.
  - simpl. by case_decide.
  - destruct (decide (call = bad)) as [<-|Hne].
    + destruct Hbad as [e Hres]; [simpl; lia|].
      rewrite (successful_records_failed _ _ _ _ _ _ e) by done.
      rewrite decide_True by (simpl; lia). rewrite Nat.sub_diag.
      destruct (IH (S call) clock) as [IH1 IH2].
      * intros i Hi ?. apply Hok; [simpl; lia | done].
      * lia.
      * rewrite decide_False in IH1 by lia. done.
    + destruct (Hok call) as (d & r & Hres & Hd); [simpl; lia | done |].
      rewrite (successful_records_single _ _ _ _ _ _ d r) by done.
      destruct (IH (S call) (S clock)) as [IH1 IH2].
      * intros i Hi ?. apply Hok; [simpl; lia | done].
      * intros Hi. apply Hbad. simpl. lia.
      * split.
        -- rewrite fmap_cons, IH1. unfold ticker_of at 1. cbn [length].
           destruct (decide (S call ≤ bad < S call + length ts)).
           ++ rewrite decide_True by lia.
              replace (bad - call) with (S (bad - S call)) by lia. done.
           ++ rewrite decide_False by lia. done.
        -- constructor; [|done]. split; [done|].
           exists t, (dict_set r "ticker" (JStr t)).
           split_and!; [done | done | apply dict_get_set].
Qed.

(** C6, as amended: on the first cycle of the aggregate poller, with the 7
    configured tickers, no shutdown, one fetch that fails and one result
    from each of the others, exactly one append call is made, with the
    offset window ("0", "6") and a batch of 6 envelopes, one per successful
    ticker in the configured order, each tagged with its ticker and with
    the source "polygon_rest_aggs". *)
Theorem aggregate_first_cycle_with_one_failed_fetch (O : oracle) (bad : nat) :
  bad < length TICKERS →
  (∀ i, i < length TICKERS → shutdown_is_set O i = false) →
  failed (api_result O bad) →
  (∀ i, i < length TICKERS → i ≠ bad → single_result (api_result O i)) →
  ∃ batch ok,
    appended (env (AggregatePoller.fetch_and_ingest O AggregatePoller.init).2)
    = [AppendCall batch "0" "6" ok]
    ∧ length batch = 6
    ∧ ticker_of <$> batch = Some <$> delete bad TICKERS
    ∧ Forall (tagged "polygon_rest_aggs") batch.
Proof.
  intros Hbad Hno Hfail Hok.
  pose proof (agg_cycle_batch O AggregatePoller.init) as Hcycle.
  cbv zeta in Hcycle. cbn [AggregatePoller.init world0 env checks requests
    clock_reads length] in Hcycle.
  rewrite fetched_all in Hcycle by (intros i Hi; apply Hno; lia).
  destruct (one_failure_batch O "polygon_rest_aggs" TICKERS 0 0 bad)
    as [Htick Htag].
  { intros i Hi ?. apply Hok; [lia | done]. }
  { done. }
  rewrite decide_True, Nat.sub_0_r in Htick by lia.
  set (batch := successful_records O "polygon_rest_aggs" TICKERS 0 0) in *.
  assert (Hlen : length batch = 6).
  { rewrite <- (length_fmap ticker_of), Htick, length_fmap.
    rewrite length_delete; [done|]. by apply lookup_lt_is_Some_2. }
  exists batch, (append_ok O 0).
  split_and!; [| done | done | done].
  unfold cycle_passes in Hcycle. destruct batch as [|e0 batch0]; [done|].
  rewrite Hcycle.
  - simpl in Hlen. simpl. by rewrite Hlen.
  - apply responses_well_formed_all. intros i Hi.
    destruct (decide (i = bad)) as [->|Hne].
    + by apply failed_well_formed.
    + apply single_result_well_formed, Hok; [simpl in *; lia | done].
Qed.

Lemma aggregate_first_cycle_witness :
  ∃ batch ok,
    appended (env (AggregatePoller.fetch_and_ingest (one_failure_oracle 2)
                     AggregatePoller.init).2)
    = [AppendCall batch "0" "6" ok]
    ∧ length batch = 6
    ∧ ticker_of <$> batch = Some <$> delete 2 TICKERS
    ∧ Forall (tagged "polygon_rest_aggs") batch.
Proof.
  apply (aggregate_first_cycle_with_one_failed_fetch (one_failure_oracle 2) 2).
  - simpl. lia.
  - reflexivity.
  - by exists RequestException.
  - intros i Hi Hne. unfold single_result, one_failure_oracle. simpl.
    rewrite decide_False by done. by eexists _, _.
Defined.

(** C6 as stated fails: the source tag the aggregate poller writes is not
    "periodic_agg". *)
Lemma aggregate_source_tag_is_not_periodic_agg :
  ¬ ∀ c e,
      c ∈ appended (env (AggregatePoller.fetch_and_ingest
                           (one_failure_oracle 2) AggregatePoller.init).2) →
      e ∈ ac_rows c →
      source (RECORD_METADATA e) = "periodic_agg"%string.
Proof.
  intros Hall.
  set (tr := appended _) in Hall. vm_compute in tr.
  match eval unfold tr in tr with
  | ?c :: _ =>
      match c with
      | AppendCall (?e :: _) _ _ _ =>
          specialize (Hall c e (list_elem_of_here _ _) (list_elem_of_here _ _))
      end
  end.
  discriminate Hall.
Qed.

(** * Shutdown in the middle of a cycle (C8) *)

Section Shutdown.
Context (O : oracle) {P : Type} (url : string → string) (src : string).

Lemma fetch_ticker_checks t c :
  inv (λ s : st P, checks (env s) = c) (fetch_ticker_with O url src t).
Proof. unfold fetch_ticker_with. inv_steps; intros; assumption. Qed.

Lemma fetch_ticker_frame t (p : P) tr :
  inv (λ s : st P, self s = p ∧ appended (env s) = tr)
    (fetch_ticker_with O url src t).
Proof. unfold fetch_ticker_with. inv_steps; intros; assumption. Qed.

(** Each ticker that is fetched costs one request, whatever comes back. *)
Lemma fetch_ticker_requests t (s : st P) :
  requests (env (fetch_ticker_with O url src t s).2)
  = requests (env s) ++ [ticker_request url t].
Proof.
  unfold fetch_ticker_with. rewrite try_log. cbn [snd].
  unfold bind at 1, api_get.
  destruct (api_result O _) as [data|e]; [|done].
  match goal with |- requests (env (?m ?s1).2) = ?X =>
    enough (Hinv : inv (λ s', requests (env s') = X) m) by (by apply Hinv)
  end.
  inv_steps; intros; assumption.
Qed.

(** The loop stops at the first shutdown test that finds the event set:
    it leaves what the loop over the tickers before that test leaves. *)
Lemma for_tickers_fetched ts (s : st P) :
  let s1 := (for_tickers O ts (fetch_ticker_with O url src) s).2 in
  let s2 := (for_tickers O (fetched O (checks (env s)) ts)
               (fetch_ticker_with O url src) s).2 in
  self s1 = self s2 ∧ rows s1 = rows s2
  ∧ requests (env s1) = requests (env s2)
  ∧ appended (env s1) = appended (env s2).
Proof.
  cbv zeta. revert s. induction ts as [|t ts IH]; intros s; [done|].
  rewrite for_tickers_cons. cbn [fetched].
  destruct (shutdown_is_set O (checks (env s))) eqn:Hstop; [done|].
  rewrite for_tickers_cons, Hstop.
  rewrite !seq_total by apply fetch_ticker_total.
  pose proof (fetch_ticker_checks t (S (checks (env s)))
                (set_env (w_check (env s)) s) eq_refl) as Hc.
  cbv beta in Hc.
  match goal with |- context [for_tickers O ts _ ?s1] =>
    specialize (IH s1) end.
  rewrite Hc in IH. exact IH.
Qed.

Lemma for_tickers_requests ts (s : st P) :
  requests (env (for_tickers O ts (fetch_ticker_with O url src) s).2)
  = requests (env s)
      ++ (ticker_request url <$> fetched O (checks (env s)) ts).
Proof.
  revert s. induction ts as [|t ts IH]; intros s.
  - simpl. by rewrite app_nil_r.
  - rewrite for_tickers_cons. cbn [fetched].
    destruct (shutdown_is_set O (checks (env s))) eqn:Hstop.
    + simpl. by rewrite app_nil_r.
    + rewrite seq_total by apply fetch_ticker_total.
      pose proof (fetch_ticker_checks t (S (checks (env s)))
                    (set_env (w_check (env s)) s) eq_refl) as Hc.
      cbv beta in Hc.
      rewrite IH, fetch_ticker_requests, Hc.
      rewrite fmap_cons, <- app_assoc. done.
Qed.

Lemma for_tickers_frame ts (p : P) tr :
  inv (λ s : st P, self s = p ∧ appended (env s) = tr)
    (for_tickers O ts (fetch_ticker_with O url src)).
Proof.
  apply inv_for_tickers; [by apply inv_is_set | intros t].
  apply fetch_ticker_frame.
Qed.

(** The tickers fetched when the event is first found set at the test
    before ticker [k]. *)
Lemma fetched_take c k ts :
  k < length ts →
  (∀ i, i < k → shutdown_is_set O (c + i) = false) →
  shutdown_is_set O (c + k) = true →
  fetched O c ts = take k ts.
Proof.
  revert c k. induction ts as [|t ts IH]; intros c k Hk Hno Hset.
  - simpl in Hk. lia.
  - destruct k as [|k]; simpl.
    + rewrite Nat.add_0_r in Hset. by rewrite Hset.
    + specialize (Hno 0 ltac:(lia)) as H0. rewrite Nat.add_0_r in H0.
      rewrite H0. f_equal. apply IH.
      * simpl in Hk. lia.
      * intros i Hi. replace (S c + i) with (c + S i) by lia.
        apply Hno. lia.
      * by replace (S c + k) with (c + S k) by lia.
Qed.
End Shutdown.

Section ShutdownCycle.
Context (O : oracle) (k : nat).

Lemma agg_cycle_cut_short s :
  k < length TICKERS →
  (∀ i, i < k → shutdown_is_set O (checks (env s) + i) = false) →
  shutdown_is_set O (checks (env s) + k) = true →
  let mid := (for_tickers O (take k TICKERS) (AggregatePoller.fetch_ticker O)
                (set_rows [] s)).2 in
  let fin := (AggregatePoller.fetch_and_ingest O s).2 in
  requests (env fin)
  = requests (env s) ++ (ticker_request agg_url <$> take k TICKERS)
  ∧ cycle_passes O s fin (rows mid).
Proof.
  intros Hk Hno Hset mid fin.
  pose proof (fetched_take O (checks (env s)) k TICKERS Hk Hno Hset) as Hgot.
  subst mid fin. rewrite agg_cycle_unfold, agg_fetch_ticker_with.
  set (loop := (for_tickers O TICKERS _ (set_rows [] s)).2).
  destruct (for_tickers_fetched O agg_url "polygon_rest_aggs" TICKERS
              (set_rows [] s)) as (_ & Hrows & _ & _).
  cbn [set_rows env] in Hrows. rewrite Hgot in Hrows. fold loop in Hrows.
  destruct (for_tickers_frame O agg_url "polygon_rest_aggs" TICKERS
              (self s) (appended (env s)) (set_rows [] s))
    as [Hself Happ]; [done|]. fold loop in Hself, Happ.
  destruct (ingest_rows_passes O log loop quiet_log) as (Hpass & _ & Hreq).
  split.
  - rewrite Hreq. unfold loop. rewrite for_tickers_requests.
    cbn [set_rows env]. by rewrite Hgot.
  - by eapply cycle_passes_eq.
Qed.

Lemma hist_cycle_cut_short s :
  HistoricalAggPoller.loaded (self s) = false →
  k < length TICKERS →
  (∀ i, i < k → shutdown_is_set O (checks (env s) + i) = false) →
  shutdown_is_set O (checks (env s) + k) = true →
  let mid := (for_tickers O (take k TICKERS)
                (HistoricalAggPoller.fetch_ticker O) (set_rows [] s)).2 in
  let fin := (HistoricalAggPoller.fetch_and_ingest O s).2 in
  requests (env fin)
  = requests (env s) ++ (ticker_request (hist_url O) <$> take k TICKERS)
  ∧ cycle_passes O s fin (rows mid).
Proof.
  intros Hl Hk Hno Hset mid fin.
  pose proof (fetched_take O (checks (env s)) k TICKERS Hk Hno Hset) as Hgot.
  subst mid fin. rewrite hist_cycle_unfold, hist_fetch_ticker_with by done.
  set (loop := (for_tickers O TICKERS _ (set_rows [] s)).2).
  destruct (for_tickers_fetched O (hist_url O) "polygon_rest_daily_bars"
              TICKERS (set_rows [] s)) as (_ & Hrows & _ & _).
  cbn [set_rows env] in Hrows. rewrite Hgot in Hrows. fold loop in Hrows.
  destruct (for_tickers_frame O (hist_url O) "polygon_rest_daily_bars"
              TICKERS (self s) (appended (env s)) (set_rows [] s))
    as [Hself Happ]; [done|]. fold loop in Hself, Happ.
  destruct (ingest_rows_passes O hist_after loop quiet_hist_after)
    as (Hpass & _ & Hreq).
  split.
  - rewrite Hreq. unfold loop. rewrite for_tickers_requests.
    cbn [set_rows env]. by rewrite Hgot.
  - by eapply cycle_passes_eq.
Qed.
End ShutdownCycle.

(** C8: when the shutdown event is first found set at the test before
    ticker [k] (after [k] tests that found it clear), a cycle of a
    per-ticker poller requests the first [k] tickers and no other, and the
    rows those [k] tickers produced are not discarded: they are the batch
    of the cycle, passed to [append_rows] in one call when not empty. *)
Theorem shutdown_mid_cycle_keeps_accumulated_rows (O : oracle) (k : nat) :
  k < length TICKERS →
  (∀ s,
     (∀ i, i < k → shutdown_is_set O (checks (env s) + i) = false) →
     shutdown_is_set O (checks (env s) + k) = true →
     let mid := (for_tickers O (take k TICKERS) (AggregatePoller.fetch_ticker O)
                   (set_rows [] s)).2 in
     let fin := (AggregatePoller.fetch_and_ingest O s).2 in
     requests (env fin)
     = requests (env s) ++ (ticker_request agg_url <$> take k TICKERS)
     ∧ cycle_passes O s fin (rows mid)) ∧
  (∀ s,
     HistoricalAggPoller.loaded (self s) = false →
     (∀ i, i < k → shutdown_is_set O (checks (env s) + i) = false) →
     shutdown_is_set O (checks (env s) + k) = true →
     let mid := (for_tickers O (take k TICKERS)
                   (HistoricalAggPoller.fetch_ticker O) (set_rows [] s)).2 in
     let fin := (HistoricalAggPoller.fetch_and_ingest O s).2 in
     requests (env fin)
     = requests (env s) ++ (ticker_request (hist_url O) <$> take k TICKERS)
     ∧ cycle_passes O s fin (rows mid)).
Proof.
  intros Hk. split.
  - intros s. by apply agg_cycle_cut_short.
  - intros s Hl. by apply hist_cycle_cut_short.
Qed.

(** The theorem at work: the event is found set before the fourth ticker;
    three tickers are requested and their three bars are appended. *)
Lemma shutdown_mid_cycle_witness :
  let O := shutdown_oracle 3 in
  let mid := (for_tickers O (take 3 TICKERS) (AggregatePoller.fetch_ticker O)
                (set_rows [] AggregatePoller.init)).2 in
  let fin := (AggregatePoller.fetch_and_ingest O AggregatePoller.init).2 in
  (requests (env fin)
   = requests (env AggregatePoller.init)
       ++ (ticker_request agg_url <$> take 3 TICKERS)
   ∧ cycle_passes O AggregatePoller.init fin (rows mid))
  ∧ length (rows mid) = 3.
Proof.
  intros O mid fin. split; [|reflexivity].
  apply (proj1 (shutdown_mid_cycle_keeps_accumulated_rows O 3
                  ltac:(simpl; lia)) AggregatePoller.init).
  - intros i Hi. apply bool_decide_eq_false. simpl. lia.
  - reflexivity.
Defined.

(** * The historical poller loads once (C4) *)

Lemma hist_loaded_noop O s :
  HistoricalAggPoller.loaded (self s) = true →
  HistoricalAggPoller.fetch_and_ingest O s = (Ok tt, s).
Proof.
  intros Hl. unfold HistoricalAggPoller.fetch_and_ingest, bind at 1, gets.
  by rewrite Hl.
Qed.

Lemma hist_first_cycle O s :
  HistoricalAggPoller.loaded (self s) = false →
  let s1 := (HistoricalAggPoller.fetch_and_ingest O s).2 in
  (∃ c, appended (env s1) = appended (env s) ++ [c] ∧ ac_ok c = true) →
  HistoricalAggPoller.loaded (self s1) = true.
Proof.
  intros Hl s1 (c & Happ & Hc). subst s1.
  rewrite hist_cycle_unfold, hist_fetch_ticker_with in * by done.
  set (loop := (for_tickers O TICKERS _ (set_rows [] s)).2) in *.
  destruct (for_tickers_frame O (hist_url O) "polygon_rest_daily_bars"
              TICKERS (self s) (appended (env s)) (set_rows [] s))
    as [Hself Hloop]; [done|]. fold loop in Hself, Hloop.
  destruct (rows loop) as [|r rs] eqn:Hrows.
  - rewrite ingest_rows_nil in Happ by done. cbn [snd] in Happ.
    rewrite Hloop in Happ. apply (f_equal length) in Happ.
    rewrite length_app in Happ. simpl in Happ. lia.
  - rewrite ingest_rows_cons in * by (by rewrite Hrows). cbn [snd] in *.
    destruct (append_ok O (length (appended (env loop)))) eqn:Hok; [done|].
    cbn in Happ. rewrite Hloop in Happ.
    apply app_inj_tail in Happ as [_ <-]. cbn in Hc. congruence.
Qed.

(** C4: once an invocation of the historical poller's [fetch_and_ingest]
    has made an append call that returned, [loaded] is set, and a second
    invocation returns at once: it makes no request and no append call and
    leaves the poller and the world as they were, so that the two
    invocations together have made exactly one append call. *)
Theorem historical_second_call_is_noop (O : oracle)
    (s : st HistoricalAggPoller.t) :
  HistoricalAggPoller.loaded (self s) = false →
  let s1 := (HistoricalAggPoller.fetch_and_ingest O s).2 in
  (∃ c, appended (env s1) = appended (env s) ++ [c] ∧ ac_ok c = true) →
  HistoricalAggPoller.loaded (self s1) = true
  ∧ HistoricalAggPoller.fetch_and_ingest O s1 = (Ok tt, s1)
  ∧ length (appended (env (HistoricalAggPoller.fetch_and_ingest O s1).2))
    = length (appended (env s)) + 1.
Proof.
  intros Hl s1 Hfirst.
  pose proof (hist_first_cycle O s Hl Hfirst) as Hloaded. fold s1 in Hloaded.
  rewrite (hist_loaded_noop O s1 Hloaded). split_and!; [done | done |].
  destruct Hfirst as (c & Happ & _). cbn [snd]. by rewrite Happ, length_app.
Qed.

Lemma historical_second_call_witness :
  let O := steady_oracle [] in
  let s1 := (HistoricalAggPoller.fetch_and_ingest O HistoricalAggPoller.init).2 in
  HistoricalAggPoller.loaded (self s1) = true
  ∧ HistoricalAggPoller.fetch_and_ingest O s1 = (Ok tt, s1)
  ∧ length (appended (env (HistoricalAggPoller.fetch_and_ingest O s1).2)) = 1.
Proof.
  intros O s1.
  apply (historical_second_call_is_noop O HistoricalAggPoller.init eq_refl).
  eexists. split; [vm_compute; reflexivity | reflexivity].
Defined.

(** * The news poller's deduplication (C3, C9, C10) *)

Section NewsArticle.
Context (O : oracle).

(** What [see_article] does, case by case. *)
Lemma see_article_eq article s :
  NewsPoller.see_article O article s
  = match article with
    | JObj _ =>
        if py_truthy (article_id article) then
          match py_key (article_id article) with
          | None => (Raise TypeError, s)
          | Some k =>
              if decide (k ∈ NewsPoller.seen_ids (self s)) then (Ok tt, s)
              else
                (Ok tt,
                 St (NewsPoller.with_seen_ids
                       ({[k]} ∪ NewsPoller.seen_ids (self s)) (self s))
                    (rows s
                       ++ [Envelope article
                             (Metadata (utc_now O (clock_reads (env s)))
                                "polygon_rest_news" None)])
                    (w_tick (env s)))
          end
        else (Ok tt, s)
    | _ => (Raise AttributeError, s)
    end.
Proof.
  unfold NewsPoller.see_article.
  destruct article as [| | | | |d]; try reflexivity.
  unfold bind at 1. cbn [py_get ret article_id].
  destruct (py_truthy _); [|done].
  destruct (py_key _) as [k|]; [|done].
  unfold bind at 1, gets. by destruct (decide _).
Qed.

(** An article whose id is absent or false is skipped without a trace. *)
Lemma see_article_falsy d s :
  py_truthy (default JNull (dict_get d "id")) = false →
  NewsPoller.see_article O (JObj d) s = (Ok tt, s).
Proof. intros Hf. rewrite see_article_eq. cbn [article_id]. by rewrite Hf. Qed.
End NewsArticle.

Lemma delivered_keys_snoc tr c :
  delivered_keys (tr ++ [c]) = delivered_keys tr ++ batch_keys (ac_rows c).
Proof.
  unfold delivered_keys. rewrite bind_app. simpl. by rewrite app_nil_r.
Qed.

Lemma batch_keys_snoc rs e :
  batch_keys (rs ++ [e]) = batch_keys rs ++ [article_key (RECORD_CONTENT e)].
Proof. unfold batch_keys. by rewrite fmap_app. Qed.

Section NewsInvariant.
Context (O : oracle) (n0 t0 : nat) (B : gset pykey).

Lemma news_inv_see_article article :
  inv (news_inv n0 t0 B true) (NewsPoller.see_article O article).
Proof.
  intros s Hinv. rewrite see_article_eq.
  destruct article as [| | | | |d]; try done.
  destruct (py_truthy _) eqn:Htrue; [|done].
  destruct (py_key _) as [k|] eqn:Hkey; [|done].
  destruct (decide _) as [|Hnew]; [done|].
  destruct Hinv as (Ht & Hn & Hks). split_and!; [done | done |].
  cbn. intros Heq. destruct (Hks Heq) as (Hnd & Hin & HB).
  rewrite batch_keys_snoc, app_assoc. cbn [RECORD_CONTENT].
  replace (article_key (JObj d)) with k by (unfold article_key; by rewrite Hkey).
  split_and!.
  - apply NoDup_app. split_and!; [done | | apply NoDup_singleton].
    intros k' Hk' ->%list_elem_of_singleton. by apply Hin in Hk' as [? _].
  - intros k' [Hk'| ->%list_elem_of_singleton]%elem_of_app.
    + destruct (Hin k' Hk'). split; [set_solver | done].
    + split; [set_solver | set_solver].
  - set_solver.
Qed.

Lemma news_inv_trim :
  inv (news_inv n0 t0 B true) (NewsPoller.trim_seen_ids O).
Proof.
  intros s (Ht & Hn & Hks). unfold NewsPoller.trim_seen_ids, bind, gets.
  cbn. destruct (decide _); [|done].
  unfold news_inv. simpl. split_and!; [lia | done | intros; lia].
Qed.

Lemma news_inv_enter s :
  news_inv n0 t0 B false s → news_inv n0 t0 B true (set_rows [] s).
Proof. done. Qed.

Lemma news_inv_fetch :
  inv (news_inv n0 t0 B true)
    (try_except
       (data <- api_get O (POLYGON_REST_URL +:+ "/v2/reference/news")
                  [("ticker"%string, JStr (String.concat "," TICKERS));
                   ("limit"%string, JInt 50);
                   ("sort"%string, JStr "published_utc");
                   ("order"%string, JStr "desc")] ;;
        results <- py_get data "results" (JArr []) ;;
        articles <- py_iter results ;;
        for_each articles (NewsPoller.see_article O) ;;;
        NewsPoller.trim_seen_ids O)%py
       (λ _, log)).
Proof.
  apply inv_try_except; [|intros; apply inv_log].
  apply inv_bind; [apply inv_api_get; intros; assumption | intros data].
  apply inv_bind; [apply inv_py_get | intros results].
  apply inv_bind; [apply inv_py_iter | intros articles].
  apply inv_bind; [| intros _; apply news_inv_trim].
  apply inv_for_each. apply news_inv_see_article.
Qed.

Lemma news_inv_ingest s :
  news_inv n0 t0 B true s →
  news_inv n0 t0 B false (ingest_rows O log s).2.
Proof.
  intros (Ht & Hn & Hks).
  destruct (decide (rows s = [])) as [Hrows|Hrows].
  - rewrite ingest_rows_nil by done. split_and!; [done | done |].
    intros Heq. specialize (Hks Heq). by rewrite Hrows in Hks.
  - rewrite ingest_rows_cons by done. cbn [snd].
    assert (∀ b, news_inv n0 t0 B false
              (set_env
                 (w_append
                    (AppendCall (rows s) (py_str (offset (self s)))
                       (py_str (offset (self s) + length (rows s))) b)
                    (env s))
                 (set_self
                    (with_offset (offset (self s) + length (rows s)) (self s))
                    s))) as Hcall.
    { intros b. split_and!; cbn; [done | rewrite length_app; lia |].
      intros Heq. rewrite drop_app_le, delivered_keys_snoc by done.
      cbn. rewrite app_nil_r. apply (Hks Heq). }
    destruct (append_ok O _); [|apply Hcall].
    destruct (Hcall true) as (Ht' & Hn' & Hks'). split_and!; [done | done |].
    exact Hks'.
Qed.

Lemma news_fetch_and_ingest_unfold s :
  (NewsPoller.fetch_and_ingest O s).2
  = (ingest_rows O log
       (try_except
          (data <- api_get O (POLYGON_REST_URL +:+ "/v2/reference/news")
                     [("ticker"%string, JStr (String.concat "," TICKERS));
                      ("limit"%string, JInt 50);
                      ("sort"%string, JStr "published_utc");
                      ("order"%string, JStr "desc")] ;;
           results <- py_get data "results" (JArr []) ;;
           articles <- py_iter results ;;
           for_each articles (NewsPoller.see_article O) ;;;
           NewsPoller.trim_seen_ids O)%py
          (λ _, log) (set_rows [] s)).2).2.
Proof.
  unfold NewsPoller.fetch_and_ingest.
  rewrite seq_total by apply total_modify.
  by rewrite seq_total by apply total_try_log.
Qed.

Lemma news_inv_cycle :
  inv (news_inv n0 t0 B false) (NewsPoller.fetch_and_ingest O).
Proof.
  intros s Hinv. rewrite news_fetch_and_ingest_unfold.
  by apply news_inv_ingest, news_inv_fetch, news_inv_enter.
Qed.

Lemma news_inv_run fuel :
  inv (news_inv n0 t0 B false) (NewsPoller.run O fuel).
Proof.
  apply inv_news_run; [by apply inv_is_set | apply news_inv_cycle].
Qed.
End NewsInvariant.

Lemma news_inv_start t0 n0 B (s : st NewsPoller.t) :
  t0 = trims (env s) → n0 = length (appended (env s)) →
  B ⊆ NewsPoller.seen_ids (self s) →
  news_inv n0 t0 B false s.
Proof.
  intros -> -> HB. split_and!; [done | done |].
  intros _. cbn. rewrite drop_all. cbn.
  split_and!; [apply NoDup_nil_2 | by intros k ?%elem_of_nil | done].
Qed.

(** C3: absent trimming, no article identifier is passed to [append_rows]
    twice in the life of the news poller, neither within one batch nor in
    two batches; and from any point on, an identifier that is in
    [seen_ids] is kept out of every later batch. *)
Theorem no_article_identifier_delivered_twice (O : oracle) (fuel : nat) :
  (let s := (NewsPoller.run O fuel NewsPoller.init).2 in
   trims (env s) = 0 → NoDup (delivered_keys (appended (env s)))) ∧
  (∀ s0 : st NewsPoller.t,
     let s := (NewsPoller.run O fuel s0).2 in
     trims (env s) = trims (env s0) →
     ∀ k, k ∈ NewsPoller.seen_ids (self s0) →
          k ∉ delivered_keys (drop (length (appended (env s0)))
                                (appended (env s)))).
Proof.
  split.
  - intros s Htrim.
    destruct (news_inv_run O 0 0 ∅ fuel NewsPoller.init) as (_ & _ & Hks).
    { by apply news_inv_start. }
    destruct (Hks Htrim) as (Hnd & _). cbn in Hnd.
    by rewrite app_nil_r in Hnd.
  - intros s0 s Htrim k Hk Hin.
    destruct (news_inv_run O (length (appended (env s0))) (trims (env s0))
                (NewsPoller.seen_ids (self s0)) fuel s0) as (_ & _ & Hks).
    { by apply news_inv_start. }
    destruct (Hks Htrim) as (_ & Hout & _). cbn in Hout.
    rewrite app_nil_r in Hout. by destruct (Hout k Hin).
Qed.

(** The scenario of the specification: the second cycle delivers a3 only. *)
Lemma no_article_identifier_delivered_twice_witness :
  let s := (NewsPoller.run dedup_oracle 2 NewsPoller.init).2 in
  NoDup (delivered_keys (appended (env s)))
  ∧ delivered_keys (appended (env s)) = [KStr "a1"; KStr "a2"; KStr "a3"].
Proof.
  intros s. split; [|reflexivity].
  apply (proj1 (no_article_identifier_delivered_twice dedup_oracle 2)).
  reflexivity.
Defined.

Section NewsFrame.
Context (O : oracle).

Lemma news_fetch_frame n tr :
  inv (λ s, total_ingested (self s) = n ∧ appended (env s) = tr)
    (try_except
       (data <- api_get O (POLYGON_REST_URL +:+ "/v2/reference/news")
                  [("ticker"%string, JStr (String.concat "," TICKERS));
                   ("limit"%string, JInt 50);
                   ("sort"%string, JStr "published_utc");
                   ("order"%string, JStr "desc")] ;;
        results <- py_get data "results" (JArr []) ;;
        articles <- py_iter results ;;
        for_each articles (NewsPoller.see_article O) ;;;
        NewsPoller.trim_seen_ids O)%py
       (λ _, log)).
Proof.
  unfold NewsPoller.see_article, NewsPoller.trim_seen_ids.
  inv_steps; intros; assumption.
Qed.

(** A cycle whose append call raises leaves [total_ingested] alone. *)
Lemma news_failed_cycle_total s c :
  let s1 := (NewsPoller.fetch_and_ingest O s).2 in
  appended (env s1) = appended (env s) ++ [c] → ac_ok c = false →
  total_ingested (self s1) = total_ingested (self s).
Proof.
  intros s1 Happ Hc. subst s1. rewrite news_fetch_and_ingest_unfold in *.
  set (loop := (try_except _ _ (set_rows [] s)).2) in *.
  destruct (news_fetch_frame (total_ingested (self s)) (appended (env s))
              (set_rows [] s)) as [Htot Hloop]; [done|].
  fold loop in Htot, Hloop.
  destruct (decide (rows loop = [])) as [Hrows|Hrows].
  - rewrite ingest_rows_nil in * by done. cbn [snd] in *.
    rewrite Hloop in Happ. apply (f_equal length) in Happ.
    rewrite length_app in Happ. simpl in Happ. lia.
  - rewrite ingest_rows_cons in * by done. cbn [snd] in *.
    destruct (append_ok O (length (appended (env loop)))) eqn:Hok.
    + cbn in Happ. rewrite Hloop in Happ.
      apply app_inj_tail in Happ as [_ <-]. cbn in Hc. congruence.
    + done.
Qed.
End NewsFrame.

(** C9: when the append call of a cycle of the news poller raises, the
    identifiers of the articles of the dropped batch are in [seen_ids]
    all the same, while [total_ingested] has not moved; and as long as no
    trim happens, no later cycle passes an article with one of these
    identifiers to [append_rows] again. *)
Theorem failed_append_suppresses_its_articles (O : oracle)
    (s : st NewsPoller.t) (c : append_call) (fuel : nat) :
  let s1 := (NewsPoller.fetch_and_ingest O s).2 in
  let s2 := (NewsPoller.run O fuel s1).2 in
  appended (env s1) = appended (env s) ++ [c] →
  ac_ok c = false →
  trims (env s2) = trims (env s) →
  total_ingested (self s1) = total_ingested (self s) ∧
  ∀ k, k ∈ batch_keys (ac_rows c) →
       k ∈ NewsPoller.seen_ids (self s1) ∧
       k ∉ delivered_keys (drop (length (appended (env s1)))
                             (appended (env s2))).
Proof.
  intros s1 s2 Happ Hc Htrim.
  split; [by eapply news_failed_cycle_total|].
  destruct (news_inv_cycle O (length (appended (env s))) (trims (env s)) ∅ s)
    as (Ht1 & _ & Hks1).
  { by apply news_inv_start. }
  fold s1 in Ht1, Hks1.
  destruct (news_inv_run O (length (appended (env s1))) (trims (env s1))
              (NewsPoller.seen_ids (self s1)) fuel s1) as (Ht2 & _ & Hks2).
  { by apply news_inv_start. }
  fold s2 in Ht2, Hks2.
  assert (trims (env s1) = trims (env s)) as Heq1 by lia.
  destruct (Hks1 Heq1) as (_ & Hin & _).
  destruct (Hks2 ltac:(lia)) as (_ & Hout & _).
  rewrite Happ, drop_app_length in Hin.
  cbn in Hin, Hout. rewrite !app_nil_r in Hin. rewrite app_nil_r in Hout.
  intros k Hk. destruct (Hin k Hk) as [Hseen _].
  split; [done|]. intros Hlater. by destruct (Hout k Hlater).
Qed.

(** The theorem at work: a1 and a2 are lost with the first batch; the next
    two cycles deliver a3 and nothing else. *)
Lemma failed_append_suppresses_its_articles_witness :
  let O := lost_batch_oracle in
  let s1 := (NewsPoller.fetch_and_ingest O NewsPoller.init).2 in
  let s2 := (NewsPoller.run O 2 s1).2 in
  (total_ingested (self s1) = total_ingested (self NewsPoller.init) ∧
   ∀ k, k ∈ batch_keys (ac_rows lost_batch_call) →
        k ∈ NewsPoller.seen_ids (self s1) ∧
        k ∉ delivered_keys (drop (length (appended (env s1)))
                              (appended (env s2))))
  ∧ batch_keys (ac_rows lost_batch_call) = [KStr "a1"; KStr "a2"]
  ∧ delivered_keys (drop 1 (appended (env s2))) = [KStr "a3"].
Proof.
  intros O s1 s2. split; [|split; reflexivity].
  apply (failed_append_suppresses_its_articles O NewsPoller.init
           lost_batch_call 2); reflexivity.
Defined.

(** * Articles without a usable id (C10) *)

Lemma truthy_key_not_falsy v v' k :
  py_truthy v = true → py_key v = Some k →
  py_truthy v' = false → py_key v' ≠ Some k.
Proof.
  intros Ht Hk Hf Hk'.
  destruct v as [|b|z|x| |], v' as [|b'|z'|x'| |]; simplify_eq/=.
  all: repeat match goal with
    | H : negb _ = true |- _ => apply negb_true_iff in H
    | H : negb _ = false |- _ => apply negb_false_iff in H
    | H : (_ =? _)%Z = true |- _ => apply Z.eqb_eq in H
    | H : (_ =? _)%Z = false |- _ => apply Z.eqb_neq in H
    | H : String.eqb _ _ = true |- _ => apply String.eqb_eq in H
    | H : String.eqb _ _ = false |- _ => apply String.eqb_neq in H
    end; try congruence.
  all: by repeat case_match.
Qed.

Lemma py_last_n_subseteq {A} n (l : list A) x : x ∈ py_last_n n l → x ∈ l.
Proof. unfold py_last_n. intros Hx. by eapply subseteq_drop. Qed.

Section Truthy.
Context (O : oracle) (Hsound : set_order_sound O).

Lemma truthy_inv_see_article article :
  inv truthy_inv (NewsPoller.see_article O article).
Proof.
  intros s (Hrows & Happ & Hseen). rewrite see_article_eq.
  destruct article as [| | | | |d]; try done.
  destruct (py_truthy _) eqn:Htrue; [|done].
  destruct (py_key _) as [k|] eqn:Hkey; [|done].
  destruct (decide _) as [|Hnew]; [done|].
  split_and!; cbn.
  - apply Forall_app. split; [done|]. by repeat constructor.
  - done.
  - intros v' k' Hf Hk' [->%elem_of_singleton|Hin]%elem_of_union.
    + by eapply truthy_key_not_falsy.
    + by eapply Hseen.
Qed.

Lemma truthy_inv_trim : inv truthy_inv (NewsPoller.trim_seen_ids O).
Proof.
  intros s (Hrows & Happ & Hseen).
  unfold NewsPoller.trim_seen_ids, bind, gets. cbn.
  destruct (decide _); [|done].
  split_and!; cbn; [done | done |].
  intros v k Hf Hk Hin%elem_of_list_to_set%py_last_n_subseteq.
  rewrite (Hsound _ _) in Hin. apply elem_of_elements in Hin.
  by eapply Hseen.
Qed.

Lemma truthy_inv_cycle : inv truthy_inv (NewsPoller.fetch_and_ingest O).
Proof.
  intros s (Hrows & Happ & Hseen). rewrite news_fetch_and_ingest_unfold.
  set (loop := (try_except _ _ (set_rows [] s)).2).
  assert (truthy_inv loop) as (Hrows' & Happ' & Hseen').
  { unfold loop.
    apply inv_try_except; [|intros; apply inv_log | by split_and!].
    apply inv_bind; [apply inv_api_get; intros; assumption | intros data].
    apply inv_bind; [apply inv_py_get | intros results].
    apply inv_bind; [apply inv_py_iter | intros articles].
    apply inv_bind; [| intros _; apply truthy_inv_trim].
    apply inv_for_each. apply truthy_inv_see_article. }
  destruct (decide (rows loop = [])) as [Hnil|Hcons].
  - rewrite ingest_rows_nil by done. by split_and!.
  - rewrite ingest_rows_cons by done. cbn [snd].
    destruct (append_ok O _); cbn.
    + split_and!; [done | | done].
      apply Forall_app. split; [done|]. by repeat constructor.
    + split_and!; [done | | done].
      apply Forall_app. split; [done|]. by repeat constructor.
Qed.

Lemma truthy_inv_run fuel : inv truthy_inv (NewsPoller.run O fuel).
Proof.
  apply inv_news_run; [by apply inv_is_set | apply truthy_inv_cycle].
Qed.
End Truthy.

(** C10: an article whose id is absent or false (None, "", 0, ...) is
    skipped without an exception and without a change of state, whatever
    else it holds; so in the life of the news poller no batch passed to
    [append_rows] holds an article without a true id, and no key of a
    false value is ever in [seen_ids]. *)
Theorem articles_without_id_are_skipped (O : oracle) :
  set_order_sound O →
  (∀ d s, py_truthy (default JNull (dict_get d "id")) = false →
          NewsPoller.see_article O (JObj d) s = (Ok tt, s)) ∧
  (∀ fuel,
     let s := (NewsPoller.run O fuel NewsPoller.init).2 in
     (∀ c e, c ∈ appended (env s) → e ∈ ac_rows c →
             py_truthy (article_id (RECORD_CONTENT e)) = true) ∧
     (∀ v k, py_truthy v = false → py_key v = Some k →
             k ∉ NewsPoller.seen_ids (self s))).
Proof.
  intros Hsound. split; [apply see_article_falsy|].
  intros fuel s.
  destruct (truthy_inv_run O Hsound fuel NewsPoller.init)
    as (_ & Happ & Hseen).
  { split_and!; [done | done | set_solver]. }
  fold s in Happ, Hseen. split; [|done].
  intros c e Hc He. rewrite Forall_forall in Happ.
  specialize (Happ c Hc). rewrite Forall_forall in Happ. by apply Happ.
Qed.

(** The theorem at work: of six articles, the two with a true id are
    delivered. *)
Lemma articles_without_id_are_skipped_witness :
  ((∀ d s, py_truthy (default JNull (dict_get d "id")) = false →
           NewsPoller.see_article falsy_oracle (JObj d) s = (Ok tt, s)) ∧
   (∀ fuel,
      let s := (NewsPoller.run falsy_oracle fuel NewsPoller.init).2 in
      (∀ c e, c ∈ appended (env s) → e ∈ ac_rows c →
              py_truthy (article_id (RECORD_CONTENT e)) = true) ∧
      (∀ v k, py_truthy v = false → py_key v = Some k →
              k ∉ NewsPoller.seen_ids (self s))))
  ∧ delivered_keys
      (appended (env (NewsPoller.run falsy_oracle 1 NewsPoller.init).2))
    = [KStr "a1"; KStr "a2"].
Proof.
  split; [|reflexivity].
  apply (articles_without_id_are_skipped falsy_oracle).
  intros n s. reflexivity.
Defined.

(** * The trim of [seen_ids] (C5) *)

Lemma SEEN_KEEP_le_CAP : SEEN_KEEP ≤ SEEN_CAP.
Proof. apply Nat.leb_le. vm_compute. reflexivity. Qed.

(** The part of C5 that holds: the trim cuts a set of more than
    [SEEN_CAP] identifiers down to exactly [SEEN_KEEP]. *)
Lemma trim_size O (s : st NewsPoller.t) :
  set_order_sound O →
  SEEN_CAP < size (NewsPoller.seen_ids (self s)) →
  size (NewsPoller.seen_ids (self (NewsPoller.trim_seen_ids O s).2))
  = SEEN_KEEP.
Proof.
  intros Hsound Hbig. unfold NewsPoller.trim_seen_ids, bind, gets. cbn.
  rewrite decide_True by done. cbn.
  pose proof (Hsound (trims (env s)) (NewsPoller.seen_ids (self s))) as Hperm.
  pose proof SEEN_KEEP_le_CAP as Hle.
  assert (length (set_order O (trims (env s)) (NewsPoller.seen_ids (self s)))
          = size (NewsPoller.seen_ids (self s))) as Hlen by by rewrite Hperm.
  rewrite size_list_to_set.
  - unfold py_last_n. rewrite length_drop. lia.
  - unfold py_last_n. eapply sublist_NoDup; [|apply sublist_drop].
    rewrite Hperm. apply NoDup_elements.
Qed.

Lemma dict_get_head k v d : dict_get ((k, v) :: d) k = Some v.
Proof. simpl. by rewrite decide_True. Qed.

Lemma fresh_envelopes_cons O clock z zs :
  fresh_envelopes O clock (z :: zs)
  = Envelope (article (JInt z))
      (Metadata (utc_now O clock) "polygon_rest_news" None)
    :: fresh_envelopes O (S clock) zs.
Proof.
  unfold fresh_envelopes. rewrite imap_cons, Nat.add_0_r. f_equal.
  apply imap_ext. intros i z' _. simpl. do 3 f_equal. lia.
Qed.

Lemma batch_keys_fresh_envelopes O clock zs :
  batch_keys (fresh_envelopes O clock zs) = KInt <$> zs.
Proof.
  revert clock. induction zs as [|z zs IH]; intros clock; [done|].
  rewrite fresh_envelopes_cons. unfold batch_keys in *. simpl.
  by rewrite IH.
Qed.

Lemma length_fresh_envelopes O clock zs :
  length (fresh_envelopes O clock zs) = length zs.
Proof. unfold fresh_envelopes. by rewrite length_imap. Qed.

Section FreshArticles.
Context (O : oracle).

(** One new article with a non-zero integer identifier. *)
Lemma see_fresh_int z (s : st NewsPoller.t) :
  z ≠ 0%Z → KInt z ∉ NewsPoller.seen_ids (self s) →
  NewsPoller.see_article O (article (JInt z)) s
  = (Ok tt,
     St (NewsPoller.with_seen_ids
           ({[KInt z]} ∪ NewsPoller.seen_ids (self s)) (self s))
        (rows s
           ++ [Envelope (article (JInt z))
                 (Metadata (utc_now O (clock_reads (env s)))
                    "polygon_rest_news" None)])
        (w_tick (env s))).
Proof.
  intros Hz Hnew. rewrite see_article_eq.
  change (article_id (article (JInt z))) with (JInt z).
  cbn [article py_truthy py_key].
  destruct (Z.eqb_spec z 0) as [|_]; [done|]. cbn [negb].
  by rewrite decide_False.
Qed.

(** Articles with integer identifiers, all new: each is recorded in
    [seen_ids] and wrapped. *)
Lemma see_fresh_ints zs (s : st NewsPoller.t) :
  NoDup zs →
  (∀ z, z ∈ zs → z ≠ 0%Z ∧ KInt z ∉ NewsPoller.seen_ids (self s)) →
  for_each (article <$> (JInt <$> zs)) (NewsPoller.see_article O) s
  = (Ok tt,
     St (NewsPoller.with_seen_ids
           (int_keys zs ∪ NewsPoller.seen_ids (self s)) (self s))
        (rows s ++ fresh_envelopes O (clock_reads (env s)) zs)
        (World (requests (env s)) (checks (env s))
           (clock_reads (env s) + length zs)
           (appended (env s)) (trims (env s)))).
Proof.
  revert s. induction zs as [|z zs IH];
    intros [[tot seen off] rs [rq ck cl ap tm]] Hnd Hfresh.
  - cbn. unfold ret, int_keys. cbn.
    by rewrite (left_id_L ∅ (∪)), app_nil_r, Nat.add_0_r.
  - apply NoDup_cons in Hnd as [Hz Hnd].
    destruct (Hfresh z ltac:(left)) as [Hz0 Hnew]. cbn in Hnew.
    cbn [fmap list_fmap for_each]. unfold bind at 1.
    rewrite see_fresh_int by done.
    rewrite IH; [| done |].
    + rewrite fresh_envelopes_cons.
      cbn [self rows env requests checks clock_reads appended trims w_tick
           NewsPoller.with_seen_ids NewsPoller.seen_ids
           NewsPoller.total_ingested NewsPoller.offset length].
      rewrite <- app_assoc. cbn [app]. unfold NewsPoller.with_seen_ids.
      cbn [NewsPoller.seen_ids NewsPoller.total_ingested NewsPoller.offset].
      do 2 f_equal.
      * f_equal. unfold int_keys. cbn [fmap list_fmap list_to_set].
        set_solver.
      * f_equal. lia.
    + intros z' Hz'. destruct (Hfresh z' ltac:(by right)) as [? Hout].
      split; [done|]. cbn in *.
      rewrite not_elem_of_union, not_elem_of_singleton. split; [|done].
      intros ?. by simplify_eq.
Qed.

Lemma news_fetch_and_ingest_total : total (NewsPoller.fetch_and_ingest O).
Proof.
  unfold NewsPoller.fetch_and_ingest.
  apply total_bind; [apply total_modify | intros _].
  apply total_bind; [apply total_try_log | intros _; apply ingest_rows_total].
Qed.

Lemma news_run_S n (s : st NewsPoller.t) :
  shutdown_is_set O (checks (env s)) = false →
  (NewsPoller.run O (S n) s).2
  = (NewsPoller.run O n
       (NewsPoller.fetch_and_ingest O (set_env (w_check (env s)) s)).2).2.
Proof.
  intros Hno. cbn [NewsPoller.run]. unfold bind at 1, is_set. rewrite Hno.
  by rewrite seq_total by apply news_fetch_and_ingest_total.
Qed.

Lemma api_get_returns {P} url params data (s : st P) :
  api_result O (length (requests (env s))) = Returns data →
  api_get O url params s
  = (Ok data, set_env (w_request (Request url params) (env s)) s).
Proof. intros Hres. unfold api_get. by rewrite Hres. Qed.

Lemma py_get_results {P} items (s : st P) :
  py_get (news_response items) "results" (JArr []) s
  = (Ok (JArr (article <$> items)), s).
Proof. unfold news_response. cbn [py_get]. by rewrite dict_get_head. Qed.

Lemma trim_seen_ids_eq (s : st NewsPoller.t) :
  NewsPoller.trim_seen_ids O s
  = (Ok tt,
     if decide (SEEN_CAP < size (NewsPoller.seen_ids (self s)))
     then set_env (w_trim (env s))
            (set_self
               (NewsPoller.with_seen_ids
                  (list_to_set
                     (py_last_n SEEN_KEEP
                        (set_order O (trims (env s))
                           (NewsPoller.seen_ids (self s)))))
                  (self s)) s)
     else s).
Proof.
  unfold NewsPoller.trim_seen_ids, bind, gets, modify, ret.
  by destruct (decide _).
Qed.

(** A cycle whose response holds new articles only, with integer
    identifiers: they all enter [seen_ids], the set is trimmed if it has
    grown beyond [SEEN_CAP], and the articles go out in one append call. *)
Lemma news_cycle_fresh zs (s : st NewsPoller.t) :
  api_result O (length (requests (env s)))
  = Returns (news_response (JInt <$> zs)) →
  zs ≠ [] → NoDup zs →
  (∀ z, z ∈ zs → z ≠ 0%Z ∧ KInt z ∉ NewsPoller.seen_ids (self s)) →
  let seen1 := int_keys zs ∪ NewsPoller.seen_ids (self s) in
  let s' := (NewsPoller.fetch_and_ingest O s).2 in
  length (requests (env s')) = S (length (requests (env s))) ∧
  checks (env s') = checks (env s) ∧
  NewsPoller.seen_ids (self s')
  = (if decide (SEEN_CAP < size seen1)
     then list_to_set
            (py_last_n SEEN_KEEP (set_order O (trims (env s)) seen1))
     else seen1) ∧
  trims (env s')
  = (if decide (SEEN_CAP < size seen1)
     then S (trims (env s)) else trims (env s)) ∧
  ∃ c, appended (env s') = appended (env s) ++ [c]
       ∧ batch_keys (ac_rows c) = KInt <$> zs.
Proof.
  intros Hres Hne Hnd Hfresh. cbv zeta.
  rewrite news_fetch_and_ingest_unfold.
  destruct s as [[tot seen off] rs [rq ck cl ap tm]]. cbn in Hres, Hfresh.
  rewrite try_log. cbn [snd].
  erewrite bind_ok by (by apply api_get_returns).
  erewrite bind_ok by apply py_get_results.
  erewrite bind_ok by reflexivity.
  erewrite bind_ok by (by apply see_fresh_ints).
  rewrite trim_seen_ids_eq.
  cbn [snd self rows env NewsPoller.seen_ids NewsPoller.with_seen_ids
       set_rows set_env set_self w_request w_trim
       requests checks clock_reads appended trims app].
  assert (fresh_envelopes O cl zs ≠ []) as Hrows.
  { intros Hnil%(f_equal length). rewrite length_fresh_envelopes in Hnil.
    by destruct zs. }
  destruct (decide (SEEN_CAP < size (int_keys zs ∪ seen))).
  - rewrite ingest_rows_cons by done. cbn.
    rewrite ?length_app. cbn.
    destruct (append_ok O (length ap)); cbn; rewrite ?length_app; cbn.
    all: split_and!; [lia | done | done | done |].
    all: eexists; split; [done|]; cbn; apply batch_keys_fresh_envelopes.
  - rewrite ingest_rows_cons by done. cbn.
    rewrite ?length_app. cbn.
    destruct (append_ok O (length ap)); cbn; rewrite ?length_app; cbn.
    all: split_and!; [lia | done | done | done |].
    all: eexists; split; [done|]; cbn; apply batch_keys_fresh_envelopes.
Qed.
End FreshArticles.

(** ** Sets of integer identifiers *)

Lemma elem_of_int_keys k zs : k ∈ int_keys zs ↔ ∃ z, k = KInt z ∧ z ∈ zs.
Proof. unfold int_keys. rewrite elem_of_list_to_set, list_elem_of_fmap. done. Qed.

Lemma elem_of_int_range z a n : KInt z ∈ int_range a n ↔ (a ≤ z < a + n)%Z.
Proof.
  unfold int_range. rewrite elem_of_int_keys. split.
  - intros (z' & [= <-] & Hz). by apply elem_of_seqZ.
  - intros Hz. exists z. split; [done|]. by apply elem_of_seqZ.
Qed.

#[local] Instance KInt_inj : Inj (=) (=) KInt.
Proof. by intros z1 z2 [=]. Qed.

Lemma size_int_keys zs : NoDup zs → size (int_keys zs) = length zs.
Proof.
  intros Hnd. unfold int_keys.
  rewrite size_list_to_set by by apply (NoDup_fmap_2 KInt).
  by rewrite length_fmap.
Qed.

Lemma size_int_range a n : size (int_range a n) = Z.to_nat n.
Proof.
  unfold int_range. rewrite size_int_keys by apply NoDup_seqZ.
  apply length_seqZ.
Qed.

Lemma int_keys_app zs1 zs2 : int_keys zs1 ∪ int_keys zs2 = int_keys (zs1 ++ zs2).
Proof. unfold int_keys. by rewrite fmap_app, list_to_set_app_L. Qed.

Lemma int_range_grow a n m :
  (0 ≤ n)%Z → (0 ≤ m)%Z →
  int_keys (seqZ (a + n) m) ∪ int_range a n = int_range a (n + m).
Proof.
  intros Hn Hm. unfold int_range. rewrite seqZ_app by done.
  unfold int_keys. rewrite fmap_app, list_to_set_app_L. set_solver.
Qed.

Lemma SEEN_CAP_Z : Z.of_nat SEEN_CAP = 5000%Z.
Proof. reflexivity. Qed.

Lemma SEEN_KEEP_Z : Z.of_nat SEEN_KEEP = 2500%Z.
Proof. reflexivity. Qed.

(** ** The iteration order of a set of small integers *)

#[local] Instance key_le_total : Total key_le.
Proof.
  intros [|x|x] [|y|y]; unfold key_le; simpl; auto.
  destruct (Z.leb_spec x y); [by left|right]. apply Z.leb_le. lia.
Qed.

#[local] Instance key_le_trans : Transitive key_le.
Proof.
  intros [|x|x] [|y|y] [|z|z]; unfold key_le; simpl; try done.
  rewrite !Z.leb_le. lia.
Qed.

Lemma ascending_ints zs :
  NoDup zs → Sorted Z.le zs → ascending (int_keys zs) = KInt <$> zs.
Proof.
  intros Hnd Hsorted. unfold ascending.
  apply (Sorted_unique_strong key_le).
  - intros k1 k2 _ (z2 & -> & _)%list_elem_of_fmap.
    destruct k1 as [|z1|]; unfold key_le; simpl; try done.
    rewrite !Z.leb_le. intros ??. f_equal. lia.
  - apply Sorted_merge_sort, _.
  - eapply Sorted_fmap; [|done]. intros x y Hxy. by apply Z.leb_le.
  - rewrite merge_sort_Permutation. unfold int_keys.
    apply elements_list_to_set. by apply (NoDup_fmap_2 KInt).
Qed.

(** ** The run that loses its latest articles *)

Lemma news_run_add O n m (s : st NewsPoller.t) :
  (∀ k, shutdown_is_set O k = false) →
  (NewsPoller.run O (n + m) s).2
  = (NewsPoller.run O m (NewsPoller.run O n s).2).2.
Proof.
  intros Hno. revert s. induction n as [|n IH]; intros s; [done|].
  cbn [Nat.add]. by rewrite !news_run_S, IH.
Qed.

Lemma seqZ_50_nonempty a : seqZ a 50 ≠ [].
Proof. intros H%(f_equal length). by rewrite length_seqZ in H. Qed.

(** The first hundred cycles: 50 new identifiers each, no trim. *)
Lemma churn_first_cycles n i (s : st NewsPoller.t) :
  i + n ≤ 100 →
  length (requests (env s)) = i →
  NewsPoller.seen_ids (self s) = int_range 1001 (50 * Z.of_nat i) →
  trims (env s) = 0 →
  length (appended (env s)) = i →
  let s' := (NewsPoller.run churn_oracle n s).2 in
  length (requests (env s')) = i + n ∧
  NewsPoller.seen_ids (self s') = int_range 1001 (50 * Z.of_nat (i + n)) ∧
  trims (env s') = 0 ∧
  length (appended (env s')) = i + n.
Proof.
  revert i s. induction n as [|n IH]; intros i s Hi Hreq Hseen Htrim Happ.
  { cbn. by rewrite Nat.add_0_r. }
  cbv zeta. rewrite news_run_S by done.
  destruct (news_cycle_fresh churn_oracle (seqZ (1001 + 50 * Z.of_nat i) 50)
              (set_env (w_check (env s)) s))
    as (Hreq' & _ & Hseen' & Htrim' & c & Happ' & _).
  { cbn [set_env env w_check requests churn_oracle api_result].
    rewrite Hreq. unfold churn_ids, churn_zs.
    by rewrite decide_True by lia. }
  { apply seqZ_50_nonempty. }
  { apply NoDup_seqZ. }
  { intros z Hz%elem_of_seqZ. cbn. rewrite Hseen, elem_of_int_range. lia. }
  cbn [set_env w_check env self requests appended trims]
    in Hreq', Hseen', Htrim', Happ'.
  rewrite Hseen, int_range_grow in Hseen' by lia.
  rewrite Hseen, int_range_grow in Htrim' by lia.
  pose proof SEEN_CAP_Z as Hcap.
  rewrite decide_False in Hseen' by (rewrite size_int_range; lia).
  rewrite decide_False in Htrim' by (rewrite size_int_range; lia).
  replace (i + S n) with (S i + n) by lia.
  apply IH.
  - lia.
  - by rewrite Hreq', Hreq.
  - rewrite Hseen'. f_equal. lia.
  - by rewrite Htrim'.
  - rewrite Happ', length_app, Happ. simpl. lia.
Qed.

Lemma latest_then_older_sorted :
  Sorted Z.le (seqZ 1 50 ++ seqZ 1001 5000).
Proof. apply (bool_decide_unpack _). vm_compute. reflexivity. Qed.

Lemma latest_then_older_NoDup : NoDup (seqZ 1 50 ++ seqZ 1001 5000).
Proof.
  apply NoDup_app. split_and!; [apply NoDup_seqZ | | apply NoDup_seqZ].
  intros z. rewrite !elem_of_seqZ. lia.
Qed.

Lemma last_SEEN_KEEP_of_latest_then_older :
  py_last_n SEEN_KEEP (KInt <$> (seqZ 1 50 ++ seqZ 1001 5000))
  = KInt <$> seqZ 3501 2500.
Proof. vm_compute. reflexivity. Qed.

Lemma trimmed_latest_then_older :
  list_to_set (py_last_n SEEN_KEEP (KInt <$> (seqZ 1 50 ++ seqZ 1001 5000)))
  = int_range 3501 2500.
Proof.
  unfold int_range, int_keys.
  rewrite last_SEEN_KEEP_of_latest_then_older. reflexivity.
Qed.

(** Cycle 101: the 50 latest articles arrive, the set grows to 5050
    identifiers, and the trim keeps the 2500 largest. *)
Lemma churn_cycle_101 (s : st NewsPoller.t) :
  length (requests (env s)) = 100 →
  NewsPoller.seen_ids (self s) = int_range 1001 5000 →
  let s' := (NewsPoller.fetch_and_ingest churn_oracle s).2 in
  length (requests (env s')) = 101 ∧
  NewsPoller.seen_ids (self s') = int_range 3501 2500 ∧
  trims (env s') = S (trims (env s)) ∧
  ∃ c, appended (env s') = appended (env s) ++ [c]
       ∧ batch_keys (ac_rows c) = KInt <$> seqZ 1 50.
Proof.
  intros Hreq Hseen.
  destruct (news_cycle_fresh churn_oracle (seqZ 1 50) s)
    as (Hreq' & _ & Hseen' & Htrim' & Happ').
  { cbn [churn_oracle api_result]. by rewrite Hreq. }
  { apply seqZ_50_nonempty. }
  { apply NoDup_seqZ. }
  { intros z Hz%elem_of_seqZ. rewrite Hseen, elem_of_int_range. lia. }
  assert (int_keys (seqZ 1 50) ∪ int_range 1001 5000
          = int_keys (seqZ 1 50 ++ seqZ 1001 5000)) as Hunion.
  { exact (int_keys_app (seqZ 1 50) (seqZ 1001 5000)). }
  rewrite Hseen, Hunion in Hseen', Htrim'.
  pose proof SEEN_CAP_Z as Hcap.
  assert (SEEN_CAP < size (int_keys (seqZ 1 50 ++ seqZ 1001 5000))) as Hbig.
  { rewrite size_int_keys by apply latest_then_older_NoDup.
    rewrite length_app, !length_seqZ. lia. }
  rewrite decide_True in Hseen' by done.
  rewrite decide_True in Htrim' by done.
  cbn [set_order churn_oracle] in Hseen'.
  rewrite ascending_ints in Hseen'
    by (apply latest_then_older_NoDup || apply latest_then_older_sorted).
  rewrite trimmed_latest_then_older in Hseen'.
  split_and!; [by rewrite Hreq', Hreq | exact Hseen' | exact Htrim' | exact Happ'].
Qed.

(** Cycle 102: the same 50 articles are back, their identifiers are gone
    from [seen_ids], and they are delivered a second time. *)
Lemma churn_cycle_102 (s : st NewsPoller.t) :
  length (requests (env s)) = 101 →
  NewsPoller.seen_ids (self s) = int_range 3501 2500 →
  let s' := (NewsPoller.fetch_and_ingest churn_oracle s).2 in
  trims (env s') = trims (env s) ∧
  ∃ c, appended (env s') = appended (env s) ++ [c]
       ∧ batch_keys (ac_rows c) = KInt <$> seqZ 1 50.
Proof.
  intros Hreq Hseen.
  destruct (news_cycle_fresh churn_oracle (seqZ 1 50) s)
    as (_ & _ & _ & Htrim' & Happ').
  { cbn [churn_oracle api_result]. by rewrite Hreq. }
  { apply seqZ_50_nonempty. }
  { apply NoDup_seqZ. }
  { intros z Hz%elem_of_seqZ. rewrite Hseen, elem_of_int_range. lia. }
  pose proof SEEN_CAP_Z as Hcap.
  rewrite decide_False in Htrim'; [done|].
  rewrite Hseen, size_union.
  - rewrite size_int_keys, length_seqZ, size_int_range by apply NoDup_seqZ. lia.
  - intros k (z & -> & Hz%elem_of_seqZ)%elem_of_int_keys Hin%elem_of_int_range.
    lia.
Qed.

Lemma churn_after_100 :
  let s := (NewsPoller.run churn_oracle 100 NewsPoller.init).2 in
  length (requests (env s)) = 100 ∧
  NewsPoller.seen_ids (self s) = int_range 1001 5000 ∧
  trims (env s) = 0 ∧
  length (appended (env s)) = 100.
Proof.
  pose proof (churn_first_cycles 100 0 NewsPoller.init) as H.
  cbv zeta in H. cbn [Nat.add] in H.
  replace (50 * Z.of_nat 100)%Z with 5000%Z in H by reflexivity.
  apply H; [lia | reflexivity | reflexivity | reflexivity | reflexivity].
Qed.

Lemma churn_last_two_cycles (s100 : st NewsPoller.t) :
  length (requests (env s100)) = 100 →
  NewsPoller.seen_ids (self s100) = int_range 1001 5000 →
  trims (env s100) = 0 →
  length (appended (env s100)) = 100 →
  let s := (NewsPoller.run churn_oracle 2 s100).2 in
  trims (env s) = 1
  ∧ (λ c, batch_keys (ac_rows c)) <$> drop 100 (appended (env s))
    = [KInt <$> seqZ 1 50; KInt <$> seqZ 1 50].
Proof.
  intros Hreq Hseen Htrim Happ. cbv zeta.
  rewrite !news_run_S by done. cbn [NewsPoller.run ret snd].
  destruct (churn_cycle_101 (set_env (w_check (env s100)) s100))
    as (Hreq1 & Hseen1 & Htrim1 & c1 & Happ1 & Hkeys1);
    [exact Hreq | exact Hseen |].
  remember (NewsPoller.fetch_and_ingest churn_oracle
              (set_env (w_check (env s100)) s100)).2 as s101 eqn:Hs101.
  clear Hs101.
  destruct (churn_cycle_102 (set_env (w_check (env s101)) s101))
    as (Htrim2 & c2 & Happ2 & Hkeys2); [exact Hreq1 | exact Hseen1 |].
  remember (NewsPoller.fetch_and_ingest churn_oracle
              (set_env (w_check (env s101)) s101)).2 as s102 eqn:Hs102.
  clear Hs102.
  cbn [set_env w_check env trims appended] in *.
  split; [by rewrite Htrim2, Htrim1, Htrim|].
  rewrite Happ2, Happ1, <- app_assoc, drop_app_length' by done.
  cbn [app fmap list_fmap]. by rewrite Hkeys1, Hkeys2.
Qed.

(** C5 fails on the code: which identifiers the trim keeps is decided by
    the iteration order of the set, not by how recently they were seen.
    Here the 50 latest articles (ids 1 to 50) are delivered in cycle 101,
    evicted by the trim of that very cycle (the one trim of the run), and
    delivered again in cycle 102. *)
Theorem trim_evicts_latest_articles :
  let s := (NewsPoller.run churn_oracle 102 NewsPoller.init).2 in
  trims (env s) = 1
  ∧ (λ c, batch_keys (ac_rows c)) <$> drop 100 (appended (env s))
    = [KInt <$> seqZ 1 50; KInt <$> seqZ 1 50].
Proof.
  cbv zeta.
  pose proof (news_run_add churn_oracle 100 2 NewsPoller.init
                (λ _, eq_refl)) as Hsplit.
  cbn [Nat.add] in Hsplit. rewrite Hsplit.
  destruct churn_after_100 as (Hreq & Hseen & Htrim & Happ).
  exact (churn_last_two_cycles _ Hreq Hseen Htrim Happ).
Qed.

(** * What every run keeps *)

Lemma inv_api_get_request O {P} (I : st P → Prop) url params :
  (∀ s, I s → I (set_env (w_request (Request url params) (env s)) s)) →
  inv I (api_get O url params).
Proof.
  intros H s Hs. unfold api_get.
  destruct (api_result O _); simpl; by apply H.
Qed.

Lemma inv_for_tickers_in O {P} (I : st P → Prop) ts body :
  inv I (is_set O) → (∀ t, t ∈ ts → inv I (body t)) →
  inv I (for_tickers O ts body).
Proof.
  intros Hc. induction ts as [|t ts IH]; intros Hb; simpl.
  - apply inv_ret.
  - apply inv_bind; [done | intros [|]; [apply inv_ret |]].
    apply inv_bind; [apply Hb; left | intros _].
    apply IH. intros t' Ht'. apply Hb. by right.
Qed.

Section Batches.
Context (O : oracle) `{PollerFields P} (Q : envelope → Prop).

(** A change of the world that makes no append call. *)
Lemma batches_hold_env (s : st P) w :
  appended w = appended (env s) →
  batches_hold Q s → batches_hold Q (set_env w s).
Proof. intros Hw [Hr Ha]. split; simpl; [done | by rewrite Hw]. Qed.

Lemma batches_hold_self (s : st P) p :
  batches_hold Q s → batches_hold Q (set_self p s).
Proof. by intros [Hr Ha]. Qed.

Lemma batches_hold_enter (s : st P) :
  batches_hold Q s → batches_hold Q (set_rows [] s).
Proof. intros [Hr Ha]. by split. Qed.

Lemma batches_hold_row (s : st P) e :
  Q e → batches_hold Q s → batches_hold Q (set_rows (rows s ++ [e]) s).
Proof.
  intros He [Hr Ha]. split; [|done]. simpl.
  apply Forall_app. split; [done | by constructor].
Qed.

(** The guard [if rows:] keeps an empty batch away from [append_rows]. *)
Lemma ingest_rows_batches (after : Py (st P) unit) :
  inv (batches_hold Q) after → inv (batches_hold Q) (ingest_rows O after).
Proof.
  intros Hafter s [Hr Ha].
  destruct (decide (rows s = [])) as [Hnil|Hcons].
  - by rewrite ingest_rows_nil.
  - rewrite ingest_rows_cons by done. cbn [snd].
    assert (∀ p a b ok,
              batches_hold Q
                (St (p : P) (rows s)
                   (w_append (AppendCall (rows s) a b ok) (env s)))) as Hcall.
    { intros p a b ok. split; [done|]. simpl.
      apply Forall_app. split; [done|]. by repeat constructor. }
    destruct (append_ok O _); [apply Hafter|]; apply Hcall.
Qed.

Lemma fetch_ticker_batches url src t :
  (∀ d now, Q (Envelope (JObj (dict_set d "ticker" (JStr t)))
                 (Metadata now src (Some t)))) →
  inv (batches_hold Q) (fetch_ticker_with (P:=P) O url src t).
Proof.
  intros HQ. unfold fetch_ticker_with.
  apply inv_try_except; [|intros; apply inv_log].
  apply inv_bind;
    [apply inv_api_get; intros; by apply batches_hold_env | intros data].
  apply inv_bind; [apply inv_py_get | intros results].
  apply inv_bind; [apply inv_py_iter | intros items].
  apply inv_for_each. intros item s Hs.
  destruct item as [| | | | |d]; try done.
  unfold bind, py_setitem, ret, utc_now_iso, rows_append, modify. cbn.
  apply (batches_hold_env (set_rows _ s)); [done|].
  by apply batches_hold_row.
Qed.

Lemma for_tickers_batches url src :
  (∀ t d now, t ∈ TICKERS →
     Q (Envelope (JObj (dict_set d "ticker" (JStr t)))
          (Metadata now src (Some t)))) →
  inv (batches_hold Q) (for_tickers O TICKERS (fetch_ticker_with (P:=P) O url src)).
Proof.
  intros HQ. apply inv_for_tickers_in.
  - apply inv_is_set. intros s. by apply batches_hold_env.
  - intros t Ht. apply fetch_ticker_batches. intros d now. by apply HQ.
Qed.
End Batches.

Section BatchesPerPoller.
Context (O : oracle) (Q : envelope → Prop).

Lemma agg_cycle_batches :
  (∀ t d now, t ∈ TICKERS →
     Q (Envelope (JObj (dict_set d "ticker" (JStr t)))
          (Metadata now "polygon_rest_aggs" (Some t)))) →
  inv (batches_hold Q) (AggregatePoller.fetch_and_ingest O).
Proof.
  intros HQ. unfold AggregatePoller.fetch_and_ingest.
  apply inv_bind; [apply inv_modify, batches_hold_enter | intros _].
  apply inv_bind; [| intros _; apply ingest_rows_batches, inv_log].
  rewrite agg_fetch_ticker_with. by apply for_tickers_batches.
Qed.

Lemma hist_cycle_batches :
  (∀ t d now, t ∈ TICKERS →
     Q (Envelope (JObj (dict_set d "ticker" (JStr t)))
          (Metadata now "polygon_rest_daily_bars" (Some t)))) →
  inv (batches_hold Q) (HistoricalAggPoller.fetch_and_ingest O).
Proof.
  intros HQ. unfold HistoricalAggPoller.fetch_and_ingest.
  apply inv_bind; [apply inv_gets | intros [|]; [apply inv_ret |]].
  apply inv_bind; [apply inv_modify, batches_hold_enter | intros _].
  apply inv_bind; [| intros _; apply ingest_rows_batches].
  - rewrite hist_fetch_ticker_with. by apply for_tickers_batches.
  - apply inv_bind; [| intros _; apply inv_log].
    apply inv_modify. intros s. apply batches_hold_self.
Qed.

Lemma news_cycle_batches :
  (∀ d k now, py_truthy (article_id (JObj d)) = true →
     py_key (article_id (JObj d)) = Some k →
     Q (Envelope (JObj d) (Metadata now "polygon_rest_news" None))) →
  inv (batches_hold Q) (NewsPoller.fetch_and_ingest O).
Proof.
  intros HQ. unfold NewsPoller.fetch_and_ingest.
  apply inv_bind; [apply inv_modify, batches_hold_enter | intros _].
  apply inv_bind; [| intros _; apply ingest_rows_batches, inv_log].
  apply inv_try_except; [|intros; apply inv_log].
  apply inv_bind;
    [apply inv_api_get; intros; by apply batches_hold_env | intros data].
  apply inv_bind; [apply inv_py_get | intros results].
  apply inv_bind; [apply inv_py_iter | intros articles].
  apply inv_bind; [apply inv_for_each; intros article | intros _].
  - intros s Hs. rewrite see_article_eq.
    destruct article as [| | | | |d]; try done.
    destruct (py_truthy _) eqn:Htrue; [|done].
    destruct (py_key _) as [k|] eqn:Hkey; [|done].
    destruct (decide _); [done|]. cbn [snd].
    apply (batches_hold_env Q (St _ _ (env s))); [done|].
    apply (batches_hold_self Q (set_rows _ s)).
    apply batches_hold_row; [by eapply HQ | done].
  - intros s Hs. rewrite trim_seen_ids_eq. cbn [snd].
    destruct (decide _); [|done].
    apply batches_hold_env; [done|]. by apply batches_hold_self.
Qed.

Lemma hist_run_batches fuel :
  (∀ t d now, t ∈ TICKERS →
     Q (Envelope (JObj (dict_set d "ticker" (JStr t)))
          (Metadata now "polygon_rest_daily_bars" (Some t)))) →
  inv (batches_hold Q) (HistoricalAggPoller.run O fuel).
Proof.
  intros HQ. apply inv_hist_run; [|by apply hist_cycle_batches].
  apply inv_is_set. intros s. by apply batches_hold_env.
Qed.

Lemma agg_run_batches fuel :
  (∀ t d now, t ∈ TICKERS →
     Q (Envelope (JObj (dict_set d "ticker" (JStr t)))
          (Metadata now "polygon_rest_aggs" (Some t)))) →
  inv (batches_hold Q) (AggregatePoller.run O fuel).
Proof.
  intros HQ. apply inv_agg_run; [|by apply agg_cycle_batches].
  apply inv_is_set. intros s. by apply batches_hold_env.
Qed.

Lemma news_run_batches fuel :
  (∀ d k now, py_truthy (article_id (JObj d)) = true →
     py_key (article_id (JObj d)) = Some k →
     Q (Envelope (JObj d) (Metadata now "polygon_rest_news" None))) →
  inv (batches_hold Q) (NewsPoller.run O fuel).
Proof.
  intros HQ. apply inv_news_run; [|by apply news_cycle_batches].
  apply inv_is_set. intros s. by apply batches_hold_env.
Qed.
End BatchesPerPoller.

Lemma batches_hold_start {P} Q (p : P) : batches_hold Q (St p [] world0).
Proof. split; constructor. Qed.

Lemma batches_hold_nonempty {P} Q (s : st P) :
  batches_hold Q s → Forall (λ c, ac_rows c ≠ []) (appended (env s)).
Proof. intros [_ Ha]. eapply Forall_impl; [exact Ha|]. by intros c [? _]. Qed.

Lemma batches_hold_elem {P} Q (s : st P) c e :
  batches_hold Q s → c ∈ appended (env s) → e ∈ ac_rows c → Q e.
Proof.
  intros [_ Ha] Hc He. rewrite Forall_forall in Ha.
  destruct (Ha c Hc) as [_ HQ]. rewrite Forall_forall in HQ. by apply HQ.
Qed.

(** X1: whatever the API answers and whatever the appends do, none of the
    three pollers ever passes an empty batch to [append_rows]: the guard
    [if rows:] stands before every call. *)
Theorem no_empty_batch_is_appended (O : oracle) (fuel : nat) :
  Forall (λ c, ac_rows c ≠ [])
    (appended (env (HistoricalAggPoller.run O fuel
                      HistoricalAggPoller.init).2)) ∧
  Forall (λ c, ac_rows c ≠ [])
    (appended (env (AggregatePoller.run O fuel AggregatePoller.init).2)) ∧
  Forall (λ c, ac_rows c ≠ [])
    (appended (env (NewsPoller.run O fuel NewsPoller.init).2)).
Proof.
  split_and!; apply (batches_hold_nonempty (λ _, True)).
  - apply hist_run_batches; [done | apply batches_hold_start].
  - apply agg_run_batches; [done | apply batches_hold_start].
  - apply news_run_batches; [done | apply batches_hold_start].
Qed.

(** * The two counters *)

Lemma batch_total_split tr :
  batch_total tr
  = batch_total (successful tr) + batch_total (unsuccessful tr).
Proof.
  unfold batch_total, successful, unsuccessful.
  induction tr as [|c tr IH]; [done|].
  destruct (ac_ok c) eqn:Hc.
  - rewrite filter_cons_True, (filter_cons_False (λ c, ac_ok c = false))
      by congruence.
    simpl. lia.
  - rewrite filter_cons_False, (filter_cons_True (λ c, ac_ok c = false))
      by congruence.
    simpl. lia.
Qed.

Lemma unsuccessful_rows tr :
  Forall (λ c, ac_rows c ≠ []) tr →
  batch_total (unsuccessful tr) = 0 ↔ Forall (λ c, ac_ok c = true) tr.
Proof.
  unfold batch_total, unsuccessful.
  induction 1 as [|c tr Hc _ IH]; [done|].
  rewrite Forall_cons. destruct (ac_ok c) eqn:Hok.
  - rewrite filter_cons_False by congruence. naive_solver.
  - rewrite filter_cons_True by done. simpl.
    destruct (ac_rows c); [done|]. simpl. split; [lia | naive_solver].
Qed.

Lemma offsets_track_account {P} `{PollerFields P} (s : st P) :
  offsets_track s → Forall (λ c, ac_rows c ≠ []) (appended (env s)) →
  counters_account s.
Proof.
  intros (Hoff & Htot & _) Hne. unfold counters_account. cbv zeta.
  pose proof (batch_total_split (appended (env s))) as Hsplit.
  split; [lia|]. rewrite <- (unsuccessful_rows _ Hne). lia.
Qed.

(** X2: in every run of each poller, [offset] is ahead of
    [total_ingested] by exactly the rows of the append calls that raised;
    the two counters agree if and only if no append call has raised (a
    batch is never empty, so a failed call always costs at least one
    row). *)
Theorem counters_differ_by_the_rows_of_failed_appends
    (O : oracle) (fuel : nat) :
  counters_account (HistoricalAggPoller.run O fuel HistoricalAggPoller.init).2 ∧
  counters_account (AggregatePoller.run O fuel AggregatePoller.init).2 ∧
  counters_account (NewsPoller.run O fuel NewsPoller.init).2.
Proof.
  split_and!; apply offsets_track_account.
  - apply inv_hist_run;
      [by apply inv_is_set | apply hist_fetch_and_ingest_offsets_track |].
    by split_and!.
  - apply (batches_hold_nonempty (λ _, True)).
    apply hist_run_batches; [done | apply batches_hold_start].
  - apply inv_agg_run;
      [by apply inv_is_set | apply agg_fetch_and_ingest_offsets_track |].
    by split_and!.
  - apply (batches_hold_nonempty (λ _, True)).
    apply agg_run_batches; [done | apply batches_hold_start].
  - apply inv_news_run;
      [by apply inv_is_set | apply news_fetch_and_ingest_offsets_track |].
    by split_and!.
  - apply (batches_hold_nonempty (λ _, True)).
    apply news_run_batches; [done | apply batches_hold_start].
Qed.

(** * The offset windows, over all append calls (C1) *)





(** * The shape of the envelopes *)

Lemma ticker_envelope_intro src t d now :
  t ∈ TICKERS →
  ticker_envelope src
    (Envelope (JObj (dict_set d "ticker" (JStr t)))
       (Metadata now src (Some t))).
Proof.
  intros Ht. split; [|by exists t].
  split; [done|]. exists t, (dict_set d "ticker" (JStr t)).
  split_and!; [done | done | apply dict_get_set].
Qed.

(** X3: every envelope a poller ever passes to [append_rows] carries the
    poller's own source tag.  Those of the two per-ticker pollers name one
    of the configured tickers in the metadata, and their content is a dict
    whose "ticker" field is that ticker, whatever the API sent under that
    key.  Those of the news poller carry no ticker in the metadata, and
    their content is a dict with an id that can be hashed. *)
Theorem every_envelope_carries_the_tags_of_its_poller
    (O : oracle) (fuel : nat) :
  (∀ c e,
     c ∈ appended (env (HistoricalAggPoller.run O fuel
                          HistoricalAggPoller.init).2) →
     e ∈ ac_rows c → ticker_envelope "polygon_rest_daily_bars" e) ∧
  (∀ c e,
     c ∈ appended (env (AggregatePoller.run O fuel AggregatePoller.init).2) →
     e ∈ ac_rows c → ticker_envelope "polygon_rest_aggs" e) ∧
  (∀ c e,
     c ∈ appended (env (NewsPoller.run O fuel NewsPoller.init).2) →
     e ∈ ac_rows c → news_envelope e).
Proof.
  split_and!; intros c e; apply batches_hold_elem.
  - apply hist_run_batches; [|apply batches_hold_start].
    intros t d now. apply ticker_envelope_intro.
  - apply agg_run_batches; [|apply batches_hold_start].
    intros t d now. apply ticker_envelope_intro.
  - apply news_run_batches; [|apply batches_hold_start].
    intros d k now _ Hk. split_and!; [done | done |]. by exists d, k.
Qed.

(** * The historical load *)

Lemma idle_frame O fuel p rq tr :
  inv (λ s, self s = p ∧ requests (env s) = rq ∧ appended (env s) = tr)
    (HistoricalAggPoller.idle O fuel).
Proof.
  induction fuel as [|fuel IH]; simpl; [apply inv_ret|].
  apply inv_bind; [by apply inv_is_set | intros [|]; [apply inv_ret | done]].
Qed.

(** X4: in its whole life the historical poller fetches each ticker at
    most once, in the order of [TICKERS] and up to the first shutdown test
    that finds the event set, and makes at most one append call; [loaded]
    tells whether that call returned.  The idle loop that follows makes no
    request and no append call, however long it runs. *)
Theorem historical_run_loads_at_most_once (O : oracle) (fuel : nat) :
  let s := (HistoricalAggPoller.run O fuel HistoricalAggPoller.init).2 in
  requests (env s) = ticker_request (hist_url O) <$> fetched O 0 TICKERS ∧
  ((appended (env s) = [] ∧ HistoricalAggPoller.loaded (self s) = false) ∨
   (∃ c, appended (env s) = [c] ∧ ac_rows c ≠ [] ∧
         HistoricalAggPoller.loaded (self s) = ac_ok c)).
Proof.
  cbv zeta. unfold HistoricalAggPoller.run.
  rewrite seq_total by apply hist_fetch_and_ingest_total.
  set (s1 := (HistoricalAggPoller.fetch_and_ingest O
                HistoricalAggPoller.init).2).
  destruct (idle_frame O fuel (self s1) (requests (env s1))
              (appended (env s1)) s1) as (-> & -> & ->); [done|].
  subst s1. rewrite hist_cycle_unfold, hist_fetch_ticker_with by done.
  set (s0 := set_rows [] HistoricalAggPoller.init).
  pose proof (for_tickers_requests O (hist_url O) "polygon_rest_daily_bars"
                TICKERS s0) as Hreq.
  destruct (for_tickers_frame O (hist_url O) "polygon_rest_daily_bars"
              TICKERS (self s0) (appended (env s0)) s0)
    as [Hself Happ]; [done|].
  set (loop := (for_tickers O TICKERS _ s0).2) in *.
  destruct (decide (rows loop = [])) as [Hnil|Hcons].
  - rewrite ingest_rows_nil by done. cbn [snd].
    rewrite Hreq, Hself, Happ. split; [done | by left].
  - rewrite ingest_rows_cons by done. cbn [snd].
    destruct (append_ok O _) eqn:Hok; cbn; rewrite Hreq, Happ.
    + split; [done | right]. eexists. by split_and!.
    + split; [done | right]. rewrite Hself. eexists. by split_and!.
Qed.

(** * No request once the shutdown event is set *)

Lemma inv_ingest_rows O `{PollerFields P} (I : st P → Prop) after :
  (∀ s p, I s → I (set_self p s)) →
  (∀ s c, I s → I (set_env (w_append c (env s)) s)) →
  inv I after → inv I (ingest_rows O after).
Proof.
  intros Hself Happ Hafter. unfold ingest_rows.
  apply inv_bind; [apply inv_gets | intros [|r rs]; [apply inv_ret |]].
  apply inv_try_except; [|intros; apply inv_log].
  apply inv_bind; [apply inv_modify; intros; by apply Hself | intros _].
  apply inv_bind; [apply inv_gets | intros off].
  apply inv_bind; [by apply inv_append_rows | intros _].
  apply inv_bind; [apply inv_modify; intros; by apply Hself | by intros _].
Qed.

Lemma api_get_raises O {P} url params e (s : st P) :
  api_result O (length (requests (env s))) = Raises e →
  api_get O url params s
  = (Raise e, set_env (w_request (Request url params) (env s)) s).
Proof. intros Hres. unfold api_get. by rewrite Hres. Qed.

Section Bounded.
Context (O : oracle) (c : nat).
Context (Hset : ∀ n, c ≤ n → shutdown_is_set O n = true).

Lemma requests_bounded_check {P} (s : st P) :
  requests_bounded c s → requests_bounded c (set_env (w_check (env s)) s).
Proof. intros [? ?]. split; simpl; lia. Qed.

Lemma clear_test_is_early n : shutdown_is_set O n = false → n < c.
Proof.
  intros Hn. destruct (decide (n < c)) as [|Hge]; [done|].
  rewrite Hset in Hn by lia. done.
Qed.

Lemma for_tickers_bounded {P} url src ts :
  inv (requests_bounded c)
    (for_tickers O ts (fetch_ticker_with (P:=P) O url src)).
Proof.
  induction ts as [|t ts IH]; intros s [Hck Hc]; [done|].
  rewrite for_tickers_cons.
  destruct (shutdown_is_set O (checks (env s))) eqn:Hstop.
  - by apply requests_bounded_check.
  - apply clear_test_is_early in Hstop.
    rewrite seq_total by apply fetch_ticker_total.
    apply IH.
    pose proof (fetch_ticker_checks O url src t (S (checks (env s)))
                  (set_env (w_check (env s)) s) eq_refl) as Hchecks.
    pose proof (fetch_ticker_requests O url src t
                  (set_env (w_check (env s)) s)) as Hreq.
    cbv beta in Hchecks. unfold requests_bounded.
    rewrite Hchecks, Hreq, length_app. simpl. lia.
Qed.

Lemma agg_cycle_bounded :
  inv (requests_bounded c) (AggregatePoller.fetch_and_ingest O).
Proof.
  unfold AggregatePoller.fetch_and_ingest.
  apply inv_bind; [by apply inv_modify | intros _].
  apply inv_bind; [| intros _; apply inv_ingest_rows; [done | done |]].
  - rewrite agg_fetch_ticker_with. apply for_tickers_bounded.
  - apply inv_log.
Qed.

Lemma hist_cycle_bounded :
  inv (requests_bounded c) (HistoricalAggPoller.fetch_and_ingest O).
Proof.
  unfold HistoricalAggPoller.fetch_and_ingest.
  apply inv_bind; [apply inv_gets | intros [|]; [apply inv_ret |]].
  apply inv_bind; [by apply inv_modify | intros _].
  apply inv_bind; [| intros _; apply inv_ingest_rows; [done | done |]].
  - rewrite hist_fetch_ticker_with. apply for_tickers_bounded.
  - apply inv_bind; [by apply inv_modify | intros _; apply inv_log].
Qed.

(** A cycle of the news poller makes one request and no shutdown test. *)
Lemma news_cycle_requests s :
  let s' := (NewsPoller.fetch_and_ingest O s).2 in
  requests (env s') = requests (env s) ++ [news_request] ∧
  checks (env s') = checks (env s).
Proof.
  cbv zeta. rewrite news_fetch_and_ingest_unfold.
  match goal with |- context [ingest_rows O log ?s1] =>
    enough (requests (env s1) = requests (env s) ++ [news_request]
            ∧ checks (env s1) = checks (env s)) as [<- <-];
    [apply (inv_ingest_rows O
              (λ s2, requests (env s2) = requests (env s1)
                     ∧ checks (env s2) = checks (env s1)));
     [done | done | apply inv_log | done] |]
  end.
  rewrite try_log. cbn [snd]. change (Request _ _) with news_request.
  change (api_get O _ _)
    with (api_get (P:=NewsPoller.t) O (req_url news_request)
            (req_params news_request)).
  destruct (api_result O (length (requests (env (set_rows [] s)))))
    as [data|e] eqn:Hres.
  - rewrite (bind_ok _ _ _ _ _ (api_get_returns O _ _ data _ Hres)).
    match goal with |- requests (env (?m ?s1).2) = ?X ∧ _ = ?Y =>
      enough (Hinv : inv (λ s', requests (env s') = X
                                ∧ checks (env s') = Y) m)
        by (by apply Hinv)
    end.
    unfold NewsPoller.see_article, NewsPoller.trim_seen_ids.
    inv_steps; intros; assumption.
  - by rewrite (bind_raise _ _ _ _ _ (api_get_raises O _ _ e _ Hres)).
Qed.

Lemma news_run_bounded fuel :
  inv (requests_bounded c) (NewsPoller.run O fuel).
Proof.
  induction fuel as [|fuel IH]; intros s [Hck Hc]; [done|].
  cbn [NewsPoller.run]. unfold bind at 1, is_set.
  destruct (shutdown_is_set O (checks (env s))) eqn:Hstop.
  - by apply requests_bounded_check.
  - apply clear_test_is_early in Hstop.
    rewrite seq_total by apply news_fetch_and_ingest_total.
    apply IH.
    destruct (news_cycle_requests (set_env (w_check (env s)) s))
      as [Hreq Hchecks].
    unfold requests_bounded. rewrite Hreq, Hchecks, length_app. simpl. lia.
Qed.
End Bounded.

(** X5: each request of a poller follows a shutdown test of its own that
    found the event clear.  So when the event is set by the poller's test
    number [c] and stays set (nothing in the program clears it), the
    poller makes no more than [c] requests in its whole run: once a test
    has found the event set, no further request goes out. *)
Theorem no_request_after_shutdown (O : oracle) (c fuel : nat) :
  (∀ n, c ≤ n → shutdown_is_set O n = true) →
  length (requests (env (HistoricalAggPoller.run O fuel
                           HistoricalAggPoller.init).2)) ≤ c ∧
  length (requests (env (AggregatePoller.run O fuel
                           AggregatePoller.init).2)) ≤ c ∧
  length (requests (env (NewsPoller.run O fuel NewsPoller.init).2)) ≤ c.
Proof.
  intros Hset.
  assert (∀ P (p : P), requests_bounded c (St p [] world0)) as Hstart.
  { intros P p. split; simpl; lia. }
  split_and!.
  - apply (inv_hist_run O (requests_bounded c) fuel);
      [| by apply hist_cycle_bounded | apply Hstart].
    apply inv_is_set. intros s. apply requests_bounded_check.
  - apply (inv_agg_run O (requests_bounded c) fuel);
      [| by apply agg_cycle_bounded | apply Hstart].
    apply inv_is_set. intros s. apply requests_bounded_check.
  - apply (news_run_bounded O c Hset fuel), Hstart.
Qed.

(** With the event set from the fourth test on, three requests at most. *)
Lemma no_request_after_shutdown_witness :
  length (requests (env (HistoricalAggPoller.run (shutdown_oracle 3) 5
                           HistoricalAggPoller.init).2)) ≤ 3 ∧
  length (requests (env (AggregatePoller.run (shutdown_oracle 3) 5
                           AggregatePoller.init).2)) ≤ 3 ∧
  length (requests (env (NewsPoller.run (shutdown_oracle 3) 5
                           NewsPoller.init).2)) ≤ 3.
Proof.
  apply (no_request_after_shutdown (shutdown_oracle 3) 3 5).
  intros n Hn. simpl. by apply bool_decide_eq_true.
Defined.

(** * The offset tokens *)

Lemma windows_from_tokens base tr :
  windows_from base tr → Forall (λ c, ac_rows c ≠ []) tr →
  Forall (λ c, ∃ a b, start_offset_token c = py_str a
                      ∧ end_offset_token c = py_str b
                      ∧ base ≤ a < b) tr
  ∧ tokens_never_repeat tr.
Proof.
  intros Hw Hne. revert base Hw.
  induction Hne as [|c tr Hc _ IH]; intros base Hw.
  { split; [done|]. split_and!; constructor. }
  destruct Hw as (Hs & He & Hw).
  destruct (IH _ Hw) as (Hin & Hst & Hen & Hse).
  assert (0 < length (ac_rows c)) as Hlen.
  { destruct (ac_rows c); [done | simpl; lia]. }
  rewrite Forall_forall in Hin.
  split.
  - constructor.
    + exists base, (base + length (ac_rows c)).
      split_and!; [done | done | lia | lia].
    + apply Forall_forall. intros c' Hc'.
      destruct (Hin c' Hc') as (a & b & ? & ? & ?).
      exists a, b. split_and!; [done | done | lia | lia].
  - split_and!; simpl.
    + constructor; [|done].
      intros (c' & Heq & Hc')%list_elem_of_fmap.
      destruct (Hin c' Hc') as (a & b & Ha & _ & Hab).
      rewrite Hs, Ha in Heq. apply (inj py_str) in Heq. lia.
    + constructor; [|done].
      intros (c' & Heq & Hc')%list_elem_of_fmap.
      destruct (Hin c' Hc') as (a & b & _ & Hb & Hab).
      rewrite He, Hb in Heq. apply (inj py_str) in Heq. lia.
    + constructor; [|done]. rewrite Hs, He.
      intros Heq. apply (inj py_str) in Heq. lia.
Qed.

Lemma offsets_track_tokens {P} `{PollerFields P} (s : st P) :
  offsets_track s → Forall (λ c, ac_rows c ≠ []) (appended (env s)) →
  tokens_never_repeat (appended (env s)).
Proof. intros (_ & _ & Hw) Hne. by eapply windows_from_tokens. Qed.

(** X6: in the life of a poller no offset token is used twice: no two
    append calls start at the same token, no two end at the same token, and
    no call ends at the token it starts at, whether the calls returned or
    raised. *)
Theorem offset_tokens_never_repeat (O : oracle) (fuel : nat) :
  tokens_never_repeat
    (appended (env (HistoricalAggPoller.run O fuel
                      HistoricalAggPoller.init).2)) ∧
  tokens_never_repeat
    (appended (env (AggregatePoller.run O fuel AggregatePoller.init).2)) ∧
  tokens_never_repeat
    (appended (env (NewsPoller.run O fuel NewsPoller.init).2)).
Proof.
  split_and!; apply offsets_track_tokens.
  - apply inv_hist_run;
      [by apply inv_is_set | apply hist_fetch_and_ingest_offsets_track |].
    by split_and!.
  - apply (batches_hold_nonempty (λ _, True)).
    apply hist_run_batches; [done | apply batches_hold_start].
  - apply inv_agg_run;
      [by apply inv_is_set | apply agg_fetch_and_ingest_offsets_track |].
    by split_and!.
  - apply (batches_hold_nonempty (λ _, True)).
    apply agg_run_batches; [done | apply batches_hold_start].
  - apply inv_news_run;
      [by apply inv_is_set | apply news_fetch_and_ingest_offsets_track |].
    by split_and!.
  - apply (batches_hold_nonempty (λ _, True)).
    apply news_run_batches; [done | apply batches_hold_start].
Qed.

(** * Item assignment *)

Lemma dict_get_set_ne d k v k' :
  k' ≠ k → dict_get (dict_set d k v) k' = dict_get d k'.
Proof.
  intros Hne. induction d as [|[k0 v0] d IH]; cbn [dict_set dict_get].
  - destruct (decide (k = k')); [congruence | done].
  - destruct (decide (k0 = k)) as [->|]; cbn [dict_get].
    + destruct (decide (k = k')); [congruence | done].
    + destruct (decide (k0 = k')); [done | exact IH].
Qed.

Lemma dict_set_keys d k v :
  (dict_set d k v).*1 = if decide (k ∈ d.*1) then d.*1 else d.*1 ++ [k].
Proof.
  induction d as [|[k0 v0] d IH]; cbn [dict_set fmap list_fmap fst].
  - destruct (decide (k ∈ [])) as [Hin|]; [by apply elem_of_nil in Hin | done].
  - destruct (decide (k0 = k)) as [->|Hne]; cbn [fmap list_fmap fst].
    + destruct (decide (k ∈ k :: _)) as [|Hout]; [done|].
      destruct Hout. left.
    + change (list_fmap _ _ fst ?l) with (l.*1). rewrite IH.
      destruct (decide (k ∈ d.*1)) as [Hin|Hout];
        destruct (decide (k ∈ k0 :: d.*1)) as [Hin'|Hout']; try done.
      * destruct Hout'. by right.
      * apply elem_of_cons in Hin' as [?|?]; [congruence | done].
Qed.

(** X7: [obj[k] = v] on a dict sets the field [k] and nothing else: every
    other field reads as before, the keys keep their order, and [k] is
    added at the end when it was absent; the run state is not touched.  On
    anything but a dict it raises [TypeError].  This is what
    [bar["ticker"] = ticker] does to a record of the API: a "ticker" field
    of the payload is overwritten, the rest of the record is passed on. *)
Theorem item_assignment_sets_one_field {P} (obj : json) (k : string)
    (v : json) (s : st P) :
  match obj with
  | JObj d =>
      ∃ d', py_setitem obj k v s = (Ok (JObj d'), s)
            ∧ dict_get d' k = Some v
            ∧ (∀ k', k' ≠ k → dict_get d' k' = dict_get d k')
            ∧ d'.*1 = (if decide (k ∈ d.*1) then d.*1 else d.*1 ++ [k])
  | _ => py_setitem obj k v s = (Raise TypeError, s)
  end.
Proof.
  destruct obj as [| | | | |d]; try reflexivity.
  exists (dict_set d k v). split_and!.
  - reflexivity.
  - apply dict_get_set.
  - intros k'. apply dict_get_set_ne.
  - apply dict_set_keys.
Qed.

(** * One cycle of the news poller *)

Section NewsLoop.
Context (O : oracle).

Lemma news_loop_adds_nil s0 : news_loop_adds [] s0 (Ok tt, s0) [].
Proof.
  unfold news_loop_adds. cbn. rewrite app_nil_r.
  split_and!; try done; [set_solver | constructor | set_solver |].
  intros _. split; [done|]. by intros a k ?%elem_of_nil.
Qed.

(** An article the loop raises on ends it. *)
Lemma news_loop_adds_raise a l s0 e :
  ¬ usable_article a → news_loop_adds (a :: l) s0 (Raise e, s0) [].
Proof.
  intros Hbad. unfold news_loop_adds. cbn. rewrite app_nil_r.
  split_and!; try done;
    [apply sublist_nil_l | set_solver | constructor | set_solver |].
  by intros [? _]%Forall_cons.
Qed.

(** An article that is skipped: its id is false or has been seen. *)
Lemma news_loop_adds_skip a l s0 r new :
  usable_article a →
  (∀ k, py_truthy (article_id a) = true → py_key (article_id a) = Some k →
        k ∈ NewsPoller.seen_ids (self s0)) →
  news_loop_adds l s0 r new → news_loop_adds (a :: l) s0 r new.
Proof.
  intros Hu Hskip (H1 & H2 & H3 & H4 & H5 & H6 & H7 & H8 & H9 & H10 & H11).
  unfold news_loop_adds. split_and!; try done.
  - by apply sublist_cons.
  - intros k Hk. destruct (H10 k Hk) as (? & a' & ? & ? & ?).
    split; [done|]. exists a'. split_and!; [by right | done | done].
  - intros [_ Hl]%Forall_cons. destruct (H11 Hl) as [Hok Hall].
    split; [done|]. intros a' k [->|Ha]%elem_of_cons Ht Hk Hnew.
    + destruct Hnew. by apply Hskip.
    + by eapply Hall.
Qed.

(** A new article: it enters [seen_ids] and [rows]. *)
Lemma news_loop_adds_new d k l (s0 : st NewsPoller.t) now r new :
  py_truthy (article_id (JObj d)) = true →
  py_key (article_id (JObj d)) = Some k →
  k ∉ NewsPoller.seen_ids (self s0) →
  let e := Envelope (JObj d) (Metadata now "polygon_rest_news" None) in
  news_loop_adds l
    (St (NewsPoller.with_seen_ids ({[k]} ∪ NewsPoller.seen_ids (self s0))
           (self s0))
        (rows s0 ++ [e]) (w_tick (env s0))) r new →
  news_loop_adds (JObj d :: l) s0 r (e :: new).
Proof.
  intros Htrue Hkey Hnew e.
  intros (H1 & H2 & H3 & H4 & H5 & H6 & H7 & H8 & H9 & H10 & H11).
  cbn in H1, H3, H4, H5, H6, H7, H8, H10, H11.
  assert (article_key (JObj d) = k) as Hak
    by (unfold article_key; by rewrite Hkey).
  unfold news_loop_adds, batch_keys in *.
  cbn [fmap list_fmap RECORD_CONTENT e]. rewrite Hak.
  split_and!; try done.
  - by rewrite H1, <- app_assoc.
  - by apply sublist_skip.
  - rewrite H8. cbn. set_solver.
  - constructor; [|done]. intros Hk. apply H10 in Hk as [Hk _]. set_solver.
  - intros k' [->|Hk']%elem_of_cons.
    + split; [done|]. exists (JObj d). split_and!; [left | done | done].
    + destruct (H10 k' Hk') as (Hout & a & ? & ? & ?).
      split; [set_solver|]. exists a. split_and!; [by right | done | done].
  - intros [_ Hl]%Forall_cons. destruct (H11 Hl) as [Hok Hall].
    split; [done|]. intros a k' [->|Ha]%elem_of_cons Ht Hk Hout.
    + assert (k' = k) as -> by congruence. left.
    + destruct (decide (k' = k)) as [->|Hne]; [left|].
      right. eapply Hall; [done | done | done |]. set_solver.
Qed.

(** What the loop over the articles adds to [rows] and to [seen_ids]. *)
Lemma see_articles_spec l (s0 : st NewsPoller.t) :
  ∃ new, news_loop_adds l s0 (for_each l (NewsPoller.see_article O) s0) new.
Proof.
  revert s0. induction l as [|a l IH]; intros s0.
  { exists []. apply news_loop_adds_nil. }
  cbn [for_each].
  pose proof (see_article_eq O a s0) as Hsee.
  destruct a as [| | | | |d];
    try (rewrite (bind_raise _ _ _ _ _ Hsee); exists [];
         apply news_loop_adds_raise; by intros []).
  destruct (py_truthy (article_id (JObj d))) eqn:Htrue.
  2:{ rewrite (bind_ok _ _ _ _ _ Hsee). destruct (IH s0) as [new Hnew].
      exists new. apply news_loop_adds_skip; [| |done].
      - unfold usable_article. intros. congruence.
      - intros. congruence. }
  destruct (py_key (article_id (JObj d))) as [k|] eqn:Hkey.
  2:{ rewrite (bind_raise _ _ _ _ _ Hsee). exists [].
      apply news_loop_adds_raise. unfold usable_article. intros Hu.
      specialize (Hu Htrue). rewrite Hkey in Hu. by destruct Hu. }
  destruct (decide (k ∈ NewsPoller.seen_ids (self s0))) as [Hseen|Hnew].
  { rewrite (bind_ok _ _ _ _ _ Hsee). destruct (IH s0) as [new Hnew].
    exists new. apply news_loop_adds_skip; [| |done].
    - unfold usable_article. intros _. by rewrite Hkey.
    - intros k' _ Hk'. congruence. }
  set (s1 := St (NewsPoller.with_seen_ids
                   ({[k]} ∪ NewsPoller.seen_ids (self s0)) (self s0))
                (rows s0
                   ++ [Envelope (JObj d)
                         (Metadata (utc_now O (clock_reads (env s0)))
                            "polygon_rest_news" None)])
                (w_tick (env s0))).
  rewrite (bind_ok _ _ s0 tt s1 Hsee).
  destruct (IH s1) as [new Hadds].
  eexists. by apply (news_loop_adds_new d k).
Qed.
End NewsLoop.

Lemma for_each_app {S A} (l1 l2 : list A) (body : A → Py S unit) s :
  for_each (l1 ++ l2) body s
  = bind (for_each l1 body) (λ _, for_each l2 body) s.
Proof.
  revert s. induction l1 as [|x l1 IH]; intros s; [done|].
  cbn [app for_each]. unfold bind.
  destruct (body x s) as [[[]|e] s1]; [|done]. by rewrite IH.
Qed.

Section NewsCycle.
Context (O : oracle).

(** A cycle is its [try] block followed by the append of [rows]. *)
Lemma news_cycle_eq s :
  (NewsPoller.fetch_and_ingest O s).2
  = (ingest_rows O log (news_after_loop O s)).2.
Proof.
  rewrite news_fetch_and_ingest_unfold.
  apply (f_equal (λ x, (ingest_rows O log x).2)).
  rewrite try_log. cbn [snd]. unfold news_after_loop. cbv zeta.
  change (Request _ _) with news_request.
  change (api_get O _ _)
    with (api_get (P:=NewsPoller.t) O (req_url news_request)
            (req_params news_request)).
  destruct (api_result O (length (requests (env s)))) as [data|e] eqn:Hres.
  2:{ by rewrite (bind_raise _ _ _ _ _
                    (api_get_raises O _ _ e (set_rows [] s) Hres)). }
  rewrite (bind_ok _ _ _ _ _ (api_get_returns O _ _ data (set_rows [] s) Hres)).
  fold (news_loop_start s).
  destruct data as [| | | | |d]; try reflexivity.
  cbn [py_get iterated]. erewrite bind_ok by reflexivity.
  destruct (default (JArr []) (dict_get d "results")) as [| | |str|l|d'];
    try reflexivity; cbn [py_iter]; (erewrite bind_ok by reflexivity);
    unfold bind; by destruct (for_each _ _ _) as [[[]|e] s1].
Qed.

Lemma ingest_rows_seen_ids (s : st NewsPoller.t) :
  NewsPoller.seen_ids (self (ingest_rows O log s).2)
  = NewsPoller.seen_ids (self s)
  ∧ trims (env (ingest_rows O log s).2) = trims (env s).
Proof.
  destruct (decide (rows s = [])) as [Hnil|Hcons].
  - by rewrite ingest_rows_nil.
  - rewrite ingest_rows_cons by done. cbn [snd].
    by destruct (append_ok O _).
Qed.

(** What a cycle passes to [append_rows] is the [rows] its [try] block
    leaves. *)
Lemma news_cycle_delivered s :
  appended (env (news_after_loop O s)) = appended (env s) →
  delivered_since s (NewsPoller.fetch_and_ingest O s).2
  = rows (news_after_loop O s).
Proof.
  intros Happ. rewrite news_cycle_eq. unfold delivered_since.
  set (L := news_after_loop O s) in *.
  destruct (decide (rows L = [])) as [Hnil|Hcons].
  - rewrite ingest_rows_nil by done. cbn [snd].
    by rewrite Happ, drop_all, Hnil.
  - rewrite ingest_rows_cons by done. cbn [snd].
    assert (∀ p a b ok,
              drop (length (appended (env s)))
                (appended (env (set_env
                   (w_append (AppendCall (rows L) a b ok) (env L))
                   (set_self (p : NewsPoller.t) L)))) ≫= ac_rows
              = rows L) as Hcall.
    { intros p a b ok. cbn. rewrite Happ, drop_app_length. cbn.
      by rewrite app_nil_r. }
    destruct (append_ok O _); apply Hcall.
Qed.

(** The [try] block, through the loop it runs. *)
Lemma news_after_loop_spec s :
  let out := api_result O (length (requests (env s))) in
  let L := news_after_loop O s in
  appended (env L) = appended (env s) ∧
  ∃ r, news_loop_adds (response_articles out) (news_loop_start s) r (rows L)
       ∧ (r.1 = Ok tt → iterated out ≠ None →
          L = (NewsPoller.trim_seen_ids O r.2).2)
       ∧ (r.1 ≠ Ok tt ∨ iterated out = None → L = r.2).
Proof.
  cbv zeta. unfold news_after_loop, response_articles. cbv zeta.
  destruct (iterated _) as [l|]; cbn [default].
  2:{ split; [done|]. exists (Ok tt, news_loop_start s).
      split_and!; [apply news_loop_adds_nil | done | done]. }
  destruct (see_articles_spec O l (news_loop_start s)) as [new Hadds].
  pose proof Hadds as (H1 & _ & _ & H4 & _).
  destruct (for_each l _ _) as [[[]|e] s1] eqn:Hloop; cbn [fst snd] in *.
  - rewrite trim_seen_ids_eq. cbn [snd].
    assert (rows (if decide (SEEN_CAP < size (NewsPoller.seen_ids (self s1)))
                  then set_env (w_trim (env s1))
                         (set_self
                            (NewsPoller.with_seen_ids
                               (list_to_set
                                  (py_last_n SEEN_KEEP
                                     (set_order O (trims (env s1))
                                        (NewsPoller.seen_ids (self s1)))))
                               (self s1)) s1)
                  else s1) = new) as Hrows by (by destruct (decide _)).
    split; [by destruct (decide _)|].
    exists (Ok tt, s1). rewrite Hrows.
    split_and!; [done | intros _ _; by rewrite trim_seen_ids_eq |].
    by intros [|].
  - split; [done|]. exists (Raise e, s1). cbn [fst snd].
    rewrite H1. split_and!; [done | done | done].
Qed.
End NewsCycle.

(** X8: whatever the API answers, the batch a cycle of the news poller
    passes to [append_rows] is drawn from the articles of the response, in
    the order of the response and without a change to an article; no two
    articles of the batch have the same identifier, and none of the
    identifiers was in [seen_ids] when the cycle began. *)
Theorem news_batch_is_drawn_from_the_response (O : oracle)
    (s : st NewsPoller.t) :
  let batch := delivered_since s (NewsPoller.fetch_and_ingest O s).2 in
  sublist (RECORD_CONTENT <$> batch)
    (response_articles (api_result O (length (requests (env s))))) ∧
  NoDup (batch_keys batch) ∧
  (∀ k, k ∈ batch_keys batch → k ∉ NewsPoller.seen_ids (self s)).
Proof.
  cbv zeta.
  destruct (news_after_loop_spec O s) as (Happ & r & Hadds & _).
  rewrite news_cycle_delivered by done.
  destruct Hadds as (_ & Hsub & _ & _ & _ & _ & _ & _ & Hnd & Hnew & _).
  split_and!; [done | done |]. intros k Hk. by apply Hnew.
Qed.

(** X9: when the articles of the response are usable (dicts whose id is
    false or can be hashed), a cycle of the news poller delivers exactly
    the unseen ones: an identifier is in the batch passed to [append_rows]
    if and only if it was not in [seen_ids] when the cycle began and is
    the (true) id of an article of the response. *)
Theorem news_cycle_delivers_every_unseen_article (O : oracle)
    (s : st NewsPoller.t) :
  let out := api_result O (length (requests (env s))) in
  Forall usable_article (response_articles out) →
  ∀ k, k ∈ batch_keys (delivered_since s (NewsPoller.fetch_and_ingest O s).2)
       ↔ (k ∉ NewsPoller.seen_ids (self s))
         ∧ ∃ a, a ∈ response_articles out
                ∧ py_truthy (article_id a) = true
                ∧ py_key (article_id a) = Some k.
Proof.
  cbv zeta. intros Husable k.
  destruct (news_after_loop_spec O s) as (Happ & r & Hadds & _).
  rewrite news_cycle_delivered by done.
  destruct Hadds as (_ & _ & _ & _ & _ & _ & _ & _ & _ & Hnew & Hall).
  split; [apply Hnew|].
  intros (Hk & a & Ha & Ht & Hkey).
  destruct (Hall Husable) as [_ Hin]. by eapply Hin.
Qed.

(** Of the second response of the scenario, [a1, a2, a1, a3] after a1
    and a2 were seen, a3 is delivered. *)
Lemma news_cycle_delivers_every_unseen_article_witness :
  let s := (NewsPoller.fetch_and_ingest dedup_oracle NewsPoller.init).2 in
  (KStr "a3" ∈ batch_keys
                 (delivered_since s
                    (NewsPoller.fetch_and_ingest dedup_oracle s).2)
   ↔ (KStr "a3" ∉ NewsPoller.seen_ids (self s))
     ∧ ∃ a, a ∈ response_articles
                  (api_result dedup_oracle (length (requests (env s))))
            ∧ py_truthy (article_id a) = true
            ∧ py_key (article_id a) = Some (KStr "a3"))
  ∧ batch_keys (delivered_since s
                  (NewsPoller.fetch_and_ingest dedup_oracle s).2)
    = [KStr "a3"].
Proof.
  intros s. split; [|reflexivity].
  apply (news_cycle_delivers_every_unseen_article dedup_oracle s).
  vm_compute. repeat constructor; intros _; by eexists.
Defined.

(** * The size of [seen_ids] *)

Section SeenBound.
Context (O : oracle) (Hsound : set_order_sound O).

Lemma trim_bounds_seen_ids (s : st NewsPoller.t) :
  size (NewsPoller.seen_ids (self (NewsPoller.trim_seen_ids O s).2))
  ≤ SEEN_CAP.
Proof.
  destruct (decide (SEEN_CAP < size (NewsPoller.seen_ids (self s))))
    as [Hbig|Hsmall].
  - rewrite trim_size by done. apply SEEN_KEEP_le_CAP.
  - rewrite trim_seen_ids_eq. cbn [snd]. rewrite decide_False by done. lia.
Qed.

Lemma news_cycle_bounds_seen_ids s :
  Forall usable_article
    (response_articles (api_result O (length (requests (env s))))) →
  size (NewsPoller.seen_ids (self s)) ≤ SEEN_CAP →
  size (NewsPoller.seen_ids (self (NewsPoller.fetch_and_ingest O s).2))
  ≤ SEEN_CAP.
Proof.
  intros Husable Hsize. rewrite news_cycle_eq.
  destruct (ingest_rows_seen_ids O (news_after_loop O s)) as [-> _].
  destruct (iterated (api_result O (length (requests (env s)))))
    as [l|] eqn:Hit.
  - destruct (news_after_loop_spec O s) as (_ & r & Hadds & Hok & _).
    destruct Hadds as (_ & _ & _ & _ & _ & _ & _ & _ & _ & _ & Hall).
    destruct (Hall Husable) as [Hr _].
    rewrite Hok; [apply trim_bounds_seen_ids | done | by rewrite Hit].
  - unfold news_after_loop. by rewrite Hit.
Qed.
End SeenBound.

(** X10: as long as the articles of the responses are usable and
    [list(s)] lists the elements of a set [s], [seen_ids] never holds more
    than 5000 identifiers between two cycles of the news poller: every
    cycle that reaches the end of its loop trims the set. *)
Theorem seen_ids_stays_within_its_bound (O : oracle) (fuel : nat) :
  set_order_sound O → responses_usable O →
  size (NewsPoller.seen_ids (self (NewsPoller.run O fuel NewsPoller.init).2))
  ≤ SEEN_CAP.
Proof.
  intros Hsound Husable.
  apply (inv_news_run O
           (λ s, size (NewsPoller.seen_ids (self s)) ≤ SEEN_CAP) fuel).
  - by apply inv_is_set.
  - intros s. by apply news_cycle_bounds_seen_ids.
  - cbn. rewrite size_empty. lia.
Qed.

Lemma seen_ids_stays_within_its_bound_witness :
  size (NewsPoller.seen_ids
          (self (NewsPoller.run dedup_oracle 3 NewsPoller.init).2))
  ≤ SEEN_CAP.
Proof.
  apply (seen_ids_stays_within_its_bound dedup_oracle 3).
  - intros n s. reflexivity.
  - intros n. unfold response_articles. cbn.
    destruct (decide (n = 0)); cbn; repeat constructor; intros _; by eexists.
Defined.

(** * An article the loop raises on *)

Lemma see_article_unusable O a (s : st NewsPoller.t) :
  unusable_article a → ∃ e, NewsPoller.see_article O a s = (Raise e, s).
Proof.
  intros Hbad. rewrite see_article_eq.
  destruct a as [| | | | |d]; try by eexists.
  destruct Hbad as [-> ->]. by eexists.
Qed.

(** X11: an article the loop raises on (no dict, or a dict whose id is
    true and cannot be hashed) ends the [try] block of the cycle without a
    trace in the log of the world: the usable articles before it are
    handled as ever and the new ones among them are passed to
    [append_rows]; the articles after it are not looked at; and the trim
    of [seen_ids] is skipped, whatever the size of the set. *)
Theorem unusable_article_ends_the_loop (O : oracle) (s : st NewsPoller.t)
    (good rest : list json) (bad : json) :
  iterated (api_result O (length (requests (env s))))
  = Some (good ++ bad :: rest) →
  Forall usable_article good → unusable_article bad →
  let s1 := (for_each good (NewsPoller.see_article O) (news_loop_start s)).2 in
  let s' := (NewsPoller.fetch_and_ingest O s).2 in
  delivered_since s s' = rows s1 ∧
  sublist (RECORD_CONTENT <$> rows s1) good ∧
  NewsPoller.seen_ids (self s') = NewsPoller.seen_ids (self s1) ∧
  trims (env s') = trims (env s).
Proof.
  intros Hit Hgood Hbad. cbv zeta.
  destruct (see_articles_spec O good (news_loop_start s)) as [new Hadds].
  destruct Hadds as (Hrows & Hsub & _ & Happ & Htrims & _ & _ & _ & _ & _
                     & Hall).
  destruct (Hall Hgood) as [Hok _].
  set (s1 := (for_each good _ _).2) in *.
  assert (news_after_loop O s = s1) as HL.
  { unfold news_after_loop. rewrite Hit. cbv zeta.
    rewrite for_each_app. unfold bind.
    destruct (for_each good _ _) as [[[]|e] s2] eqn:Hloop; [|done].
    cbn [for_each]. unfold bind.
    destruct (see_article_unusable O bad s2 Hbad) as [e ->]. done. }
  rewrite news_cycle_delivered by (by rewrite HL).
  rewrite news_cycle_eq, HL.
  destruct (ingest_rows_seen_ids O s1) as [-> ->].
  split_and!; [done | by rewrite Hrows | done | done].
Qed.

(** Of [a1, "oops", a2] the first article is delivered, the third is
    not. *)
Lemma unusable_article_ends_the_loop_witness :
  let O := broken_news_oracle in
  let s := NewsPoller.init in
  let s1 := (for_each [article (JStr "a1")] (NewsPoller.see_article O)
               (news_loop_start s)).2 in
  let s' := (NewsPoller.fetch_and_ingest O s).2 in
  (delivered_since s s' = rows s1 ∧
   sublist (RECORD_CONTENT <$> rows s1) [article (JStr "a1")] ∧
   NewsPoller.seen_ids (self s') = NewsPoller.seen_ids (self s1) ∧
   trims (env s') = trims (env s))
  ∧ batch_keys (delivered_since s s') = [KStr "a1"].
Proof.
  intros O s s1 s'. split; [|reflexivity].
  apply (unusable_article_ends_the_loop O s [article (JStr "a1")]
           [article (JStr "a2")] (JStr "oops")).
  - reflexivity.
  - repeat constructor. intros _. by eexists.
  - exact I.
Defined.

(** * [api_get], from the inside *)

Section ThrottleLemmas.
Context (N : Throttle.net) (key : option string).

(** One call, path by path. *)
Lemma throttle_api_get_eq url params (l : Throttle.limiter) :
  let n := Throttle.calls l in
  let elapsed := PrimFloat.sub (Throttle.time_before N n)
                   (Throttle.last_api_call l) in
  let slept := if PrimFloat.ltb elapsed Throttle.API_CALL_DELAY
               then [PrimFloat.sub Throttle.API_CALL_DELAY elapsed]
               else [] in
  let out := Throttle.sent l
             ++ [Request url
                   (dict_set params "apiKey" (Throttle.api_key key))] in
  Throttle.api_get N key url params l
  = match Throttle.http N n with
    | Throttle.NoReply e =>
        (Raise e,
         Throttle.Limiter (Throttle.last_api_call l) (S n)
           (Throttle.sleeps l ++ slept) out)
    | Throttle.Reply status_ok body =>
        (match Throttle.outcome_of (Throttle.Reply status_ok body) with
         | Returns data => Ok data
         | Raises e => Raise e
         end,
         Throttle.Limiter (Throttle.time_after N n) (S n)
           (Throttle.sleeps l ++ slept) out)
    end.
Proof.
  cbv zeta. destruct l as [last n sl sn].
  unfold Throttle.api_get, bind, gets, modify, Throttle.sleep,
    Throttle.requests_get, Throttle.raise_for_status, Throttle.resp_json,
    ret, raise.
  cbn [Throttle.calls Throttle.last_api_call Throttle.sleeps Throttle.sent
       fst snd].
  destruct (PrimFloat.ltb _ _);
    cbn [Throttle.calls Throttle.last_api_call Throttle.sleeps Throttle.sent
         fst snd];
    rewrite ?app_nil_r;
    destruct (Throttle.http N n) as [e|[|] [data|]]; reflexivity.
Qed.
End ThrottleLemmas.

(** X12: the throttle is transparent to the pollers.  A call of [api_get]
    sends exactly one request, whatever the throttle decides; the request
    carries the parameters of the caller and the API key under "apiKey"
    (in place of a value the caller may have put there); and the caller
    gets the body of the reply, or the exception of [requests.get], of
    [raise_for_status] or of [resp.json()]: the answer that the pollers'
    view of [api_get] takes from its oracle. *)
Theorem pollers_view_of_api_get (N : Throttle.net) (key : option string)
    (O : oracle) {P : Type} (url : string) (params : list (string * json))
    (s : st P) (l : Throttle.limiter) :
  length (requests (env s)) = Throttle.calls l →
  api_result O (Throttle.calls l)
  = Throttle.outcome_of (Throttle.http N (Throttle.calls l)) →
  let view := api_get O url params s in
  let call := Throttle.api_get N key url params l in
  let params' := dict_set params "apiKey" (Throttle.api_key key) in
  view.1 = call.1 ∧
  length (requests (env view.2)) = Throttle.calls call.2 ∧
  Throttle.sent call.2 = Throttle.sent l ++ [Request url params'] ∧
  dict_get params' "apiKey" = Some (Throttle.api_key key) ∧
  (∀ k, k ≠ "apiKey"%string → dict_get params' k = dict_get params k).
Proof.
  intros Hlen Hres. cbv zeta.
  rewrite throttle_api_get_eq. unfold api_get. rewrite Hlen, Hres.
  split_and!.
  - by destruct (Throttle.http N _) as [e|[|] [data|]].
  - destruct (Throttle.http N _) as [e|[|] [data|]]; cbn;
      rewrite length_app; cbn; lia.
  - by destruct (Throttle.http N _) as [e|[|] [data|]].
  - apply dict_get_set.
  - intros k. apply dict_get_set_ne.
Qed.

(** The first ticker of the aggregate poller, through a network that
    answers with one bar. *)
Lemma pollers_view_of_api_get_witness :
  let N := Throttle.flaky_net in
  let O := steady_oracle [] in
  let params := [("adjusted"%string, JStr "true")] in
  let view := api_get O (agg_url "AAPL") params AggregatePoller.init in
  let call := Throttle.api_get N (Some "k3y"%string) (agg_url "AAPL") params
                Throttle.limiter0 in
  let params' := dict_set params "apiKey" (JStr "k3y") in
  view.1 = call.1 ∧
  length (requests (env view.2)) = Throttle.calls call.2 ∧
  Throttle.sent call.2 = [Request (agg_url "AAPL") params'] ∧
  dict_get params' "apiKey" = Some (JStr "k3y") ∧
  (∀ k, k ≠ "apiKey"%string → dict_get params' k = dict_get params k).
Proof.
  intros N O params.
  apply (pollers_view_of_api_get N (Some "k3y"%string) O (agg_url "AAPL")
           params AggregatePoller.init Throttle.limiter0);
    reflexivity.
Defined.

(** X13: the throttle measures the time since the latest reply, not since
    the latest request.  After any number of calls, [last_api_call] is the
    clock reading taken after the latest call that got a reply (with
    whatever status and body), or 0 when none did: a call whose
    [requests.get] raised leaves it alone.  So each call sleeps, or not, by
    the time passed since the latest reply; and every call has sent its one
    request. *)
Theorem limiter_measures_from_the_latest_reply (N : Throttle.net)
    (key : option string) (l : Throttle.limiter) :
  Throttle.reachable N key l →
  Throttle.last_api_call l = Throttle.measured_from N (Throttle.calls l) ∧
  Throttle.sleeps l = omap (Throttle.nap N) (seq 0 (Throttle.calls l)) ∧
  length (Throttle.sent l) = Throttle.calls l.
Proof.
  induction 1 as [|l url params _ (Hlast & Hsleeps & Hsent)]; [done|].
  rewrite throttle_api_get_eq. cbv zeta.
  assert ((if PrimFloat.ltb
                (PrimFloat.sub (Throttle.time_before N (Throttle.calls l))
                   (Throttle.last_api_call l)) Throttle.API_CALL_DELAY
           then [PrimFloat.sub Throttle.API_CALL_DELAY
                   (PrimFloat.sub (Throttle.time_before N (Throttle.calls l))
                      (Throttle.last_api_call l))]
           else [])
          = omap (Throttle.nap N) [Throttle.calls l]) as ->.
  { cbn [omap list_omap]. unfold Throttle.nap. rewrite Hlast.
    by destruct (PrimFloat.ltb _ _). }
  assert (∀ r,
            Throttle.sleeps l ++ omap (Throttle.nap N) [Throttle.calls l]
            = omap (Throttle.nap N) (seq 0 (S (Throttle.calls l)))
            ∧ length (Throttle.sent l ++ [r]) = S (Throttle.calls l))
    as Hrest.
  { intros r. rewrite seq_S, omap_app, Hsleeps, length_app, Hsent.
    split; [done | simpl; lia]. }
  destruct (Throttle.http N (Throttle.calls l)) as [e|ok body] eqn:Hhttp;
    cbn [snd Throttle.last_api_call Throttle.calls Throttle.sleeps
         Throttle.sent];
    (split; [|apply Hrest]);
    unfold Throttle.measured_from; cbn [Throttle.latest_reply];
    by rewrite Hhttp.
Qed.

(** Four calls, the second of which times out: the third call comes 9 s
    after the second request went out, and does not sleep. *)
Lemma limiter_measures_from_the_latest_reply_witness :
  let N := Throttle.flaky_net in
  let call := Throttle.api_get N None (agg_url "AAPL") [] in
  let l := (call (call (call (call Throttle.limiter0).2).2).2).2 in
  (Throttle.last_api_call l = Throttle.measured_from N (Throttle.calls l) ∧
   Throttle.sleeps l = omap (Throttle.nap N) (seq 0 (Throttle.calls l)) ∧
   length (Throttle.sent l) = Throttle.calls l)
  ∧ Throttle.sleeps l = [8; 8]%float.
Proof.
  intros N call l. split; [|reflexivity].
  apply (limiter_measures_from_the_latest_reply N None l).
  repeat apply Throttle.reachable_call. apply Throttle.reachable_start.
Defined.


(** * [main], the constructors and [close] *)

Section MainLemmas.
Context (K : Main.sdk).

Lemma returned_all_snoc acts a :
  Main.returned_all (acts ++ [a])
  = Main.returned_all acts ++ [Main.Step a true].
Proof. unfold Main.returned_all. by rewrite fmap_app. Qed.

(** A row of calls: they all return, or one raises and ends the row. *)
Lemma calls_cases acts (p : Main.proc) :
  let r := for_each acts (Main.call K) p in
  r = (Ok tt, Main.Proc (Main.trace p ++ Main.returned_all acts)
                (Main.tests p))
  ∨ ∃ k e, k < length acts
           ∧ r = (Raise e,
                  Main.Proc (Main.trace p ++ Main.raised_at k acts)
                    (Main.tests p)).
Proof.
  cbv zeta. revert p. induction acts as [|a acts IH]; intros [tr t].
  { left. cbn. by rewrite app_nil_r. }
  cbn [for_each]. unfold bind.
  change (Main.call K a (Main.Proc tr t))
    with (match Main.failure K (length tr) with
          | Some e => (Raise (A:=unit) e,
                       Main.Proc (tr ++ [Main.Step a false]) t)
          | None => (Ok tt, Main.Proc (tr ++ [Main.Step a true]) t)
          end).
  destruct (Main.failure K (length tr)) as [e|].
  - right. exists 0, e. split; [simpl; lia | reflexivity].
  - destruct (IH (Main.Proc (tr ++ [Main.Step a true]) t))
      as [->|(k & e & Hk & ->)]; cbn [Main.trace Main.tests].
    + left. by rewrite <- app_assoc.
    + right. exists (S k), e. split; [simpl; lia|].
      rewrite <- app_assoc. unfold Main.raised_at. cbn [lookup list_lookup].
      change ((a :: acts) !! S k) with (acts !! k).
      destruct (acts !! k); done.
Qed.

Lemma wait_cases fuel (p : Main.proc) :
  ∃ waits stop t,
    Forall Main.waiting waits ∧
    Main.wait_for_shutdown K fuel p
    = (Ok stop, Main.Proc (Main.trace p ++ waits) t).
Proof.
  revert p. induction fuel as [|fuel IH]; intros [tr t].
  { exists [], false, t. split; [constructor|]. cbn. by rewrite app_nil_r. }
  cbn [Main.wait_for_shutdown]. unfold bind at 1, Main.is_set.
  cbn [Main.trace Main.tests].
  destruct (Main.event_is_set K t).
  - exists [Main.Step Main.IsSet true], true, (S t).
    split; [|done]. constructor; [|constructor]. split; [done | by left].
  - unfold bind, Main.note, modify. cbn [Main.trace Main.tests].
    destruct (IH (Main.Proc ((tr ++ [Main.Step Main.IsSet true])
                               ++ [Main.Step (Main.Wait 1) true]) (S t)))
      as (waits & stop & t' & Hw & ->). cbn [Main.trace].
    exists (Main.Step Main.IsSet true :: Main.Step (Main.Wait 1) true :: waits),
      stop, t'.
    split; [|by rewrite <- !app_assoc].
    constructor; [split; [done | by left]|].
    constructor; [split; [done | by right] | done].
Qed.

(** [main] with an API key: a row of calls, the wait loop, a row of
    calls. *)
Lemma main_eq key fuel (p : Main.proc) :
  Main.key_missing key = false →
  Main.main K key fuel p
  = bind (for_each Main.startup (Main.call K))
      (λ _, bind (Main.wait_for_shutdown K fuel)
              (λ stop : bool,
                 if stop
                 then bind (Main.note Main.SetEvent)
                        (λ _, bind (for_each Main.teardown (Main.call K))
                                (λ _, ret Main.Stopped))
                 else ret Main.Waiting)) p.
Proof.
  intros Hkey. unfold Main.main. rewrite Hkey.
  unfold Main.new_poller, Main.create_streaming_client, Main.close,
    Main.startup, Main.teardown, log.
  cbn [for_each Main.channel Main.client].
  change ("RAW_TRADES" +:+ "-STREAMING") with "RAW_TRADES-STREAMING"%string.
  change ("RAW_AGGREGATES" +:+ "-STREAMING")
    with "RAW_AGGREGATES-STREAMING"%string.
  change ("RAW_NEWS" +:+ "-STREAMING") with "RAW_NEWS-STREAMING"%string.
  unfold bind, ret.
  repeat match goal with
         | |- context [Main.call K ?a ?q] =>
             destruct (Main.call K a q) as [[[]|?] ?];
             cbv beta iota delta [Main.channel Main.client]; try reflexivity
         | |- context [Main.wait_for_shutdown K fuel ?q] =>
             destruct (Main.wait_for_shutdown K fuel q) as [[[|]|?] ?];
             cbv beta iota delta [Main.channel Main.client]; try reflexivity
         | |- context [Main.note ?a ?q] =>
             destruct (Main.note a q) as [[[]|?] ?];
             cbv beta iota delta [Main.channel Main.client]; try reflexivity
         end.
Qed.

Lemma main_course key fuel :
  Main.key_missing key = false →
  Main.course (Main.main K key fuel Main.proc0).1
    (Main.trace (Main.main K key fuel Main.proc0).2).
Proof.
  intros Hkey. rewrite main_eq by done.
  destruct (calls_cases Main.startup Main.proc0) as [H1|(k & e & Hk & H1)].
  2:{ rewrite (bind_raise _ _ _ _ _ H1). by eapply Main.startup_raises. }
  rewrite (bind_ok _ _ _ _ _ H1).
  match goal with |- context [bind (Main.wait_for_shutdown K fuel) _ ?q] =>
    destruct (wait_cases fuel q) as (waits & stop & t & Hw & H2) end.
  rewrite (bind_ok _ _ _ _ _ H2). cbn [Main.trace Main.proc0 app].
  destruct stop.
  2:{ by eapply Main.still_waiting. }
  rewrite (bind_ok _ _ _ _ _ (eq_refl : Main.note Main.SetEvent _ = (_, _))).
  cbn [Main.trace Main.tests].
  match goal with |- context [bind (for_each Main.teardown _) _ ?q] =>
    destruct (calls_cases Main.teardown q) as [H3|(k & e & Hk & H3)] end.
  - rewrite (bind_ok _ _ _ _ _ H3). cbn [Main.trace fst snd ret].
    eapply Main.runs_to_the_end; [done | done |].
    by rewrite <- !app_assoc.
  - rewrite (bind_raise _ _ _ _ _ H3). cbn [Main.trace fst snd].
    eapply Main.teardown_raises; [done | done | done |].
    by rewrite <- !app_assoc.
Qed.
End MainLemmas.

Lemma waiting_opens_nothing waits :
  Forall Main.waiting waits → Main.opened waits = [] ∧ Main.closed waits = [].
Proof.
  unfold Main.opened, Main.closed.
  induction 1 as [|[a ok] waits [Hok Ha] _ [IH1 IH2]]; [done|].
  cbn in Hok, Ha. subst ok. cbn [omap list_omap]. rewrite IH1, IH2.
  by destruct Ha as [-> | ->].
Qed.

Lemma main_refuses K key fuel (p : Main.proc) :
  Main.key_missing key = true →
  Main.main K key fuel p = (Ok Main.Refused, p).
Proof. intros Hkey. unfold Main.main. by rewrite Hkey. Qed.

Lemma key_missing_iff key :
  Main.key_missing key = true ↔ key = None ∨ key = Some ""%string.
Proof.
  unfold Main.key_missing. destruct key as [k|]; cbn.
  - rewrite negb_involutive. rewrite String.eqb_eq. naive_solver.
  - naive_solver.
Qed.

(** The names a run has opened and closed when the startup and the wait
    loop are behind it. *)
Lemma opened_after_startup waits rest :
  Forall Main.waiting waits →
  Main.opened (Main.returned_all Main.startup ++ waits ++ rest)
  = ["trades_client"; "trades_channel"; "agg_client"; "agg_channel";
     "news_client"; "news_channel"]%string ++ Main.opened rest
  ∧ Main.closed (Main.returned_all Main.startup ++ waits ++ rest)
    = Main.closed rest.
Proof.
  intros [Ho Hc]%waiting_opens_nothing. unfold Main.opened, Main.closed in *.
  by rewrite !omap_app, Ho, Hc.
Qed.

(** X14: when [main] runs to its last line, it has created the three
    clients and opened their channels, started the three threads, waited
    until a test found the shutdown event set, set the event, and closed
    channel and client of the historical, the aggregate and the news
    poller, in this order: everything it opened is closed, and nothing is
    closed before the event is set. *)
Theorem main_closes_what_it_opened (K : Main.sdk) (key : option string)
    (fuel : nat) :
  let r := Main.main K key fuel Main.proc0 in
  r.1 = Ok Main.Stopped →
  (∃ waits,
     Forall Main.waiting waits ∧
     Main.trace r.2
     = Main.returned_all Main.startup ++ waits
         ++ Main.Step Main.SetEvent true :: Main.returned_all Main.teardown) ∧
  Main.opened (Main.trace r.2)
  = ["trades_client"; "trades_channel"; "agg_client"; "agg_channel";
     "news_client"; "news_channel"]%string ∧
  Main.closed (Main.trace r.2)
  = ["trades_channel"; "trades_client"; "agg_channel"; "agg_client";
     "news_channel"; "news_client"]%string.
Proof.
  cbv zeta. intros Hr.
  destruct (Main.key_missing key) eqn:Hkey.
  { by rewrite main_refuses in Hr. }
  destruct (main_course K key fuel Hkey)
    as [k e _ Hr' _|waits _ Hr' _|waits k e _ _ Hr' _|waits Hw _ Htr];
    try congruence.
  rewrite Htr. destruct (opened_after_startup waits
                           (Main.Step Main.SetEvent true
                              :: Main.returned_all Main.teardown) Hw)
    as [-> ->].
  split_and!; [by exists waits | done | done].
Qed.

Lemma main_closes_what_it_opened_witness :
  let r := Main.main Main.calm_sdk (Some "k3y"%string) 5 Main.proc0 in
  (∃ waits,
     Forall Main.waiting waits ∧
     Main.trace r.2
     = Main.returned_all Main.startup ++ waits
         ++ Main.Step Main.SetEvent true :: Main.returned_all Main.teardown) ∧
  Main.opened (Main.trace r.2)
  = ["trades_client"; "trades_channel"; "agg_client"; "agg_channel";
     "news_client"; "news_channel"]%string ∧
  Main.closed (Main.trace r.2)
  = ["trades_channel"; "trades_client"; "agg_channel"; "agg_client";
     "news_channel"; "news_client"]%string.
Proof.
  apply (main_closes_what_it_opened Main.calm_sdk (Some "k3y"%string) 5).
  reflexivity.
Defined.

Lemma raised_at_last k acts :
  k < length acts →
  ∃ before a, Main.raised_at k acts = before ++ [Main.Step a false].
Proof.
  intros Hk. unfold Main.raised_at.
  destruct (acts !! k) as [a|] eqn:Ha; [by eexists _, _|].
  apply lookup_ge_None in Ha. lia.
Qed.

(** A call of the startup that raises: what was opened stays open. *)
Lemma startup_leak k :
  k < length Main.startup →
  Main.opened (Main.raised_at k Main.startup) ≠ [] →
  ∃ x, x ∈ Main.opened (Main.raised_at k Main.startup)
       ∧ x ∉ Main.closed (Main.raised_at k Main.startup).
Proof.
  intros Hk.
  do 9 (destruct k as [|k];
        [cbn; intros Hne;
         first [done | eexists; split; [left | apply not_elem_of_nil]] |]).
  simpl in Hk. lia.
Qed.

(** A call of the teardown that raises: what it was to close stays
    open, and so does all that was to be closed after it. *)
Lemma teardown_leak k :
  k < length Main.teardown →
  ∃ x, x ∈ ["trades_client"; "trades_channel"; "agg_client"; "agg_channel";
            "news_client"; "news_channel"]%string
       ∧ x ∉ Main.closed (Main.Step Main.SetEvent true
                            :: Main.raised_at k Main.teardown).
Proof.
  intros Hk.
  destruct k as [|k]; [exists "trades_channel"%string; cbn; set_solver|].
  destruct k as [|k]; [exists "trades_client"%string; cbn; set_solver|].
  destruct k as [|k]; [exists "agg_channel"%string; cbn; set_solver|].
  destruct k as [|k]; [exists "agg_client"%string; cbn; set_solver|].
  destruct k as [|k]; [exists "news_channel"%string; cbn; set_solver|].
  destruct k as [|k]; [exists "news_client"%string; cbn; set_solver|].
  simpl in Hk. lia.
Qed.

(** X15: [main] has no handler around the constructors, the thread starts
    and the [close] calls.  When one of these calls raises, [main] raises:
    the call that raised is its last action, and every later call is
    skipped, so that, unless nothing had been opened yet, a client or a
    channel that was opened is never closed. *)
Theorem exception_in_main_leaves_resources_open (K : Main.sdk)
    (key : option string) (fuel : nat) (e : exn) :
  let r := Main.main K key fuel Main.proc0 in
  r.1 = Raise e →
  (∃ before a, Main.trace r.2 = before ++ [Main.Step a false]) ∧
  (Main.opened (Main.trace r.2) ≠ [] →
   ∃ x, x ∈ Main.opened (Main.trace r.2) ∧ x ∉ Main.closed (Main.trace r.2)).
Proof.
  cbv zeta. intros Hr.
  destruct (Main.key_missing key) eqn:Hkey.
  { by rewrite main_refuses in Hr. }
  destruct (main_course K key fuel Hkey)
    as [k e' Hk _ Htr|waits _ Hr' _|waits k e' Hw Hk _ Htr|waits _ Hr' _];
    try congruence; rewrite Htr; clear Htr Hr.
  - split; [by apply raised_at_last | by apply startup_leak].
  - split.
    + destruct (raised_at_last k Main.teardown Hk) as (before & a & ->).
      exists (Main.returned_all Main.startup ++ waits
                ++ Main.Step Main.SetEvent true :: before), a.
      by rewrite <- !app_assoc.
    + intros _.
      destruct (opened_after_startup waits
                  (Main.Step Main.SetEvent true
                     :: Main.raised_at k Main.teardown) Hw) as [-> ->].
      destruct (teardown_leak k Hk) as (x & Hx & Hout).
      exists x. split; [|done]. apply elem_of_app. by left.
Qed.

Lemma exception_in_main_leaves_resources_open_witness :
  let r := Main.main Main.failing_close_sdk (Some "k3y"%string) 5
             Main.proc0 in
  ((∃ before a, Main.trace r.2 = before ++ [Main.Step a false]) ∧
   (Main.opened (Main.trace r.2) ≠ [] →
    ∃ x, x ∈ Main.opened (Main.trace r.2)
         ∧ x ∉ Main.closed (Main.trace r.2)))
  ∧ Main.closed (Main.trace r.2) = ["trades_channel"%string].
Proof.
  intros r. split; [|reflexivity].
  apply (exception_in_main_leaves_resources_open Main.failing_close_sdk
           (Some "k3y"%string) 5 IngestError).
  reflexivity.
Defined.

(** X16: [main] touches the SDK only when it has an API key.  Without
    one (the variable is unset or empty) it returns at once: no client is
    created, no thread is started.  With one, its first action is to
    create the client of the historical poller, for the pipe
    RAW_TRADES-STREAMING. *)
Theorem main_starts_only_with_an_api_key (K : Main.sdk)
    (key : option string) (fuel : nat) :
  let r := Main.main K key fuel Main.proc0 in
  (r.1 = Ok Main.Refused ↔ key = None ∨ key = Some ""%string) ∧
  (r.1 = Ok Main.Refused → r.2 = Main.proc0) ∧
  (r.1 ≠ Ok Main.Refused →
   ∃ ok rest,
     Main.trace r.2
     = Main.Step (Main.NewClient "trades_client" "SNOWPULSE_DB" "RAW"
                    "RAW_TRADES-STREAMING") ok :: rest).
Proof.
  cbv zeta. rewrite <- key_missing_iff.
  destruct (Main.key_missing key) eqn:Hkey.
  { rewrite main_refuses by done. by split_and!. }
  assert ((Main.main K key fuel Main.proc0).1 ≠ Ok Main.Refused
          ∧ ∃ ok rest,
              Main.trace (Main.main K key fuel Main.proc0).2
              = Main.Step (Main.NewClient "trades_client" "SNOWPULSE_DB"
                             "RAW" "RAW_TRADES-STREAMING") ok :: rest)
    as [Hne Hfirst].
  { destruct (main_course K key fuel Hkey)
      as [k e' Hk -> ->|waits _ -> ->|waits k e' _ _ -> ->|waits _ -> ->];
      (split; [done|]); try by eexists _, _.
    destruct k as [|k]; [by eexists _, _|].
    unfold Main.raised_at.
    destruct (Main.startup !! S k); by eexists _, _. }
  split_and!; [split; [done | congruence] | done | done].
Qed.

(** * From the clock to the channel *)

Section Conserved.
Context (O : oracle) `{PollerFields P}.

Lemma rows_conserved_env b (s : st P) w :
  appended w = appended (env s) → clock_reads w = clock_reads (env s) →
  rows_conserved O b s → rows_conserved O b (set_env w s).
Proof.
  intros Ha Hc. unfold rows_conserved. cbn [env rows set_env].
  by rewrite Ha, Hc.
Qed.

Lemma rows_conserved_self b (s : st P) p :
  rows_conserved O b s → rows_conserved O b (set_self p s).
Proof. done. Qed.

(** One timestamp, one row. *)
Lemma rows_conserved_row (s : st P) content src t :
  rows_conserved O true s →
  rows_conserved O true
    (St (self s)
        (rows s ++ [Envelope content
                      (Metadata (utc_now O (clock_reads (env s))) src t)])
        (w_tick (env s))).
Proof.
  unfold rows_conserved, stamps. cbn [env rows appended clock_reads w_tick].
  intros Hs. rewrite seq_S, (fmap_app (utc_now O)), <- Hs.
  by rewrite app_assoc, fmap_app.
Qed.

Lemma rows_conserved_enter (s : st P) :
  rows_conserved O false s → rows_conserved O true (set_rows [] s).
Proof. done. Qed.

(** The append call takes all of [rows]. *)
Lemma rows_conserved_ingest after (s : st P) :
  quiet after →
  rows_conserved O true s →
  rows_conserved O false (ingest_rows O after s).2.
Proof.
  intros Hq Hs. unfold rows_conserved in *.
  destruct (decide (rows s = [])) as [Hnil|Hcons].
  - rewrite ingest_rows_nil by done. cbn [snd].
    by rewrite Hnil in Hs.
  - rewrite ingest_rows_cons by done. cbn [snd].
    assert (∀ p a b ok,
              stamps
                ((appended
                    (env (set_env
                            (w_append (AppendCall (rows s) a b ok) (env s))
                            (set_self (p : P) s))) ≫= ac_rows) ++ [])
              = utc_now O
                  <$> seq 0
                        (clock_reads
                           (env (set_env
                                   (w_append (AppendCall (rows s) a b ok)
                                      (env s))
                                   (set_self p s))))) as Hcall.
    { intros p a b ok. cbn. rewrite bind_app. cbn.
      by rewrite !app_nil_r. }
    destruct (append_ok O _); [|apply Hcall].
    match goal with |- context [after ?s1] =>
      destruct (Hq s1) as (-> & _ & _) end.
    apply Hcall.
Qed.

Lemma fetch_ticker_conserved url src t :
  inv (rows_conserved O true) (fetch_ticker_with (P:=P) O url src t).
Proof.
  unfold fetch_ticker_with.
  apply inv_try_except; [|intros; apply inv_log].
  apply inv_bind;
    [apply inv_api_get; intros; by apply rows_conserved_env | intros data].
  apply inv_bind; [apply inv_py_get | intros results].
  apply inv_bind; [apply inv_py_iter | intros items].
  apply inv_for_each. intros item s Hs.
  destruct item as [| | | | |d]; try done.
  unfold bind, py_setitem, ret, utc_now_iso, rows_append, modify. cbn.
  exact (rows_conserved_row s _ _ _ Hs).
Qed.

Lemma for_tickers_conserved url src ts :
  inv (rows_conserved O true)
    (for_tickers O ts (fetch_ticker_with (P:=P) O url src)).
Proof.
  apply inv_for_tickers; [|intros t; apply fetch_ticker_conserved].
  apply inv_is_set. intros s. by apply rows_conserved_env.
Qed.
End Conserved.

Section ConservedPerPoller.
Context (O : oracle).

Lemma agg_cycle_conserved :
  inv (rows_conserved O false) (AggregatePoller.fetch_and_ingest O).
Proof.
  intros s Hs. rewrite agg_cycle_unfold, agg_fetch_ticker_with.
  apply rows_conserved_ingest; [apply quiet_log|].
  by apply for_tickers_conserved, rows_conserved_enter.
Qed.

Lemma hist_cycle_conserved :
  inv (rows_conserved O false) (HistoricalAggPoller.fetch_and_ingest O).
Proof.
  intros s Hs.
  destruct (HistoricalAggPoller.loaded (self s)) eqn:Hl.
  { by rewrite hist_loaded_noop. }
  rewrite hist_cycle_unfold, hist_fetch_ticker_with by done.
  apply rows_conserved_ingest; [apply quiet_hist_after|].
  by apply for_tickers_conserved, rows_conserved_enter.
Qed.

Lemma news_cycle_conserved :
  inv (rows_conserved O false) (NewsPoller.fetch_and_ingest O).
Proof.
  intros s Hs. rewrite news_fetch_and_ingest_unfold.
  apply rows_conserved_ingest; [apply quiet_log|].
  apply inv_try_except; [|intros; apply inv_log | by apply rows_conserved_enter].
  apply inv_bind;
    [apply inv_api_get; intros; by apply rows_conserved_env | intros data].
  apply inv_bind; [apply inv_py_get | intros results].
  apply inv_bind; [apply inv_py_iter | intros articles].
  apply inv_bind; [apply inv_for_each; intros article | intros _].
  - intros s1 Hs1. rewrite see_article_eq.
    destruct article as [| | | | |d]; try done.
    destruct (py_truthy _); [|done].
    destruct (py_key _) as [k|]; [|done].
    destruct (decide _); [done|]. cbn [snd].
    exact (rows_conserved_row O (set_self _ s1) _ _ _ Hs1).
  - intros s1 Hs1. rewrite trim_seen_ids_eq. cbn [snd].
    destruct (decide _); [|done].
    by apply rows_conserved_env.
Qed.
End ConservedPerPoller.

(** X17: a poller takes one timestamp for each envelope it builds, and
    every envelope it builds in a cycle is in the batch of that cycle.  So
    in every run of each poller the rows passed to [append_rows], call
    after call, carry the timestamps the poller has taken, each once and
    in the order taken: no envelope is built and then dropped, held back
    for a later cycle, or passed on twice. *)
Theorem every_row_built_is_passed_on_once (O : oracle) (fuel : nat) :
  rows_conserved O false
    (HistoricalAggPoller.run O fuel HistoricalAggPoller.init).2 ∧
  rows_conserved O false
    (AggregatePoller.run O fuel AggregatePoller.init).2 ∧
  rows_conserved O false (NewsPoller.run O fuel NewsPoller.init).2.
Proof.
  split_and!.
  - apply inv_hist_run; [| apply hist_cycle_conserved | done].
    apply inv_is_set. intros s. by apply rows_conserved_env.
  - apply inv_agg_run; [| apply agg_cycle_conserved | done].
    apply inv_is_set. intros s. by apply rows_conserved_env.
  - apply inv_news_run; [| apply news_cycle_conserved | done].
    apply inv_is_set. intros s. by apply rows_conserved_env.
Qed.

(** * The requests *)

Lemma agg_cycle_requests O :
  inv (λ s, Forall agg_request (requests (env s)))
    (AggregatePoller.fetch_and_ingest O).
Proof.
  unfold AggregatePoller.fetch_and_ingest.
  apply inv_bind; [by apply inv_modify | intros _].
  apply inv_bind; [| intros _; apply inv_ingest_rows; [done | done |]].
  - apply inv_for_tickers_in; [by apply inv_is_set | intros t Ht].
    unfold AggregatePoller.fetch_ticker.
    apply inv_try_except; [|intros; apply inv_log].
    apply inv_bind; [apply inv_api_get_request | intros data].
    { intros s Hs. cbn. apply Forall_app. split; [done|].
      constructor; [|done]. by exists t. }
    inv_steps; intros; assumption.
  - apply inv_log.
Qed.

(** X18: the aggregate poller requests nothing but the previous close of
    one of the configured tickers, with "adjusted" set to "true"; and the
    news poller makes one and the same request in every cycle: the latest
    50 articles on the configured tickers. *)
Theorem pollers_request_nothing_else (O : oracle) (fuel : nat) :
  Forall agg_request
    (requests (env (AggregatePoller.run O fuel AggregatePoller.init).2)) ∧
  Forall (λ r, r = news_request)
    (requests (env (NewsPoller.run O fuel NewsPoller.init).2)).
Proof.
  split.
  - apply (inv_agg_run O (λ s, Forall agg_request (requests (env s))) fuel);
      [by apply inv_is_set | apply agg_cycle_requests | constructor].
  - apply (inv_news_run O
             (λ s, Forall (λ r, r = news_request) (requests (env s))) fuel);
      [by apply inv_is_set | | constructor].
    intros s Hs. destruct (news_cycle_requests O s) as [-> _].
    apply Forall_app. split; [done | by constructor].
Qed.
